(** * Nano image generator: a model of [scripts/generate_image.py]

    The script sends a prompt (and optional reference images) to a remote
    image API, sniffs the format of the returned image from its leading
    bytes and writes it to disk under an extension that matches the bytes.

    Every function of the script is embedded below under its own name,
    and the longer ones are cut into phases named after what their lines
    do.  Pure functions become Rocq functions.  The effectful ones run in
    a small monad that records the observable events of the process (lines
    on the two output streams, the HTTP POST, directory creation, the file
    write) and ends in a value, in [sys.exit] or in an uncaught exception.
    What the process reads from outside (environment, files, the answer
    of the API, the clock) is a record, [World]; the functions of Python's
    library whose results are only passed on are another, [PyLib].

    The file has three parts: the embedding, the vocabulary in which the
    properties are stated together with sample worlds, and the proofs. *)

From Stdlib Require Import String Ascii List Bool Arith ZArith Lia.
From Stdlib Require Import Init.Byte.
From Stdlib Require DecimalString.
Import ListNotations.

Local Open Scope string_scope.
Local Open Scope list_scope.

Local Set Warnings "-register-all".

(* ================================================================== *)
(** * Byte buffers *)
(* ================================================================== *)

(** Python [bytes]: a finite sequence of octets. *)
Definition bytes := list byte.

Fixpoint bytes_eqb (a b : bytes) : bool :=
  match a, b with
  | [], [] => true
  | x :: a', y :: b' => Byte.eqb x y && bytes_eqb a' b'
  | _, _ => false
  end.

(** [b[i:j]] for non-negative literal bounds: out-of-range bounds are
    clamped, never an error. *)
Definition slice (i j : nat) (b : bytes) : bytes := firstn (j - i) (skipn i b).

(** A bytes literal whose characters are all printable ASCII. *)
Definition b_lit (s : string) : bytes := list_byte_of_string s.

(** [b'\x89PNG\r\n\x1a\n'] *)
Definition PNG_SIGNATURE : bytes := [x89; x50; x4e; x47; x0d; x0a; x1a; x0a].
(** [b'\xff\xd8'] *)
Definition JPEG_SIGNATURE : bytes := [xff; xd8].

(* ================================================================== *)
(** * The two format tables *)
(* ================================================================== *)

(** [detect_image_format], lines 59-77: an if/elif chain over slices of the
    buffer, first match wins, PNG as the default. *)
Definition detect_image_format (image_bytes : bytes) : string * string :=
  if bytes_eqb (slice 0 8 image_bytes) PNG_SIGNATURE then
    ("image/png", ".png")
  else if bytes_eqb (slice 0 2 image_bytes) JPEG_SIGNATURE then
    ("image/jpeg", ".jpg")
  else if bytes_eqb (slice 0 4 image_bytes) (b_lit "RIFF")
          && bytes_eqb (slice 8 12 image_bytes) (b_lit "WEBP") then
    ("image/webp", ".webp")
  else if existsb (bytes_eqb (slice 0 6 image_bytes))
                  [b_lit "GIF87a"; b_lit "GIF89a"] then
    ("image/gif", ".gif")
  else
    ("image/png", ".png").

(** A Python dict with string keys, as an association list in insertion
    order; [dict_get] is [d.get(k)] with [None] for a missing key. *)
Fixpoint dict_get {V : Type} (d : list (string * V)) (k : string) : option V :=
  match d with
  | [] => None
  | (k', v) :: d' => if String.eqb k' k then Some v else dict_get d' k
  end.

Definition dict_get_default {V : Type} (d : list (string * V)) (k : string)
    (default : V) : V :=
  match dict_get d k with
  | Some v => v
  | None => default
  end.

(** [get_extension], lines 204-212. *)
Definition extensions : list (string * string) :=
  [ ("image/png", ".png");
    ("image/jpeg", ".jpg");
    ("image/webp", ".webp");
    ("image/gif", ".gif") ].

Definition get_extension (mime_type : string) : string :=
  dict_get_default extensions mime_type ".png".

(* ================================================================== *)
(** * Text *)
(* ================================================================== *)

(** A Python [str] is modelled as a Rocq [string] whose characters are the
    code points 0..255.  The three character tables below are Python's
    (the Unicode database) on that range. *)

Definition code (c : ascii) : nat := nat_of_ascii c.

Definition between (lo hi : nat) (c : ascii) : bool :=
  ((lo <=? code c) && (code c <=? hi))%nat.

(** [str.isspace], which is also what [\s] matches in a [str] pattern and
    what [str.strip()] removes: TAB..CR, FS..US, SPACE, NEL, NBSP. *)
Definition isspace (c : ascii) : bool :=
  between 9 13 c || between 28 32 c || (code c =? 133)%nat || (code c =? 160)%nat.

(** [str.isalnum]: digits and letters, and in the upper half the ordinal
    indicators, superscript digits, micro sign, vulgar fractions and the
    accented letters (all but the multiplication and division signs). *)
Definition isalnum (c : ascii) : bool :=
  between 48 57 c || between 65 90 c || between 97 122 c
  || (code c =? 170)%nat || between 178 179 c || (code c =? 181)%nat
  || between 185 186 c || between 188 190 c
  || between 192 214 c || between 216 246 c || between 248 255 c.

(** [\w] in a [str] pattern: alphanumeric or underscore. *)
Definition is_word (c : ascii) : bool := isalnum c || (code c =? 95)%nat.

Definition is_hyphen (c : ascii) : bool := (code c =? 45)%nat.

(** [str.lower] on one character between U+0000 and U+00FF, where it
    gives one character of the same range.  (Beyond U+00FF [str.lower] can
    give two characters for one; such text is outside this model.) *)
Definition lower_char (c : ascii) : ascii :=
  if between 65 90 c || between 192 214 c || between 216 222 c
  then ascii_of_nat (code c + 32) else c.

Fixpoint lower (s : string) : string :=
  match s with
  | EmptyString => EmptyString
  | String c s' => String (lower_char c) (lower s')
  end.

(** [str.strip()] *)
Fixpoint lstrip (s : string) : string :=
  match s with
  | EmptyString => EmptyString
  | String c s' => if isspace c then lstrip s' else s
  end.

Fixpoint rstrip (s : string) : string :=
  match s with
  | EmptyString => EmptyString
  | String c s' =>
      match rstrip s' with
      | EmptyString => if isspace c then EmptyString else String c EmptyString
      | r => String c r
      end
  end.

Definition strip (s : string) : string := rstrip (lstrip s).

(** [re.sub(p, repl, s)] for a pattern [p] that is one character class:
    every character of the class is replaced. *)
Fixpoint re_sub_class (cls : ascii -> bool) (repl s : string) : string :=
  match s with
  | EmptyString => EmptyString
  | String c s' =>
      if cls c then (repl ++ re_sub_class cls repl s')%string
      else String c (re_sub_class cls repl s')
  end.

(** [re.sub(p, repl, s)] for a pattern [p] that is one character class
    under [+]: matches are greedy and do not overlap, so every maximal run
    of class characters is replaced once.  [in_run] tells that the
    previous character belonged to the run being replaced. *)
Fixpoint re_sub_runs_from (cls : ascii -> bool) (repl : string)
    (in_run : bool) (s : string) : string :=
  match s with
  | EmptyString => EmptyString
  | String c s' =>
      if cls c then
        if in_run then re_sub_runs_from cls repl true s'
        else (repl ++ re_sub_runs_from cls repl true s')%string
      else String c (re_sub_runs_from cls repl false s')
  end.

Definition re_sub_runs (cls : ascii -> bool) (repl s : string) : string :=
  re_sub_runs_from cls repl false s.

(** The two patterns of [main]: [[^\w\s-]] and [[-\s]+]. *)
Definition not_word_space_hyphen (c : ascii) : bool :=
  negb (is_word c || isspace c || is_hyphen c).

Definition hyphen_or_space (c : ascii) : bool := is_hyphen c || isspace c.

(** [s[:n]] *)
Definition take (n : nat) (s : string) : string := substring 0 n s.

(** [s or default] *)
Definition str_or (s default : string) : string :=
  match s with
  | EmptyString => default
  | _ => s
  end.

(** [str(n)] / [f"{n}"] for integers. *)
Definition str_of_int (n : Z) : string :=
  DecimalString.NilZero.string_of_int (Z.to_int n).

Definition str_of_len (n : nat) : string := str_of_int (Z.of_nat n).

(** The slug computed on lines 294-295 of [main]. *)
Definition slug_of_prompt (prompt : string) : string :=
  let slug := lower (strip (re_sub_class not_word_space_hyphen EmptyString prompt)) in
  str_or (take 50 (re_sub_runs hyphen_or_space "-" slug)) "untitled".

(** Line 297: [f"{slug}-{timestamp}"]. *)
Definition auto_filename (prompt : string) (timestamp : Z) : string :=
  (slug_of_prompt prompt ++ "-" ++ str_of_int timestamp)%string.

(* ================================================================== *)
(** * Paths *)
(* ================================================================== *)

(** [pathlib.Path] on a POSIX system (Python 3.10-3.13): a path is its root
    (empty, one slash, or two slashes when the text starts with exactly
    two) and its components; empty components and [.] are dropped when
    the text is parsed. *)
Record PurePath : Type := mkPath {
  root : string;
  parts : list string
}.

Definition is_slash (c : ascii) : bool := (code c =? 47)%nat.
Definition is_dot (c : ascii) : bool := (code c =? 46)%nat.

(** [s.split('/')] *)
Fixpoint split_slash (s : string) : list string :=
  match s with
  | EmptyString => [EmptyString]
  | String c s' =>
      if is_slash c then EmptyString :: split_slash s'
      else match split_slash s' with
           | h :: t => String c h :: t
           | [] => [String c EmptyString]
           end
  end.

Fixpoint leading_slashes (s : string) : nat :=
  match s with
  | String c s' => if is_slash c then S (leading_slashes s') else 0
  | EmptyString => 0
  end.

Definition kept_component (x : string) : bool :=
  negb (String.eqb x EmptyString) && negb (String.eqb x ".").

(** [Path(s)] *)
Definition Path (s : string) : PurePath :=
  let n := leading_slashes s in
  {| root := if (n =? 0)%nat then EmptyString else if (n =? 2)%nat then "//" else "/";
     parts := filter kept_component (split_slash s) |}.

(** ['/'.join(l)] *)
Fixpoint join_slash (l : list string) : string :=
  match l with
  | [] => EmptyString
  | [x] => x
  | x :: l' => (x ++ "/" ++ join_slash l')%string
  end.

(** [str(p)] *)
Definition path_str (p : PurePath) : string :=
  str_or (root p ++ join_slash (parts p))%string ".".

(** [p.name] *)
Definition path_name (p : PurePath) : string := last (parts p) EmptyString.

(** [s.rfind('.')], with [None] for -1. *)
Fixpoint rfind_dot (s : string) : option nat :=
  match s with
  | EmptyString => None
  | String c s' =>
      match rfind_dot s' with
      | Some i => Some (S i)
      | None => if is_dot c then Some 0 else None
      end
  end.

(** [s[i:]] *)
Fixpoint drop (i : nat) (s : string) : string :=
  match i, s with
  | 0, _ => s
  | S i', String _ s' => drop i' s'
  | S _, EmptyString => EmptyString
  end.

(** [p.suffix]: the part of the name from its last dot on, unless that dot
    is the first or the last character of the name. *)
Definition name_suffix (name : string) : string :=
  match rfind_dot name with
  | Some i =>
      if ((0 <? i) && (i <? String.length name - 1))%nat then drop i name
      else EmptyString
  | None => EmptyString
  end.

Definition path_suffix (p : PurePath) : string := name_suffix (path_name p).

(** [s.startswith('.')] and ['/' in s] *)
Definition starts_with_dot (s : string) : bool :=
  match s with
  | String c _ => is_dot c
  | EmptyString => false
  end.

Fixpoint has_slash (s : string) : bool :=
  match s with
  | EmptyString => false
  | String c s' => is_slash c || has_slash s'
  end.

(** [p.with_suffix(suffix)]; [None] stands for the [ValueError] raised for
    an invalid suffix or a path with an empty name. *)
Definition with_suffix (p : PurePath) (suffix : string) : option PurePath :=
  if has_slash suffix then None
  else if (negb (String.eqb suffix EmptyString) && negb (starts_with_dot suffix))
          || String.eqb suffix "." then None
  else
    let name := path_name p in
    if String.eqb name EmptyString then None
    else
      let old_suffix := path_suffix p in
      let name' :=
        (take (String.length name - String.length old_suffix) name
           ++ suffix)%string in
      Some {| root := root p; parts := removelast (parts p) ++ [name'] |}.

(** [p.parent] *)
Definition path_parent (p : PurePath) : PurePath :=
  {| root := root p; parts := removelast (parts p) |}.

(** [p / s]: an absolute right-hand side replaces the left one. *)
Definition path_div (p : PurePath) (s : string) : PurePath :=
  let q := Path s in
  if String.eqb (root q) EmptyString then {| root := root p; parts := parts p ++ parts q |}
  else q.

(* ================================================================== *)
(** * JSON values and the Python operations applied to them *)
(* ================================================================== *)

(** What [json.loads] returns.  A float is [mantissa * 2^exponent]; an
    object is its list of items in insertion order, the first entry of a
    key being the live one. *)
Inductive json : Type :=
| JNull
| JBool (b : bool)
| JInt (n : Z)
| JFloat (mantissa exponent : Z)
| JStr (s : string)
| JArr (items : list json)
| JObj (fields : list (string * json)).

(** The exceptions that can escape from the script. *)
Inductive exception : Type :=
| AttributeError
| TypeError
| KeyError
| IndexError
| ValueError
| binascii_Error
| OtherError (name : string).

(** The result of a Python expression that may raise. *)
Inductive result (A : Type) : Type :=
| Ok (a : A)
| Err (e : exception).
Arguments Ok {A} a.
Arguments Err {A} e.

(** [bool(v)] *)
Definition truthy (v : json) : bool :=
  match v with
  | JNull => false
  | JBool b => b
  | JInt n => negb (n =? 0)%Z
  | JFloat m _ => negb (m =? 0)%Z
  | JStr s => negb (String.eqb s EmptyString)
  | JArr l => match l with [] => false | _ => true end
  | JObj d => match d with [] => false | _ => true end
  end.

(** [v.get(k, default)]: only a dict has the method. *)
Definition py_get (v : json) (k : string) (default : json) : result json :=
  match v with
  | JObj d => Ok (dict_get_default d k default)
  | _ => Err AttributeError
  end.

(** [v[0]] *)
Definition py_first (v : json) : result json :=
  match v with
  | JArr (x :: _) => Ok x
  | JArr [] => Err IndexError
  | JStr (String c _) => Ok (JStr (String c EmptyString))
  | JStr EmptyString => Err IndexError
  | JObj _ => Err KeyError
  | _ => Err TypeError
  end.

(** The keys of a dict, each once, in insertion order. *)
Fixpoint dict_keys {V : Type} (d : list (string * V)) : list string :=
  match d with
  | [] => []
  | (k, _) :: d' =>
      k :: filter (fun k' => negb (String.eqb k' k)) (dict_keys d')
  end.

Fixpoint chars (s : string) : list string :=
  match s with
  | EmptyString => []
  | String c s' => String c EmptyString :: chars s'
  end.

(** [for x in v]: the items a [for] loop walks. *)
Definition py_iter (v : json) : result (list json) :=
  match v with
  | JArr l => Ok l
  | JStr s => Ok (map JStr (chars s))
  | JObj d => Ok (map JStr (dict_keys d))
  | _ => Err TypeError
  end.

(** [k in s] for strings: [k] occurs in [s]. *)
Definition str_contains (k s : string) : bool :=
  match String.index 0 k s with
  | Some _ => true
  | None => false
  end.

Definition is_str (k : string) (v : json) : bool :=
  match v with
  | JStr s => String.eqb s k
  | _ => false
  end.

(** [k in v] for a string [k]. *)
Definition py_in (k : string) (v : json) : result bool :=
  match v with
  | JObj d => Ok (match dict_get d k with Some _ => true | None => false end)
  | JStr s => Ok (str_contains k s)
  | JArr l => Ok (existsb (is_str k) l)
  | _ => Err TypeError
  end.

(** [v[k]] for a string [k]. *)
Definition py_getitem (v : json) (k : string) : result json :=
  match v with
  | JObj d => match dict_get d k with
              | Some x => Ok x
              | None => Err KeyError
              end
  | _ => Err TypeError
  end.

(** [s != v] for a string [s]. *)
Definition str_ne (s : string) (v : json) : bool := negb (is_str s v).

(** Functions of Python's library that the script calls and whose
    results it only passes on. *)
Record PyLib : Type := {
  (** [base64.b64encode(b).decode("utf-8")] *)
  b64encode : bytes -> string;
  (** [base64.b64decode(s)] for a [str] argument *)
  b64decode : string -> result bytes;
  (** [json.dumps(v, indent=2)] *)
  json_dumps_indent : json -> string;
  (** [str(v)] for a value that is not a [str] *)
  py_repr : json -> string
}.

Section Library.
Variable lib : PyLib.

(** [base64.b64decode(v)]: anything but text is a [TypeError]. *)
Definition py_b64decode (v : json) : result bytes :=
  match v with
  | JStr s => b64decode lib s
  | _ => Err TypeError
  end.

(** [f"{v}"] *)
Definition py_format (v : json) : string :=
  match v with
  | JStr s => s
  | _ => py_repr lib v
  end.

End Library.

(* ================================================================== *)
(** * The process: events, outcomes, the world *)
(* ================================================================== *)

(** An HTTP request as built on lines 126-162. *)
Record request : Type := {
  req_url : string;
  req_method : string;
  req_headers : list (string * string);
  req_payload : json;
  req_timeout : Z
}.

(** What the process does that can be observed from outside, in the order
    it does it: lines printed on the two streams, the POST, the call of
    [mkdir], the call of [write_bytes], and the interpreter's report of
    an uncaught exception on the error stream. *)
Inductive event : Type :=
| Stderr (line : string)
| Stdout (line : string)
| HttpPost (req : request)
| Mkdir (path : string)
| WriteFile (path : PurePath) (data : bytes)
| Traceback (e : exception).

(** How a computation ends: with a value, with [sys.exit(status)], or with
    an exception nobody catches. *)
Inductive outcome (A : Type) : Type :=
| Done (a : A)
| Exit (status : Z)
| Raise (e : exception).
Arguments Done {A} a.
Arguments Exit {A} status.
Arguments Raise {A} e.

Definition M (A : Type) : Type := list event * outcome A.

Definition ret {A : Type} (a : A) : M A := ([], Done a).

Definition bind {A B : Type} (m : M A) (f : A -> M B) : M B :=
  match m with
  | (t, Done a) => let (t', r) := f a in (t ++ t', r)
  | (t, Exit s) => (t, Exit s)
  | (t, Raise e) => (t, Raise e)
  end.

Declare Scope proc_scope.
Delimit Scope proc_scope with proc.
Notation "x <- m ;; k" := (bind m (fun x => k))
  (at level 61, m at next level, right associativity) : proc_scope.
Notation "' p <- m ;; k" := (bind m (fun x => match x with p => k end))
  (at level 61, p pattern, m at next level, right associativity) : proc_scope.
Notation "m ;; k" := (bind m (fun _ => k))
  (at level 61, right associativity) : proc_scope.

Definition emit (e : event) : M unit := ([e], Done tt).
(** [print(line, file=sys.stderr)] and [print(line)] *)
Definition print_err (line : string) : M unit := emit (Stderr line).
Definition print_out (line : string) : M unit := emit (Stdout line).
(** [sys.exit(status)] *)
Definition sys_exit {A : Type} (status : Z) : M A := ([], Exit status).
Definition raise {A : Type} (e : exception) : M A := ([], Raise e).

(** A Python expression evaluated inside the process. *)
Definition eval {A : Type} (r : result A) : M A :=
  match r with
  | Ok a => ret a
  | Err e => raise e
  end.

Definition trace {A : Type} (m : M A) : list event := fst m.
Definition final {A : Type} (m : M A) : outcome A := snd m.

(** Lines 319-320, the script run as a program: what it has done when it
    ends, and its exit status.  An uncaught exception is reported on the
    error stream and ends the process with status 1. *)
Definition run (m : M unit) : list event * Z :=
  match final m with
  | Done _ => (trace m, 0%Z)
  | Exit status => (trace m, status)
  | Raise e => (trace m ++ [Traceback e], 1%Z)
  end.

(** What lines 164-173 can lead to: a parsed response, the two error
    classes the script handles, or any other exception (a timeout while
    reading, a body that is not UTF-8 or not JSON). *)
Inductive http_outcome : Type :=
| HttpResponse (result : json)
| HTTPError (code : Z) (error_body : string)
| URLError (reason : string)
| HttpRaises (e : exception).

(** Everything the process reads from outside. *)
Record World : Type := {
  (** [os.environ.get("GEMINI_API_KEY")] *)
  environ_GEMINI_API_KEY : option string;
  (** [Path.exists] and [Path.read_bytes], by the text of the path *)
  path_exists : string -> bool;
  read_bytes : string -> result bytes;
  (** the answer to the POST *)
  urlopen : request -> http_outcome;
  (** [int(time.time())] *)
  time_now : Z;
  (** whether [mkdir(parents=True, exist_ok=True)] and [write_bytes]
      fail, by the text of the path *)
  mkdir_error : string -> option exception;
  write_error : string -> option exception
}.

(** The command line after [argparse], lines 216-267. *)
Record Args : Type := {
  prompt : string;
  output : option string;
  aspect : string;
  size : string;
  model : string;
  key : option string;
  reference_images : option (list string)
}.

(* ================================================================== *)
(** * The script *)
(* ================================================================== *)

Definition MODELS : list (string * string) :=
  [ ("pro", "gemini-3-pro-image-preview");
    ("flash", "gemini-2.5-flash-image") ].
Definition DEFAULT_MODEL : string := "pro".

Definition ASPECT_RATIOS : list string :=
  ["1:1"; "2:3"; "3:2"; "3:4"; "4:3"; "4:5"; "5:4"; "9:16"; "16:9"; "21:9"].
Definition IMAGE_SIZES : list string := ["1K"; "2K"; "4K"].

Definition API_BASE : string :=
  "https://generativelanguage.googleapis.com/v1beta/models".

(** The literal of lines 56 and 119. *)
Definition YOUR_GEMINI_API_KEY_HERE : string := "YOUR_GEMINI_API_KEY_HERE".

(** [bool(s)] for a string, and for an optional string ([None] is false). *)
Definition nonempty (s : string) : bool := negb (String.eqb s EmptyString).

Definition given (o : option string) : bool :=
  match o with
  | Some s => nonempty s
  | None => false
  end.

(** [d[k]] on a dict with string values. *)
Definition dict_item (d : list (string * string)) (k : string) : result string :=
  match dict_get d k with
  | Some v => Ok v
  | None => Err KeyError
  end.

(** The part appended for one reference image, lines 139-144. *)
Definition inline_part (mime_type base64_data : string) : json :=
  JObj [("inlineData",
         JObj [("mimeType", JStr mime_type); ("data", JStr base64_data)])].

(** The first part, line 129. *)
Definition text_part (prompt : string) : json := JObj [("text", JStr prompt)].

(** The payload of lines 148-157. *)
Definition build_payload (parts : list json) (aspect_ratio image_size : string)
    : json :=
  JObj [("contents", JArr [JObj [("parts", JArr parts)]]);
        ("generationConfig",
         JObj [("responseModalities", JArr [JStr "TEXT"; JStr "IMAGE"]);
               ("imageConfig",
                JObj [("aspectRatio", JStr aspect_ratio);
                      ("imageSize", JStr image_size)])])].

Section Script.
Variable lib : PyLib.
Variable w : World.

Local Open Scope proc_scope.

(** [get_api_key], lines 41-56. *)
Definition get_api_key : string :=
  match environ_GEMINI_API_KEY w with
  | Some env_key => if nonempty env_key then env_key else YOUR_GEMINI_API_KEY_HERE
  | None => YOUR_GEMINI_API_KEY_HERE
  end.

(** [load_image_as_base64], lines 80-92. *)
Definition load_image_as_base64 (image_path : string) : M (string * string) :=
  let path := Path image_path in
  (if negb (path_exists w (path_str path)) then
     print_err ("Error: Reference image not found: " ++ image_path) ;;
     sys_exit 1
   else ret tt) ;;
  image_bytes <- eval (read_bytes w (path_str path)) ;;
  let mime_type := fst (detect_image_format image_bytes) in
  let base64_data := b64encode lib image_bytes in
  ret (base64_data, mime_type).

(** The loop of lines 137-145: [parts] grows by one entry per image. *)
Fixpoint add_reference_images (reference_images : list string)
    (parts : list json) : M (list json) :=
  match reference_images with
  | [] => ret parts
  | img_path :: rest =>
      ' (base64_data, mime_type) <- load_image_as_base64 img_path ;;
      let parts := parts ++ [inline_part mime_type base64_data] in
      print_err ("Added reference image: " ++ img_path) ;;
      add_reference_images rest parts
  end.

(** Lines 132-135: the guard on the list and its truncation. *)
Definition limit_reference_images (reference_images : list string)
    : M (list string) :=
  if (14 <? length reference_images)%nat then
    print_err "Warning: Maximum 14 reference images supported, using first 14" ;;
    ret (firstn 14 reference_images)
  else ret reference_images.

(** Lines 165-173: what becomes of the answer to the POST. *)
Definition receive (answer : http_outcome) : M json :=
  match answer with
  | HttpResponse result => ret result
  | HTTPError code error_body =>
      print_err ("API Error (" ++ str_of_int code ++ "): " ++ error_body) ;;
      sys_exit 1
  | URLError reason =>
      print_err ("Network Error: " ++ reason) ;;
      sys_exit 1
  | HttpRaises e => raise e
  end.

(** Lines 160-173: the POST and the two handled failures. *)
Definition post (req : request) : M json :=
  emit (HttpPost req) ;;
  receive (urlopen w req).

(** The loop of lines 184-193; [None] when it runs to its end without
    returning. *)
Fixpoint find_image (parts : list json) : M (option (bytes * string)) :=
  match parts with
  | [] => ret None
  | part :: rest =>
      has <- eval (py_in "inlineData" part) ;;
      if has : bool then
        inline_data <- eval (py_getitem part "inlineData") ;;
        data <- eval (py_getitem inline_data "data") ;;
        image_bytes <- eval (py_b64decode lib data) ;;
        let actual_mime := fst (detect_image_format image_bytes) in
        reported_mime <- eval (py_get inline_data "mimeType" (JStr "image/png")) ;;
        (if str_ne actual_mime reported_mime then
           print_err ("Note: API reported " ++ py_format lib reported_mime
                      ++ ", actual format is " ++ actual_mime)
         else ret tt) ;;
        ret (Some (image_bytes, actual_mime))
      else find_image rest
  end.

(** The loop of lines 196-198. *)
Fixpoint report_text (parts : list json) : M unit :=
  match parts with
  | [] => ret tt
  | part :: rest =>
      has <- eval (py_in "text" part) ;;
      (if has : bool then
         text <- eval (py_getitem part "text") ;;
         print_err ("Model response (no image): " ++ py_format lib text)
       else ret tt) ;;
      report_text rest
  end.

(** Lines 116-124: the key that is used, or the configuration error. *)
Definition require_api_key (api_key : option string) : M string :=
  let api_key :=
    match api_key with
    | Some k => if nonempty k then k else get_api_key
    | None => get_api_key
    end in
  (if String.eqb api_key YOUR_GEMINI_API_KEY_HERE || negb (nonempty api_key) then
     print_err "Error: Gemini API key not found." ;;
     print_err "Please set the GEMINI_API_KEY environment variable:" ;;
     print_err "  export GEMINI_API_KEY=your_key_here" ;;
     print_err (String "010" "Or edit scripts/generate_image.py and replace YOUR_GEMINI_API_KEY_HERE (not recommended).") ;;
     sys_exit 1
   else ret tt) ;;
  ret api_key.

(** Lines 128-145: the text prompt first, then the reference images. *)
Definition request_parts (prompt : string)
    (reference_images : option (list string)) : M (list json) :=
  let parts := [text_part prompt] in
  match reference_images with
  | Some ((_ :: _) as reference_images) =>
      reference_images <- limit_reference_images reference_images ;;
      add_reference_images reference_images parts
  | _ => ret parts
  end.

(** Lines 126 and 147-162: the request that is sent. *)
Definition build_request (model_id api_key : string) (parts : list json)
    (aspect_ratio image_size : string) : request :=
  {| req_url := API_BASE ++ "/" ++ model_id ++ ":generateContent?key=" ++ api_key;
     req_method := "POST";
     req_headers := [("Content-Type", "application/json")];
     req_payload := build_payload parts aspect_ratio image_size;
     req_timeout := 180 |}.

(** Lines 175-201: from the parsed response to the image. *)
Definition extract_image (result : json) : M (bytes * string) :=
  candidates <- eval (py_get result "candidates" (JArr [])) ;;
  (if negb (truthy candidates) then
     print_err "Error: No candidates in response" ;;
     print_err ("Response: " ++ json_dumps_indent lib result) ;;
     sys_exit 1
   else ret tt) ;;
  first <- eval (py_first candidates) ;;
  content <- eval (py_get first "content" (JObj [])) ;;
  parts <- eval (py_get content "parts" (JArr [])) ;;
  parts <- eval (py_iter parts) ;;
  found <- find_image parts ;;
  match found with
  | Some image => ret image
  | None =>
      report_text parts ;;
      print_err "Error: No image data in response" ;;
      sys_exit 1
  end.

(** Lines 165-201, what follows the POST: the answer is received and the
    image taken out of it. *)
Definition after_post (req : request) : M (bytes * string) :=
  result <- receive (urlopen w req) ;;
  extract_image result.

(** [generate_image], lines 95-201. *)
Definition generate_image (prompt aspect_ratio image_size : string)
    (reference_images : option (list string)) (model_id : string)
    (api_key : option string) : M (bytes * string) :=
  api_key <- require_api_key api_key ;;
  parts <- request_parts prompt reference_images ;;
  result <- post (build_request model_id api_key parts aspect_ratio image_size) ;;
  extract_image result.

(** Lines 288-298: the destination before its extension is set. *)
Definition destination (args : Args) : PurePath :=
  match output args with
  | Some o =>
      if nonempty o then Path o
      else path_div (Path "generated") (auto_filename (prompt args) (time_now w))
  | None => path_div (Path "generated") (auto_filename (prompt args) (time_now w))
  end.

(** [args.output != str(output_path)] *)
Definition differs (requested : option string) (final_path : string) : bool :=
  match requested with
  | Some o => negb (String.eqb o final_path)
  | None => true
  end.

(** Lines 272-276: what is announced before the request. *)
Definition announce (args : Args) (model_id : string) : M unit :=
  print_err ("Generating image with " ++ model_id ++ "...") ;;
  print_err ("Prompt: " ++ prompt args) ;;
  print_err ("Aspect: " ++ aspect args ++ ", Size: " ++ size args
             ++ ", Model: " ++ model args) ;;
  match reference_images args with
  | Some ((_ :: _) as l) => print_err ("Reference images: " ++ str_of_len (length l))
  | _ => ret tt
  end.

(** Lines 287-316: from the image to the file. *)
Definition save_image (args : Args) (image_bytes : bytes) (mime_type : string)
    : M unit :=
  let output_path := destination args in
  let correct_ext := get_extension mime_type in
  output_path <- match with_suffix output_path correct_ext with
                 | Some p => ret p
                 | None => raise ValueError
                 end ;;
  (if differs (output args) (path_str output_path) then
     print_err ("Note: Using " ++ correct_ext ++ " extension (actual format: "
                ++ mime_type ++ ")")
   else ret tt) ;;
  emit (Mkdir (path_str (path_parent output_path))) ;;
  match mkdir_error w (path_str (path_parent output_path)) with
  | Some e => raise e
  | None => ret tt
  end ;;
  emit (WriteFile output_path image_bytes) ;;
  match write_error w (path_str output_path) with
  | Some e => raise e
  | None => ret tt
  end ;;
  print_err ("Image saved: " ++ path_str output_path) ;;
  print_out (path_str output_path).

(** [main], lines 215-316, from the return of [parse_args] on line 267:
    [args] is the namespace it returned.  What [argparse] does by itself
    with a command line it refuses (usage on the error stream, status 2)
    or with [--help] (help on standard output, status 0) ends the process
    before line 270 and is not part of [main] below; [parsed] states what
    a namespace that was returned satisfies. *)
Definition main (args : Args) : M unit :=
  model_id <- eval (dict_item MODELS (model args)) ;;
  announce args model_id ;;
  ' (image_bytes, mime_type) <-
      generate_image (prompt args) (aspect args) (size args)
                     (reference_images args) model_id (key args) ;;
  save_image args image_bytes mime_type.

(** [python generate_image.py ...], for a command line that [parse_args]
    turns into [args]. *)
Definition script (args : Args) : list event * Z := run (main args).

End Script.

(* ================================================================== *)
(** * Vocabulary of the specification *)
(* ================================================================== *)

(** [starts_with sig b]: the buffer begins with the bytes of [sig]. *)
Definition starts_with (sig b : bytes) : Prop := exists rest, b = sig ++ rest.

(** [has_at n sig b]: the bytes of [sig] sit at offset [n] of the buffer. *)
Definition has_at (n : nat) (sig b : bytes) : Prop :=
  exists pre rest, b = pre ++ sig ++ rest /\ length pre = n.

(** What [argparse] lets through: the three options with [choices]. *)
Definition parsed (args : Args) : Prop :=
  In (aspect args) ASPECT_RATIOS /\
  In (size args) IMAGE_SIZES /\
  In (model args) ["pro"; "flash"].

(** A path as [Path] builds them: one of the three roots, and components
    that are not empty, not [.], and free of slashes. *)
Definition well_formed_path (p : PurePath) : Prop :=
  (root p = EmptyString \/ root p = "/" \/ root p = "//") /\
  Forall (fun x => has_slash x = false /\ kept_component x = true) (parts p).

(** The note of line 306. *)
Definition extension_note (correct_ext mime_type : string) : event :=
  Stderr ("Note: Using " ++ correct_ext ++ " extension (actual format: "
          ++ mime_type ++ ")").

(** A file extension as the script uses them: a dot, then at least one
    character, none of which is a dot or a slash. *)
Definition is_extension (ext : string) : Prop :=
  exists e, ext = String "."%char e /\ e <> EmptyString /\
            rfind_dot e = None /\ has_slash e = false.

(** The four MIME types the script knows. *)
Definition supported_mime (m : string) : Prop :=
  m = "image/png" \/ m = "image/jpeg" \/ m = "image/webp" \/ m = "image/gif".

(** Kinds of events. *)
Definition is_stderr (e : event) : Prop :=
  match e with Stderr _ => True | _ => False end.
(** A line on the error stream other than the note about the extension
    (line 306). *)
Definition is_diagnostic (e : event) : Prop :=
  match e with
  | Stderr line => String.prefix "Note: Using " line = false
  | _ => False
  end.
Definition is_post (e : event) : Prop :=
  match e with HttpPost _ => True | _ => False end.
Definition is_write (e : event) : Prop :=
  match e with WriteFile _ _ => True | _ => False end.
Definition is_stdout (e : event) : Prop :=
  match e with Stdout _ => True | _ => False end.

(** An error report on the error stream: a line that starts with
    [Error:], or the interpreter's traceback. *)
Definition is_error_report (e : event) : Prop :=
  match e with
  | Stderr line => String.prefix "Error: " line = true
  | Traceback _ => True
  | _ => False
  end.

(** A computation that ends otherwise than by returning. *)
Definition stops {A : Type} (m : M A) : Prop :=
  final m = Exit 1 \/ exists e, final m = Raise e.

(** The resolution order of the API key in the words of the
    specification: the explicit argument, then the environment variable,
    then the placeholder. *)
Definition resolved_key (explicit env : option string) : string :=
  match explicit with
  | Some k => if nonempty k then k else
      match env with
      | Some e => if nonempty e then e else YOUR_GEMINI_API_KEY_HERE
      | None => YOUR_GEMINI_API_KEY_HERE
      end
  | None =>
      match env with
      | Some e => if nonempty e then e else YOUR_GEMINI_API_KEY_HERE
      | None => YOUR_GEMINI_API_KEY_HERE
      end
  end.

(** The four lines of the configuration error. *)
Definition configuration_error : list event :=
  [ Stderr "Error: Gemini API key not found.";
    Stderr "Please set the GEMINI_API_KEY environment variable:";
    Stderr "  export GEMINI_API_KEY=your_key_here";
    Stderr (String "010" "Or edit scripts/generate_image.py and replace YOUR_GEMINI_API_KEY_HERE (not recommended).") ].

Definition truncation_warning : event :=
  Stderr "Warning: Maximum 14 reference images supported, using first 14".

(** The note of line 192 and the two lines of lines 178-179. *)
Definition mime_note (lib : PyLib) (reported_mime : json)
    (actual_mime : string) : event :=
  Stderr ("Note: API reported " ++ py_format lib reported_mime
          ++ ", actual format is " ++ actual_mime).

Definition no_candidates_error (lib : PyLib) (result : json) : list event :=
  [ Stderr "Error: No candidates in response";
    Stderr ("Response: " ++ json_dumps_indent lib result) ].

(** A reference image that can be loaded: it exists and can be read. *)
Definition loadable (w : World) (image_path : string) : Prop :=
  path_exists w (path_str (Path image_path)) = true /\
  exists b, read_bytes w (path_str (Path image_path)) = Ok b.

Definition missing (w : World) (image_path : string) : Prop :=
  path_exists w (path_str (Path image_path)) = false.

(** The content of a reference image, and the request part made of it. *)
Definition file_bytes (w : World) (image_path : string) : bytes :=
  match read_bytes w (path_str (Path image_path)) with
  | Ok b => b
  | Err _ => []
  end.

Definition reference_part (lib : PyLib) (w : World) (image_path : string) : json :=
  inline_part (fst (detect_image_format (file_bytes w image_path)))
              (b64encode lib (file_bytes w image_path)).

Definition added_line (image_path : string) : event :=
  Stderr ("Added reference image: " ++ image_path).

(** The list a [--ref] option leaves behind: [None] when never given. *)
Definition requested (reference_images : option (list string)) : list string :=
  match reference_images with
  | Some l => l
  | None => []
  end.

(** The slug in the words of the specification, each step written on the
    list of characters: lowercase, keep word characters, white space and
    hyphens, trim white space at both ends, put one hyphen for every run
    of hyphens and white space, keep 50 characters, fall back to
    [untitled]. *)
Definition keep_char (c : ascii) : bool := is_word c || isspace c || is_hyphen c.

Fixpoint drop_spaces (l : list ascii) : list ascii :=
  match l with
  | c :: l' => if isspace c then drop_spaces l' else l
  | [] => []
  end.

Definition trim (l : list ascii) : list ascii :=
  rev (drop_spaces (rev (drop_spaces l))).

(** One hyphen for each run: a hyphen or space is kept, as a hyphen, only
    when it is the first of its run. *)
Fixpoint collapse (prev : option ascii) (l : list ascii) : list ascii :=
  match l with
  | [] => []
  | c :: l' =>
      if hyphen_or_space c then
        match prev with
        | Some p => if hyphen_or_space p then collapse (Some c) l'
                    else "-"%char :: collapse (Some c) l'
        | None => "-"%char :: collapse (Some c) l'
        end
      else c :: collapse (Some c) l'
  end.

(** The flag of [re_sub_runs_from] says whether the previous character
    was a hyphen or a space. *)
Definition in_run_after (prev : option ascii) : bool :=
  match prev with
  | Some p => hyphen_or_space p
  | None => false
  end.

Definition slug_described (prompt : string) : string :=
  let l := list_ascii_of_string prompt in
  let l := map lower_char l in
  let l := filter keep_char l in
  let l := trim l in
  let l := collapse None l in
  let l := firstn 50 l in
  match l with
  | [] => "untitled"
  | _ => string_of_list_ascii l
  end.




(* ================================================================== *)
(** * Sample library and worlds *)
(* ================================================================== *)

(** Base64 with the standard alphabet and padding, on the numbers of the
    bytes.  The decoder accepts canonical text only. *)
Definition b64_alphabet : string :=
  "ABCDEFGHIJKLMNOPQRSTUVWXYZabcdefghijklmnopqrstuvwxyz0123456789+/".

Definition b64_char (n : nat) : ascii :=
  match String.get n b64_alphabet with
  | Some c => c
  | None => "="%char
  end.

Fixpoint b64_sextets (l : list nat) : list nat :=
  match l with
  | x :: y :: z :: r =>
      x / 4 :: (x mod 4) * 16 + y / 16 :: (y mod 16) * 4 + z / 64
        :: z mod 64 :: b64_sextets r
  | [x; y] => [x / 4; (x mod 4) * 16 + y / 16; (y mod 16) * 4; 64]
  | [x] => [x / 4; (x mod 4) * 16; 64; 64]
  | [] => []
  end.

Definition sample_b64encode (b : bytes) : string :=
  string_of_list_ascii (map b64_char (b64_sextets (map Byte.to_nat b))).

Fixpoint b64_index_from (i : nat) (alphabet : string) (c : ascii) : option nat :=
  match alphabet with
  | EmptyString => None
  | String a rest =>
      if Ascii.eqb a c then Some i else b64_index_from (S i) rest c
  end.

Fixpoint b64_octets (l : list (option nat)) : option (list nat) :=
  match l with
  | [] => Some []
  | [Some a; Some b; None; None] => Some [a * 4 + b / 16]
  | [Some a; Some b; Some c; None] =>
      Some [a * 4 + b / 16; (b mod 16) * 16 + c / 4]
  | Some a :: Some b :: Some c :: Some d :: r =>
      match b64_octets r with
      | Some o =>
          Some (a * 4 + b / 16 :: (b mod 16) * 16 + c / 4
                  :: (c mod 4) * 64 + d :: o)
      | None => None
      end
  | _ => None
  end.

Definition byte_of_nat (n : nat) : byte :=
  match Byte.of_nat n with
  | Some b => b
  | None => x00
  end.

Definition sample_b64decode (s : string) : result bytes :=
  match b64_octets (map (b64_index_from 0 b64_alphabet)
                        (list_ascii_of_string s)) with
  | Some o => Ok (map byte_of_nat o)
  | None => Err binascii_Error
  end.

(** A library to run the script on examples.  The two printers are
    stand-ins: the examples do not depend on how a value is printed. *)
Definition sample_lib : PyLib :=
  {| b64encode := sample_b64encode;
     b64decode := sample_b64decode;
     json_dumps_indent := fun _ => "{...}";
     py_repr := fun _ => "..." |}.

(** A response in the documented shape: one candidate whose content has
    the given parts. *)
Definition response_with (parts : list json) : json :=
  JObj [("candidates", JArr [JObj [("content", JObj [("parts", JArr parts)])]])].

(** A GIF and a PNG, by their first bytes. *)
Definition gif_bytes : bytes := b_lit "GIF89a" ++ [x01; x00; x01; x00].
Definition png_bytes : bytes := PNG_SIGNATURE ++ [x00; x00; x00; x0d].

(** A world with a key in the environment and the files [ref1.png] ..
    present; the API answers with a text part and then an image the API
    calls a PNG although its bytes are a GIF. *)
Definition sample_world : World :=
  {| environ_GEMINI_API_KEY := Some "secret";
     path_exists := fun p => negb (String.eqb p "missing.png");
     read_bytes := fun _ => Ok png_bytes;
     urlopen := fun _ =>
       HttpResponse
         (response_with [text_part "Here it is";
                         inline_part "image/png" (sample_b64encode gif_bytes)]);
     time_now := 1730000000;
     mkdir_error := fun _ => None;
     write_error := fun _ => None |}.

(** The same world with an API that answers with a true PNG. *)
Definition png_world : World :=
  {| environ_GEMINI_API_KEY := Some "secret";
     path_exists := fun p => negb (String.eqb p "missing.png");
     read_bytes := fun _ => Ok png_bytes;
     urlopen := fun _ =>
       HttpResponse
         (response_with [inline_part "image/png" (sample_b64encode png_bytes)]);
     time_now := 1730000000;
     mkdir_error := fun _ => None;
     write_error := fun _ => None |}.

(** The same world with an API that answers without candidates. *)
Definition empty_world : World :=
  {| environ_GEMINI_API_KEY := Some "secret";
     path_exists := fun p => negb (String.eqb p "missing.png");
     read_bytes := fun _ => Ok png_bytes;
     urlopen := fun _ => HttpResponse (JObj [("promptFeedback", JObj [])]);
     time_now := 1730000000;
     mkdir_error := fun _ => None;
     write_error := fun _ => None |}.

(** A world without a key. *)
Definition keyless_world : World :=
  {| environ_GEMINI_API_KEY := None;
     path_exists := fun _ => true;
     read_bytes := fun _ => Ok png_bytes;
     urlopen := fun _ => URLError "unreachable";
     time_now := 1730000000;
     mkdir_error := fun _ => None;
     write_error := fun _ => None |}.

(** [generate_image.py "A cute robot!" --output ./robot.png] *)
Definition sample_args : Args :=
  {| prompt := "A cute robot!";
     output := Some "./robot.png";
     aspect := "1:1";
     size := "2K";
     model := DEFAULT_MODEL;
     key := None;
     reference_images := None |}.

Definition with_output (o : option string) (a : Args) : Args :=
  {| prompt := prompt a; output := o; aspect := aspect a; size := size a;
     model := model a; key := key a;
     reference_images := reference_images a |}.

Definition with_references (l : list string) (a : Args) : Args :=
  {| prompt := prompt a; output := output a; aspect := aspect a;
     size := size a; model := model a; key := key a;
     reference_images := Some l |}.

(** Fifteen reference images, the last of which does not exist. *)
Definition fifteen_references : list string :=
  map (fun n => ("ref" ++ str_of_len n ++ ".png")%string) (seq 1 14)
    ++ ["missing.png"].

(** The sample world with another answer to the POST. *)
Definition answering (answer : http_outcome) : World :=
  {| environ_GEMINI_API_KEY := Some "secret";
     path_exists := fun p => negb (String.eqb p "missing.png");
     read_bytes := fun _ => Ok png_bytes;
     urlopen := fun _ => answer;
     time_now := 1730000000;
     mkdir_error := fun _ => None;
     write_error := fun _ => None |}.


(** The request of the sample command line in the sample worlds. *)
Definition sample_request : request :=
  build_request "gemini-3-pro-image-preview" "secret"
                [text_part "A cute robot!"] "1:1" "2K".

(* ================================================================== *)
(** * Vocabulary of the further properties *)
(* ================================================================== *)

(** A computation that returns, or stops with status 1 or an exception. *)
Definition returns_or_stops {A : Type} (m : M A) : Prop :=
  (exists a, final m = Done a) \/ stops m.

(** What a run has done before it saves: diagnostics and, at most once,
    the POST. *)
Inductive before_saving : list event -> Prop :=
| bs_quiet (t : list event) :
    Forall is_diagnostic t -> before_saving t
| bs_posted (t t' : list event) (req : request) :
    Forall is_diagnostic t -> Forall is_diagnostic t' ->
    before_saving (t ++ HttpPost req :: t').

(** The two lines that end a successful run (lines 314-316). *)
Definition saved_lines (p : PurePath) : list event :=
  [ Stderr ("Image saved: " ++ path_str p); Stdout (path_str p) ].



(** The first lines of a run, lines 272-276. *)
Definition announcement (args : Args) (model_id : string) : list event :=
  [ Stderr ("Generating image with " ++ model_id ++ "...");
    Stderr ("Prompt: " ++ prompt args);
    Stderr ("Aspect: " ++ aspect args ++ ", Size: " ++ size args
            ++ ", Model: " ++ model args) ]
  ++ match requested (reference_images args) with
     | [] => []
     | l => [Stderr ("Reference images: " ++ str_of_len (length l))]
     end.

(** A part of the response that is an object without inline data. *)
Definition plain_part (part : json) : Prop :=
  exists fields, part = JObj fields /\ dict_get fields "inlineData" = None.

(** The lines that report the text parts of a response (line 198), in
    the order of the parts. *)
Definition text_report (lib : PyLib) (part : json) : list event :=
  match part with
  | JObj fields =>
      match dict_get fields "text" with
      | Some text =>
          [Stderr ("Model response (no image): " ++ py_format lib text)]
      | None => []
      end
  | _ => []
  end.

Definition text_reports (lib : PyLib) (parts : list json) : list event :=
  flat_map (text_report lib) parts.

(** No two neighbours of a list of characters are both hyphens or white
    space; [after_run] tells that the character before the list is one. *)
Fixpoint runs_collapsed (after_run : bool) (l : list ascii) : bool :=
  match l with
  | [] => true
  | c :: l' =>
      if hyphen_or_space c then negb after_run && runs_collapsed true l'
      else runs_collapsed false l'
  end.

(** A character a slug is made of: a hyphen, or a word character that
    lowercasing leaves alone. *)
Definition slug_char (c : ascii) : bool :=
  is_hyphen c || (is_word c && Ascii.eqb (lower_char c) c).

(* ================================================================== *)
(** * The format sniffer *)
(* ================================================================== *)

Section Sniffer.

Lemma bytes_eqb_refl (a : bytes) : bytes_eqb a a = true.
Proof.
  induction a as [|x a IH]; simpl; [reflexivity|].
  rewrite IH, andb_true_r. apply Byte.byte_dec_lb. reflexivity.
Qed.

Lemma bytes_eqb_eq (a b : bytes) : bytes_eqb a b = true <-> a = b.
Proof.
  split.
  - revert b. induction a as [|x a IH]; intros [|y b] H; simpl in H;
      try discriminate; [reflexivity|].
    apply andb_true_iff in H. destruct H as [Hxy Hab].
    apply Byte.byte_dec_bl in Hxy. f_equal; auto.
  - intros ->. apply bytes_eqb_refl.
Qed.

Lemma slice_prefix (sig rest : bytes) :
  slice 0 (length sig) (sig ++ rest) = sig.
Proof.
  unfold slice. rewrite Nat.sub_0_r. simpl.
  rewrite firstn_app, Nat.sub_diag, firstn_all. simpl. apply app_nil_r.
Qed.

Lemma slice_starts_with (n : nat) (sig b : bytes) :
  length sig = n -> starts_with sig b -> slice 0 n b = sig.
Proof. intros <- [rest ->]. apply slice_prefix. Qed.

Lemma slice_is_prefix (n : nat) (sig b : bytes) :
  length sig = n -> slice 0 n b = sig -> starts_with sig b.
Proof.
  intros Hn Hs. exists (skipn n b). rewrite <- Hs. unfold slice.
  rewrite Nat.sub_0_r. simpl. symmetry. apply firstn_skipn.
Qed.

Lemma slice_has_at (n : nat) (sig b : bytes) :
  has_at n sig b -> slice n (n + length sig) b = sig.
Proof.
  intros (pre & rest & -> & Hn). unfold slice.
  replace (n + length sig - n) with (length sig) by lia.
  rewrite skipn_app, <- Hn, skipn_all, Nat.sub_diag. simpl.
  rewrite firstn_app, Nat.sub_diag, firstn_all. simpl. apply app_nil_r.
Qed.

Lemma slice_is_at (n : nat) (sig b : bytes) :
  sig <> [] -> slice n (n + length sig) b = sig -> has_at n sig b.
Proof.
  intros Hne Hs. unfold slice in Hs.
  replace (n + length sig - n) with (length sig) in Hs by lia.
  exists (firstn n b), (skipn (length sig) (skipn n b)). split.
  - rewrite <- Hs at 1. rewrite firstn_skipn. symmetry. apply firstn_skipn.
  - apply firstn_length_le.
    destruct (Nat.le_gt_cases n (length b)) as [H|H]; [exact H|].
    rewrite skipn_all2 in Hs by lia. rewrite firstn_nil in Hs. congruence.
Qed.

(** The first byte of a buffer decides which signature can still match. *)
Lemma starts_with_head (x y : byte) (sig sig' b : bytes) :
  starts_with (x :: sig) b -> starts_with (y :: sig') b -> x = y.
Proof. intros [r ->] [r' H]. simpl in H. congruence. Qed.

Lemma starts_with_length (sig b : bytes) :
  starts_with sig b -> length sig <= length b.
Proof. intros [rest ->]. rewrite length_app. lia. Qed.

(** Each test of the chain, read as a statement about the buffer. *)
Lemma prefix_test (n : nat) (sig b : bytes) :
  length sig = n ->
  bytes_eqb (slice 0 n b) sig = true <-> starts_with sig b.
Proof.
  intros Hn. rewrite bytes_eqb_eq. split.
  - now apply slice_is_prefix.
  - now apply slice_starts_with.
Qed.

Lemma webp_test (b : bytes) :
  bytes_eqb (slice 8 12 b) (b_lit "WEBP") = true <-> has_at 8 (b_lit "WEBP") b.
Proof.
  rewrite bytes_eqb_eq. split.
  - intros H. apply slice_is_at; [discriminate | exact H].
  - intros H. apply (slice_has_at 8 _ b H).
Qed.

Lemma prefix_test_false (n : nat) (sig b : bytes) :
  length sig = n ->
  bytes_eqb (slice 0 n b) sig = false <-> ~ starts_with sig b.
Proof.
  intros Hn. rewrite <- (prefix_test n sig b Hn).
  destruct (bytes_eqb (slice 0 n b) sig); split; intros H;
    congruence || (exfalso; now apply H).
Qed.

(** Signatures that begin with different bytes exclude each other. *)
Lemma starts_with_excludes (x y : byte) (sig sig' b : bytes) :
  x <> y -> starts_with (x :: sig) b -> ~ starts_with (y :: sig') b.
Proof. intros Hxy H1 H2. apply Hxy. eapply starts_with_head; eassumption. Qed.

Ltac clash H1 H2 :=
  exfalso; pose proof (starts_with_head _ _ _ _ _ H1 H2) as E; discriminate E.

Lemma detect_png (b : bytes) :
  starts_with PNG_SIGNATURE b -> detect_image_format b = ("image/png", ".png").
Proof.
  intros H. unfold detect_image_format.
  apply (prefix_test 8 (PNG_SIGNATURE) b eq_refl) in H. now rewrite H.
Qed.

Lemma detect_jpeg (b : bytes) :
  starts_with JPEG_SIGNATURE b -> detect_image_format b = ("image/jpeg", ".jpg").
Proof.
  intros H. unfold detect_image_format.
  assert (Hpng : ~ starts_with PNG_SIGNATURE b).
  { intros Hp. clash Hp H. }
  apply (prefix_test_false 8 (PNG_SIGNATURE) b eq_refl) in Hpng.
  apply (prefix_test 2 (JPEG_SIGNATURE) b eq_refl) in H.
  now rewrite Hpng, H.
Qed.

Lemma detect_webp (b : bytes) :
  starts_with (b_lit "RIFF") b -> has_at 8 (b_lit "WEBP") b ->
  detect_image_format b = ("image/webp", ".webp").
Proof.
  intros H Hw. unfold detect_image_format.
  assert (Hpng : ~ starts_with PNG_SIGNATURE b).
  { intros Hp. clash Hp H. }
  assert (Hjpg : ~ starts_with JPEG_SIGNATURE b).
  { intros Hp. clash Hp H. }
  apply (prefix_test_false 8 (PNG_SIGNATURE) b eq_refl) in Hpng.
  apply (prefix_test_false 2 (JPEG_SIGNATURE) b eq_refl) in Hjpg.
  apply (prefix_test 4 (b_lit "RIFF") b eq_refl) in H.
  apply webp_test in Hw.
  now rewrite Hpng, Hjpg, H, Hw.
Qed.

Lemma detect_gif (b : bytes) :
  starts_with (b_lit "GIF87a") b \/ starts_with (b_lit "GIF89a") b ->
  detect_image_format b = ("image/gif", ".gif").
Proof.
  intros H. unfold detect_image_format.
  assert (Hg : exists sig, starts_with ("G"%byte :: sig) b).
  { destruct H as [H|H]; eexists; exact H. }
  destruct Hg as [sig Hg].
  assert (Hpng : ~ starts_with PNG_SIGNATURE b).
  { intros Hp. clash Hp Hg. }
  assert (Hjpg : ~ starts_with JPEG_SIGNATURE b).
  { intros Hp. clash Hp Hg. }
  assert (Hriff : ~ starts_with (b_lit "RIFF") b).
  { intros Hp. clash Hp Hg. }
  apply (prefix_test_false 8 (PNG_SIGNATURE) b eq_refl) in Hpng.
  apply (prefix_test_false 2 (JPEG_SIGNATURE) b eq_refl) in Hjpg.
  apply (prefix_test_false 4 (b_lit "RIFF") b eq_refl) in Hriff.
  rewrite Hpng, Hjpg, Hriff. simpl andb. cbv iota.
  replace (existsb _ _) with true; [reflexivity|].
  symmetry. simpl existsb.
  destruct H as [H|H].
  - apply (prefix_test 6 (b_lit "GIF87a") b eq_refl) in H. now rewrite H.
  - apply (prefix_test 6 (b_lit "GIF89a") b eq_refl) in H. rewrite H.
    apply orb_true_r.
Qed.

Lemma detect_default (b : bytes) :
  ~ starts_with PNG_SIGNATURE b ->
  ~ starts_with JPEG_SIGNATURE b ->
  ~ (starts_with (b_lit "RIFF") b /\ has_at 8 (b_lit "WEBP") b) ->
  ~ (starts_with (b_lit "GIF87a") b \/ starts_with (b_lit "GIF89a") b) ->
  detect_image_format b = ("image/png", ".png").
Proof.
  intros Hpng Hjpg Hwebp Hgif. unfold detect_image_format.
  apply (prefix_test_false 8 (PNG_SIGNATURE) b eq_refl) in Hpng.
  apply (prefix_test_false 2 (JPEG_SIGNATURE) b eq_refl) in Hjpg.
  rewrite Hpng, Hjpg.
  destruct (bytes_eqb (slice 0 4 b) (b_lit "RIFF")) eqn:Hr;
    [destruct (bytes_eqb (slice 8 12 b) (b_lit "WEBP")) eqn:Hw|].
  - exfalso. apply Hwebp. split.
    + now apply (prefix_test 4 (b_lit "RIFF") b eq_refl).
    + now apply webp_test.
  - simpl andb. cbv iota.
    destruct (existsb _ _) eqn:He; [|reflexivity].
    exfalso. apply Hgif. simpl existsb in He.
    rewrite orb_false_r in He. apply orb_true_iff in He.
    destruct He as [He|He]; [left|right].
    + now apply (prefix_test 6 (b_lit "GIF87a") b eq_refl) in He.
    + now apply (prefix_test 6 (b_lit "GIF89a") b eq_refl) in He.
  - simpl andb. cbv iota.
    destruct (existsb _ _) eqn:He; [|reflexivity].
    exfalso. apply Hgif. simpl existsb in He.
    rewrite orb_false_r in He. apply orb_true_iff in He.
    destruct He as [He|He]; [left|right].
    + now apply (prefix_test 6 (b_lit "GIF87a") b eq_refl) in He.
    + now apply (prefix_test 6 (b_lit "GIF89a") b eq_refl) in He.
Qed.

(** The sniffer answers with one of four pairs, whatever the buffer. *)
Lemma detect_image_format_range (b : bytes) :
  In (detect_image_format b)
     [("image/png", ".png"); ("image/jpeg", ".jpg");
      ("image/webp", ".webp"); ("image/gif", ".gif")].
Proof.
  unfold detect_image_format.
  repeat match goal with
         | |- context [if ?c then _ else _] => destruct c
         end; simpl; auto.
Qed.

(** The extension the sniffer gives is the one [get_extension] gives for
    the sniffed MIME type. *)
Lemma get_extension_detect (b : bytes) :
  get_extension (fst (detect_image_format b)) = snd (detect_image_format b).
Proof.
  pose proof (detect_image_format_range b) as H. simpl in H.
  repeat destruct H as [H|H]; try contradiction; rewrite <- H; reflexivity.
Qed.

Lemma get_extension_default (m : string) :
  ~ supported_mime m -> get_extension m = ".png".
Proof.
  intros H. unfold get_extension, dict_get_default, extensions.
  cbn [dict_get].
  repeat match goal with
         | |- context [String.eqb ?a m] =>
             let E := fresh "E" in
             destruct (String.eqb_spec a m) as [E|E];
             [exfalso; apply H; unfold supported_mime; rewrite <- E; auto 10|]
         end.
  reflexivity.
Qed.

(** C2. For every byte buffer, [detect_image_format] returns
    [("image/png", ".png")] when the buffer starts with the 8-byte PNG
    signature, [("image/jpeg", ".jpg")] when it starts with FF D8,
    [("image/webp", ".webp")] when it starts with RIFF and has WEBP at
    offset 8, [("image/gif", ".gif")] when its first six bytes are GIF87a
    or GIF89a, and the PNG pair for every other buffer; among them are
    the buffers too short to hold a signature, such as every buffer of
    fewer than six bytes that does not start with FF D8.  It is a total
    function of the buffer alone: a result exists for every buffer, so no
    error is raised and nothing else happens. *)
Theorem detect_image_format_spec (b : bytes) :
  (starts_with PNG_SIGNATURE b ->
     detect_image_format b = ("image/png", ".png")) /\
  (starts_with JPEG_SIGNATURE b ->
     detect_image_format b = ("image/jpeg", ".jpg")) /\
  (starts_with (b_lit "RIFF") b -> has_at 8 (b_lit "WEBP") b ->
     detect_image_format b = ("image/webp", ".webp")) /\
  (starts_with (b_lit "GIF87a") b \/ starts_with (b_lit "GIF89a") b ->
     detect_image_format b = ("image/gif", ".gif")) /\
  (~ starts_with PNG_SIGNATURE b ->
   ~ starts_with JPEG_SIGNATURE b ->
   ~ (starts_with (b_lit "RIFF") b /\ has_at 8 (b_lit "WEBP") b) ->
   ~ (starts_with (b_lit "GIF87a") b \/ starts_with (b_lit "GIF89a") b) ->
     detect_image_format b = ("image/png", ".png")) /\
  (length b < 6 -> ~ starts_with JPEG_SIGNATURE b ->
     detect_image_format b = ("image/png", ".png")) /\
  (exists r, detect_image_format b = r).
Proof.
  split; [apply detect_png|].
  split; [apply detect_jpeg|].
  split; [apply detect_webp|].
  split; [apply detect_gif|].
  split; [apply detect_default|].
  split; [|eexists; reflexivity].
  intros Hlen Hjpg. apply detect_default; [|exact Hjpg| |].
  - intros H. apply starts_with_length in H. simpl in H. lia.
  - intros [_ (pre & rest & -> & Hpre)].
    rewrite length_app in Hlen. lia.
  - intros [H|H]; apply starts_with_length in H; simpl in H; lia.
Qed.

End Sniffer.

(* ================================================================== *)
(** * Reasoning about processes *)
(* ================================================================== *)

Section Processes.
Context {A B : Type}.

Lemma bind_Done (t : list event) (a : A) (f : A -> M B) :
  bind (t, Done a) f = (t ++ trace (f a), final (f a)).
Proof. unfold bind, trace, final. destruct (f a); reflexivity. Qed.

Lemma bind_Exit (t : list event) (s : Z) (f : A -> M B) :
  bind (t, Exit s) f = (t, Exit s).
Proof. reflexivity. Qed.

Lemma bind_Raise (t : list event) (e : exception) (f : A -> M B) :
  bind (t, Raise e) f = (t, Raise e).
Proof. reflexivity. Qed.

Lemma bind_ret (a : A) (f : A -> M B) : bind (ret a) f = f a.
Proof. unfold ret. rewrite bind_Done. simpl. now destruct (f a). Qed.

Lemma bind_after (t : list event) (m : M A) (f : A -> M B) :
  bind (t ++ trace m, final m) f = (t ++ trace (bind m f), final (bind m f)).
Proof.
  destruct m as [t' [a|s|e]]; simpl; try reflexivity.
  destruct (f a). simpl. now rewrite app_assoc.
Qed.

Lemma bind_after_event (ev : event) (m : M A) (f : A -> M B) :
  bind (ev :: trace m, final m) f = (ev :: trace (bind m f), final (bind m f)).
Proof. apply (bind_after [ev]). Qed.

(** The events of a sequence are those of its first part, then those of
    the second if the first part came to its end. *)
Lemma trace_bind (m : M A) (f : A -> M B) :
  trace (bind m f) =
  trace m ++ match final m with
             | Done a => trace (f a)
             | _ => []
             end.
Proof.
  destruct m as [t [a|s|e]]; simpl.
  - destruct (f a); reflexivity.
  - now rewrite app_nil_r.
  - now rewrite app_nil_r.
Qed.

Lemma final_bind (m : M A) (f : A -> M B) :
  final (bind m f) =
  match final m with
  | Done a => final (f a)
  | Exit s => Exit s
  | Raise e => Raise e
  end.
Proof. destruct m as [t [a|s|e]]; simpl; try reflexivity. now destruct (f a). Qed.

Lemma in_trace_bind (ev : event) (m : M A) (f : A -> M B) :
  In ev (trace (bind m f)) ->
  In ev (trace m) \/ exists a, final m = Done a /\ In ev (trace (f a)).
Proof.
  rewrite trace_bind. intros H. apply in_app_or in H.
  destruct H as [H|H]; [now left|].
  destruct (final m) as [a|s|e]; try contradiction.
  right. now exists a.
Qed.

Lemma final_bind_Done (m : M A) (f : A -> M B) (b : B) :
  final (bind m f) = Done b ->
  exists a, final m = Done a /\ final (f a) = Done b.
Proof.
  rewrite final_bind. destruct (final m) as [a|s|e]; try discriminate.
  intros H. now exists a.
Qed.

(** A property of events holds all along a sequence when it holds along
    both parts. *)
Lemma Forall_trace_bind (P : event -> Prop) (m : M A) (f : A -> M B) :
  Forall P (trace m) ->
  (forall a, final m = Done a -> Forall P (trace (f a))) ->
  Forall P (trace (bind m f)).
Proof.
  intros Hm Hf. rewrite trace_bind. apply Forall_app. split; [exact Hm|].
  destruct (final m) as [a|s|e]; auto.
Qed.

End Processes.

Lemma surjective_M {A : Type} (m : M A) : m = (trace m, final m).
Proof. now destruct m. Qed.

Lemma Forall_trace_eval {A : Type} (P : event -> Prop) (r : result A) :
  Forall P (trace (eval r)).
Proof. destruct r; constructor. Qed.

Lemma final_eval_Done {A : Type} (r : result A) (a : A) :
  final (eval r) = Done a -> r = Ok a.
Proof. destruct r; simpl; congruence. Qed.

Lemma eval_Ok {A : Type} (a : A) : eval (Ok a) = ret a.
Proof. reflexivity. Qed.

Lemma stops_bind {A B : Type} (m : M A) (f : A -> M B) :
  stops m -> stops (bind m f).
Proof.
  unfold stops. rewrite final_bind.
  intros [H|[e H]]; rewrite H; [now left | right; now exists e].
Qed.

Lemma run_status_stops (m : M unit) : stops m -> snd (run m) = 1%Z.
Proof. unfold stops, run. intros [H|[e H]]; rewrite H; reflexivity. Qed.


(* ================================================================== *)
(** * The phases of [generate_image] *)
(* ================================================================== *)

(** Goals of the form [Forall P (trace m)] for a process [m] built from
    prints, exits and evaluations. *)
Ltac only_events :=
  repeat first
    [ apply Forall_nil
    | apply Forall_trace_eval
    | apply Forall_cons; [first [exact I | reflexivity | simpl; tauto]|]
    | apply Forall_trace_bind; [|intros ? ?]
    | match goal with
      | |- Forall _ (trace (if ?c then _ else _)) => destruct c
      | |- Forall _ (trace (match ?x with _ => _ end)) => destruct x
      end ].

(** Running a process whose first steps are known. *)
Ltac proc :=
  repeat progress
    (unfold eval, print_err, print_out, emit, ret, sys_exit, raise;
     rewrite ?bind_Done, ?bind_Exit, ?bind_Raise;
     cbv beta iota zeta; cbn [trace final fst snd app]).

Section Phases.
Variable lib : PyLib.
Variable w : World.

Lemma nonempty_resolved_key (explicit env : option string) :
  nonempty (resolved_key explicit env) = true.
Proof.
  unfold resolved_key.
  destruct explicit as [k|]; [destruct (nonempty k) eqn:Hk; [exact Hk|]|];
    (destruct env as [e|]; [destruct (nonempty e) eqn:He; [exact He|]|]);
    reflexivity.
Qed.

(** The key that [require_api_key] settles on is the one the
    specification's order gives. *)
Lemma require_api_key_eq (api_key : option string) :
  require_api_key w api_key =
  let k := resolved_key api_key (environ_GEMINI_API_KEY w) in
  if String.eqb k YOUR_GEMINI_API_KEY_HERE
  then (configuration_error, Exit 1%Z)
  else ([], Done k).
Proof.
  unfold require_api_key.
  assert (E : match api_key with
              | Some k => if nonempty k then k else get_api_key w
              | None => get_api_key w
              end = resolved_key api_key (environ_GEMINI_API_KEY w)).
  { unfold resolved_key, get_api_key. destruct api_key as [k|]; reflexivity. }
  rewrite E. cbv zeta.
  rewrite nonempty_resolved_key. rewrite orb_false_r.
  destruct (String.eqb _ YOUR_GEMINI_API_KEY_HERE); reflexivity.
Qed.

Lemma limit_reference_images_eq (l : list string) :
  limit_reference_images l =
  ((if (14 <? length l)%nat then [truncation_warning] else []),
   Done (firstn 14 l)).
Proof.
  unfold limit_reference_images.
  destruct (14 <? length l)%nat eqn:E; [reflexivity|].
  apply Nat.ltb_ge in E. now rewrite firstn_all2.
Qed.

Lemma load_loadable (image_path : string) :
  loadable w image_path ->
  load_image_as_base64 lib w image_path =
  ([], Done (b64encode lib (file_bytes w image_path),
             fst (detect_image_format (file_bytes w image_path)))).
Proof.
  intros [He [b Hb]]. unfold load_image_as_base64, file_bytes.
  rewrite He, Hb. reflexivity.
Qed.

Lemma load_missing (image_path : string) :
  missing w image_path ->
  load_image_as_base64 lib w image_path =
  ([Stderr ("Error: Reference image not found: " ++ image_path)], Exit 1%Z).
Proof.
  unfold missing, load_image_as_base64. intros ->. reflexivity.
Qed.

Lemma diagnostic_is_stderr (t : list event) :
  Forall is_diagnostic t -> Forall is_stderr t.
Proof. apply Forall_impl. intros [] H; simpl in *; tauto. Qed.

Lemma load_diagnostic (image_path : string) :
  Forall is_diagnostic (trace (load_image_as_base64 lib w image_path)).
Proof. unfold load_image_as_base64. only_events. Qed.

Lemma load_stderr (image_path : string) :
  Forall is_stderr (trace (load_image_as_base64 lib w image_path)).
Proof. apply diagnostic_is_stderr, load_diagnostic. Qed.

Lemma add_reference_images_loadable (l : list string) :
  Forall (loadable w) l ->
  forall parts,
    add_reference_images lib w l parts =
    (map added_line l, Done (parts ++ map (reference_part lib w) l)).
Proof.
  induction 1 as [|p l Hp Hl IH]; intros parts; cbn [add_reference_images map].
  - now rewrite app_nil_r.
  - rewrite (load_loadable p Hp). proc. rewrite IH. proc.
    unfold reference_part at 2. now rewrite <- app_assoc.
Qed.

Lemma add_reference_images_diagnostic (l : list string) (parts : list json) :
  Forall is_diagnostic (trace (add_reference_images lib w l parts)).
Proof.
  revert parts. induction l as [|p l IH]; intros parts;
    cbn [add_reference_images].
  - constructor.
  - apply Forall_trace_bind; [apply load_diagnostic|]. intros [b m] _.
    apply Forall_trace_bind; [only_events|]. intros _ _. apply IH.
Qed.

Lemma add_reference_images_stderr (l : list string) (parts : list json) :
  Forall is_stderr (trace (add_reference_images lib w l parts)).
Proof. apply diagnostic_is_stderr, add_reference_images_diagnostic. Qed.

(** A missing image stops the loop, whatever came before it. *)
Lemma add_reference_images_missing (l : list string) :
  (exists p, In p l /\ missing w p) ->
  forall parts, stops (add_reference_images lib w l parts).
Proof.
  induction l as [|p l IH]; intros [q [Hin Hq]] parts; [contradiction|].
  cbn [add_reference_images].
  destruct (path_exists w (path_str (Path p))) eqn:He.
  - assert (Hl : exists q, In q l /\ missing w q).
    { destruct Hin as [<-|Hin]; [unfold missing in Hq; congruence|].
      now exists q. }
    unfold load_image_as_base64 at 1. rewrite He. cbn [negb].
    destruct (read_bytes w (path_str (Path p))) as [b|e].
    + proc. unfold stops. proc. apply IH. exact Hl.
    + proc. right. exists e. reflexivity.
  - rewrite (load_missing p He). left. reflexivity.
Qed.

(** The loop returns, or it stops with status 1 or an exception. *)
Lemma add_reference_images_final (l : list string) (parts : list json) :
  (exists parts', final (add_reference_images lib w l parts) = Done parts')
  \/ stops (add_reference_images lib w l parts).
Proof.
  revert parts. induction l as [|p l IH]; intros parts;
    cbn [add_reference_images].
  - left. now exists parts.
  - unfold load_image_as_base64.
    destruct (path_exists w (path_str (Path p))); cbn [negb].
    + destruct (read_bytes w (path_str (Path p))) as [b|e].
      * unfold stops. proc. apply IH.
      * right. right. exists e. reflexivity.
    + right. left. reflexivity.
Qed.

Lemma request_parts_final (prompt : string)
    (reference_images : option (list string)) :
  (exists parts,
      final (request_parts lib w prompt reference_images) = Done parts)
  \/ stops (request_parts lib w prompt reference_images).
Proof.
  unfold request_parts.
  destruct reference_images as [[|p l]|]; try (left; eexists; reflexivity).
  rewrite limit_reference_images_eq. unfold stops. proc.
  apply add_reference_images_final.
Qed.

(** The images the request is built from: the first 14 requested. *)
Lemma request_parts_loadable (prompt : string)
    (reference_images : option (list string)) :
  Forall (loadable w) (firstn 14 (requested reference_images)) ->
  request_parts lib w prompt reference_images =
  ((if (14 <? length (requested reference_images))%nat
    then [truncation_warning] else [])
     ++ map added_line (firstn 14 (requested reference_images)),
   Done (text_part prompt
           :: map (reference_part lib w)
                  (firstn 14 (requested reference_images)))).
Proof.
  intros H. unfold request_parts.
  destruct reference_images as [[|p l]|]; try reflexivity.
  cbn [requested] in *. set (refs := p :: l) in *.
  rewrite limit_reference_images_eq. proc.
  rewrite (add_reference_images_loadable _ H). reflexivity.
Qed.

Lemma request_parts_diagnostic (prompt : string)
    (reference_images : option (list string)) :
  Forall is_diagnostic (trace (request_parts lib w prompt reference_images)).
Proof.
  unfold request_parts.
  destruct reference_images as [[|p l]|]; try constructor.
  rewrite limit_reference_images_eq. proc.
  apply Forall_app. split; [|apply add_reference_images_diagnostic].
  destruct (14 <? _)%nat; repeat constructor.
Qed.

Lemma request_parts_stderr (prompt : string)
    (reference_images : option (list string)) :
  Forall is_stderr (trace (request_parts lib w prompt reference_images)).
Proof. apply diagnostic_is_stderr, request_parts_diagnostic. Qed.

Lemma request_parts_missing (prompt : string)
    (reference_images : option (list string)) :
  (exists p, In p (firstn 14 (requested reference_images)) /\ missing w p) ->
  stops (request_parts lib w prompt reference_images).
Proof.
  intros H. unfold request_parts.
  destruct reference_images as [[|p l]|].
  - destruct H as [q [[] _]].
  - cbn [requested] in H. set (refs := p :: l) in *.
    rewrite limit_reference_images_eq. unfold stops. proc.
    now apply add_reference_images_missing.
  - destruct H as [q [[] _]].
Qed.

Lemma receive_diagnostic (answer : http_outcome) :
  Forall is_diagnostic (trace (receive answer)).
Proof. destruct answer; only_events. Qed.

Lemma receive_stderr (answer : http_outcome) :
  Forall is_stderr (trace (receive answer)).
Proof. apply diagnostic_is_stderr, receive_diagnostic. Qed.

(** What the first loop returns is an image together with the MIME type
    sniffed from its bytes. *)
Lemma find_image_diagnostic (parts : list json) :
  Forall is_diagnostic (trace (find_image lib parts)).
Proof.
  induction parts as [|part rest IH]; cbn [find_image]; [constructor|].
  apply Forall_trace_bind; [apply Forall_trace_eval|]. intros [|] _.
  - only_events.
  - exact IH.
Qed.

Lemma find_image_stderr (parts : list json) :
  Forall is_stderr (trace (find_image lib parts)).
Proof. apply diagnostic_is_stderr, find_image_diagnostic. Qed.

Lemma find_image_sniffed (parts : list json) (image_bytes : bytes)
    (mime_type : string) :
  final (find_image lib parts) = Done (Some (image_bytes, mime_type)) ->
  mime_type = fst (detect_image_format image_bytes).
Proof.
  induction parts as [|part rest IH]; cbn [find_image]; [discriminate|].
  intros H. apply final_bind_Done in H. destruct H as [[|] [_ H]].
  - repeat (apply final_bind_Done in H; destruct H as [? [_ H]]).
    cbn in H. congruence.
  - now apply IH.
Qed.

Lemma report_text_diagnostic (parts : list json) :
  Forall is_diagnostic (trace (report_text lib parts)).
Proof.
  induction parts as [|part rest IH]; cbn [report_text]; [constructor|].
  apply Forall_trace_bind; [apply Forall_trace_eval|]. intros has _.
  apply Forall_trace_bind; [|intros _ _; exact IH].
  destruct has; only_events.
Qed.

Lemma report_text_stderr (parts : list json) :
  Forall is_stderr (trace (report_text lib parts)).
Proof. apply diagnostic_is_stderr, report_text_diagnostic. Qed.

Lemma extract_image_diagnostic (result : json) :
  Forall is_diagnostic (trace (extract_image lib result)).
Proof.
  unfold extract_image.
  do 6 (apply Forall_trace_bind; [only_events|intros ? _]).
  apply Forall_trace_bind; [apply find_image_diagnostic|]. intros [image|] _.
  - constructor.
  - apply Forall_trace_bind; [apply report_text_diagnostic|]. intros _ _.
    only_events.
Qed.

Lemma extract_image_stderr (result : json) :
  Forall is_stderr (trace (extract_image lib result)).
Proof. apply diagnostic_is_stderr, extract_image_diagnostic. Qed.

Lemma extract_image_sniffed (result : json) (image_bytes : bytes)
    (mime_type : string) :
  final (extract_image lib result) = Done (image_bytes, mime_type) ->
  mime_type = fst (detect_image_format image_bytes).
Proof.
  unfold extract_image. intros H.
  do 6 (apply final_bind_Done in H; destruct H as [? [_ H]]).
  apply final_bind_Done in H. destruct H as [[image|] [Hf H]].
  - cbn in H. injection H as ->. now apply (find_image_sniffed _ _ _ Hf).
  - apply final_bind_Done in H. destruct H as [? [_ H]].
    apply final_bind_Done in H. destruct H as [? [_ H]]. discriminate.
Qed.

Lemma after_post_diagnostic (req : request) :
  Forall is_diagnostic (trace (after_post lib w req)).
Proof.
  unfold after_post. apply Forall_trace_bind; [apply receive_diagnostic|].
  intros result _. apply extract_image_diagnostic.
Qed.

Lemma after_post_stderr (req : request) :
  Forall is_stderr (trace (after_post lib w req)).
Proof. apply diagnostic_is_stderr, after_post_diagnostic. Qed.

(** [generate_image] by cases: no key, or the parts cannot be built, or
    the request is sent. *)
Lemma generate_image_cases (prompt aspect_ratio image_size : string)
    (reference_images : option (list string)) (model_id : string)
    (api_key : option string) :
  let k := resolved_key api_key (environ_GEMINI_API_KEY w) in
  let g := generate_image lib w prompt aspect_ratio image_size
                          reference_images model_id api_key in
  (k = YOUR_GEMINI_API_KEY_HERE /\ g = (configuration_error, Exit 1%Z))
  \/ (k <> YOUR_GEMINI_API_KEY_HERE /\
      stops (request_parts lib w prompt reference_images) /\
      trace g = trace (request_parts lib w prompt reference_images) /\
      ((final (request_parts lib w prompt reference_images) = Exit 1%Z /\
        final g = Exit 1%Z) \/
       (exists e,
           final (request_parts lib w prompt reference_images) = Raise e /\
           final g = Raise e)))
  \/ (k <> YOUR_GEMINI_API_KEY_HERE /\
      exists parts,
        final (request_parts lib w prompt reference_images) = Done parts /\
        let req := build_request model_id k parts aspect_ratio image_size in
        g = (trace (request_parts lib w prompt reference_images)
               ++ HttpPost req :: trace (after_post lib w req),
             final (after_post lib w req))).
Proof.
  intros k g. unfold g, generate_image. rewrite require_api_key_eq.
  fold k. cbv zeta.
  destruct (String.eqb_spec k YOUR_GEMINI_API_KEY_HERE) as [E|E].
  - left. split; [exact E|reflexivity].
  - right. proc.
    destruct (request_parts_final prompt reference_images) as [[parts R]|R].
    + right. split; [exact E|]. exists parts. split; [exact R|].
      rewrite (surjective_M (request_parts lib w prompt reference_images)).
      rewrite R. proc. unfold post. proc. rewrite bind_after_event.
      reflexivity.
    + left. split; [exact E|]. split; [exact R|].
      rewrite trace_bind, final_bind.
      destruct R as [R|[e R]]; rewrite R.
      * split; [apply app_nil_r|]. left. now split.
      * split; [apply app_nil_r|]. right. now exists e.
Qed.

(** [generate_image] prints on the error stream and posts; it does
    nothing else. *)
Lemma generate_image_events (prompt aspect_ratio image_size : string)
    (reference_images : option (list string)) (model_id : string)
    (api_key : option string) :
  Forall (fun ev => is_diagnostic ev \/ is_post ev)
         (trace (generate_image lib w prompt aspect_ratio image_size
                                reference_images model_id api_key)).
Proof.
  pose proof (request_parts_diagnostic prompt reference_images) as Hrp.
  destruct (generate_image_cases prompt aspect_ratio image_size
              reference_images model_id api_key)
    as [[_ E]|[(_ & _ & E & _)|(_ & parts & _ & E)]]; cbv zeta in E;
    rewrite E; clear E.
  - repeat (constructor; [left; reflexivity|]). constructor.
  - eapply Forall_impl; [|exact Hrp]. tauto.
  - cbn [trace fst]. apply Forall_app. split.
    + eapply Forall_impl; [|exact Hrp]. tauto.
    + constructor; [right; exact I|].
      eapply Forall_impl; [|apply after_post_diagnostic]. tauto.
Qed.

(** The MIME type [generate_image] returns is the one sniffed from the
    bytes it returns. *)
Lemma generate_image_sniffed (prompt aspect_ratio image_size : string)
    (reference_images : option (list string)) (model_id : string)
    (api_key : option string) (image_bytes : bytes) (mime_type : string) :
  final (generate_image lib w prompt aspect_ratio image_size
                        reference_images model_id api_key)
    = Done (image_bytes, mime_type) ->
  mime_type = fst (detect_image_format image_bytes).
Proof.
  unfold generate_image. intros H.
  do 3 (apply final_bind_Done in H; destruct H as [? [_ H]]).
  now apply (extract_image_sniffed _ _ _ H).
Qed.

(** When a request was sent, it is the one built from the resolved key
    and the parts, and the rest of the run is what follows the POST. *)
Lemma generate_image_posted (prompt aspect_ratio image_size : string)
    (reference_images : option (list string)) (model_id : string)
    (api_key : option string) (req : request) :
  let k := resolved_key api_key (environ_GEMINI_API_KEY w) in
  let g := generate_image lib w prompt aspect_ratio image_size
                          reference_images model_id api_key in
  In (HttpPost req) (trace g) ->
  k <> YOUR_GEMINI_API_KEY_HERE /\
  exists parts,
    final (request_parts lib w prompt reference_images) = Done parts /\
    req = build_request model_id k parts aspect_ratio image_size /\
    g = (trace (request_parts lib w prompt reference_images)
           ++ HttpPost req :: trace (after_post lib w req),
         final (after_post lib w req)).
Proof.
  intros k g Hin.
  assert (Hno : forall t, Forall is_stderr t -> ~ In (HttpPost req) t).
  { intros t Ht Hi. rewrite Forall_forall in Ht. exact (Ht _ Hi). }
  pose proof (request_parts_stderr prompt reference_images) as Hrp.
  destruct (generate_image_cases prompt aspect_ratio image_size
              reference_images model_id api_key)
    as [[_ E]|[(_ & _ & E & _)|(Hk & parts & Hp & E)]]; cbv zeta in E;
    fold g in E; fold k in E.
  - exfalso. rewrite E in Hin. apply (Hno configuration_error); [|exact Hin].
    repeat constructor.
  - exfalso. rewrite E in Hin. exact (Hno _ Hrp Hin).
  - split; [exact Hk|]. exists parts. split; [exact Hp|].
    assert (Hreq : req = build_request model_id k parts aspect_ratio image_size).
    { rewrite E in Hin. cbn [trace fst] in Hin. apply in_app_or in Hin.
      destruct Hin as [Hin|[Hin|Hin]].
      - exfalso. exact (Hno _ Hrp Hin).
      - congruence.
      - exfalso. exact (Hno _ (after_post_stderr _) Hin). }
    split; [exact Hreq|]. rewrite Hreq. exact E.
Qed.

(** ** [main] *)

Lemma announce_final (args : Args) (model_id : string) :
  final (announce args model_id) = Done tt.
Proof.
  unfold announce. proc. destruct (reference_images args) as [[|? ?]|];
    reflexivity.
Qed.

Lemma announce_diagnostic (args : Args) (model_id : string) :
  Forall is_diagnostic (trace (announce args model_id)).
Proof. unfold announce. only_events. Qed.

Lemma announce_stderr (args : Args) (model_id : string) :
  Forall is_stderr (trace (announce args model_id)).
Proof. apply diagnostic_is_stderr, announce_diagnostic. Qed.

(** [main] by its phases, once the model name is resolved. *)
Lemma main_eq (args : Args) (model_id : string) :
  dict_item MODELS (model args) = Ok model_id ->
  let g := generate_image lib w (prompt args) (aspect args) (size args)
                          (reference_images args) model_id (key args) in
  main lib w args =
  (trace (announce args model_id) ++ trace g
     ++ match final g with
        | Done (image_bytes, mime_type) =>
            trace (save_image w args image_bytes mime_type)
        | _ => []
        end,
   match final g with
   | Done (image_bytes, mime_type) =>
       final (save_image w args image_bytes mime_type)
   | Exit status => Exit status
   | Raise e => Raise e
   end).
Proof.
  intros Hm g. unfold main. rewrite Hm. proc.
  rewrite (surjective_M (announce args model_id)), announce_final. proc.
  fold g. rewrite trace_bind, final_bind.
  destruct (final g) as [[b m]|s|e]; reflexivity.
Qed.

Lemma main_bad_model (args : Args) :
  dict_item MODELS (model args) = Err KeyError ->
  main lib w args = ([], Raise KeyError).
Proof. intros Hm. unfold main. rewrite Hm. reflexivity. Qed.

(** After [argparse] the model name is one of the two keys of [MODELS]:
    line 270 does not raise. *)
Lemma parsed_model (args : Args) :
  parsed args -> exists model_id, dict_item MODELS (model args) = Ok model_id.
Proof.
  intros (_ & _ & [<-|[<-|[]]]); eexists; reflexivity.
Qed.

Lemma dict_item_cases (d : list (string * string)) (k : string) :
  (exists v, dict_item d k = Ok v) \/ dict_item d k = Err KeyError.
Proof.
  unfold dict_item. destruct (dict_get d k) as [v|];
    [left; now exists v | now right].
Qed.

(** The file that is written holds the bytes that were passed, under the
    destination with its suffix replaced. *)
Lemma save_image_write (args : Args) (image_bytes : bytes)
    (mime_type : string) (path : PurePath) (data : bytes) :
  In (WriteFile path data) (trace (save_image w args image_bytes mime_type)) ->
  data = image_bytes /\
  with_suffix (destination w args) (get_extension mime_type) = Some path.
Proof.
  unfold save_image.
  destruct (with_suffix (destination w args) (get_extension mime_type))
    as [p|]; [|intros []].
  proc.
  destruct (differs _ _); destruct (mkdir_error w _);
    destruct (write_error w _); proc; cbn [In];
    intuition (try discriminate; try congruence).
Qed.

End Phases.

(* ================================================================== *)
(** * Paths and their suffixes *)
(* ================================================================== *)

Section Paths.

Lemma length_take (n : nat) (s : string) :
  String.length (take n s) = Nat.min n (String.length s).
Proof.
  unfold take. revert n. induction s as [|c s IH]; intros [|n]; simpl; auto.
Qed.

Lemma length_drop (i : nat) (s : string) :
  String.length (drop i s) = String.length s - i.
Proof.
  revert s. induction i as [|i IH]; intros [|c s]; simpl; auto.
Qed.

Lemma drop_append (a b : string) : drop (String.length a) (a ++ b) = b.
Proof. induction a as [|c a IH]; simpl; [now destruct b|exact IH]. Qed.

Lemma append_assoc (a b c : string) :
  ((a ++ b) ++ c = a ++ (b ++ c))%string.
Proof. induction a as [|x a IH]; simpl; [reflexivity|now rewrite IH]. Qed.

Lemma length_append (a b : string) :
  String.length (a ++ b) = String.length a + String.length b.
Proof. induction a as [|c a IH]; simpl; [reflexivity|now rewrite IH]. Qed.

(** The last dot of [a ++ "." ++ e] is the one before [e] when [e] has
    none. *)
Lemma rfind_dot_append (a e : string) :
  rfind_dot e = None ->
  rfind_dot (a ++ String "."%char e) = Some (String.length a).
Proof.
  intros He. induction a as [|c a IH]; simpl.
  - now rewrite He.
  - now rewrite IH.
Qed.

Lemma name_suffix_append (stem ext : string) :
  stem <> EmptyString -> is_extension ext -> name_suffix (stem ++ ext) = ext.
Proof.
  intros Hs (e & -> & He & Hd & _). unfold name_suffix.
  rewrite (rfind_dot_append stem e Hd).
  rewrite length_append. cbn [String.length].
  assert (0 < String.length stem) by (destruct stem; [congruence|simpl; lia]).
  assert (0 < String.length e) by (destruct e; [congruence|simpl; lia]).
  replace (0 <? String.length stem)%nat with true
    by (symmetry; now apply Nat.ltb_lt).
  replace (String.length stem <? _)%nat with true
    by (symmetry; apply Nat.ltb_lt; lia).
  cbn [andb]. apply drop_append.
Qed.

(** What is left of a name when its suffix is cut off is not empty. *)
Lemma stem_nonempty (name : string) :
  name <> EmptyString ->
  take (String.length name - String.length (name_suffix name)) name
    <> EmptyString.
Proof.
  intros Hn Hs.
  assert (Hl : String.length
                 (take (String.length name - String.length (name_suffix name))
                       name) = 0) by now rewrite Hs.
  rewrite length_take in Hl.
  assert (0 < String.length name) by (destruct name; [congruence|simpl; lia]).
  unfold name_suffix in Hl. destruct (rfind_dot name) as [i|].
  - destruct ((0 <? i) && (i <? String.length name - 1))%nat eqn:E.
    + apply andb_true_iff in E. destruct E as [E1 E2].
      apply Nat.ltb_lt in E1, E2. rewrite length_drop in Hl. lia.
    + simpl in Hl. lia.
  - simpl in Hl. lia.
Qed.

Lemma get_extension_range (m : string) :
  In (get_extension m) [".png"; ".jpg"; ".webp"; ".gif"].
Proof.
  unfold get_extension, dict_get_default, extensions. cbn [dict_get].
  repeat match goal with
         | |- context [String.eqb ?a m] => destruct (String.eqb a m)
         end; simpl; auto 6.
Qed.

Lemma get_extension_is_extension (m : string) :
  is_extension (get_extension m).
Proof.
  pose proof (get_extension_range m) as H. simpl in H.
  repeat destruct H as [H|H]; try contradiction; rewrite <- H;
    eexists; (split; [reflexivity|]); repeat split; discriminate.
Qed.

(** The suffix of [p.with_suffix(ext)] is [ext]. *)
Lemma with_suffix_suffix (p p' : PurePath) (ext : string) :
  is_extension ext -> with_suffix p ext = Some p' -> path_suffix p' = ext.
Proof.
  intros Hext. unfold with_suffix.
  destruct (has_slash ext); [discriminate|].
  destruct (_ || _); [discriminate|].
  destruct (String.eqb_spec (path_name p) EmptyString) as [|Hn]; [discriminate|].
  intros H. injection H as <-.
  unfold path_suffix at 1, path_name at 1. cbn [parts].
  rewrite last_last. apply name_suffix_append; [|exact Hext].
  now apply stem_nonempty.
Qed.

(** and its text ends with [ext]. *)
Lemma join_slash_last (l : list string) (x : string) :
  exists pre, join_slash (l ++ [x]) = (pre ++ x)%string.
Proof.
  induction l as [|y l [pre IH]].
  - now exists EmptyString.
  - destruct l as [|z l].
    + exists (y ++ "/")%string. simpl. now rewrite append_assoc.
    + exists (y ++ "/" ++ pre)%string.
      change (join_slash ((y :: z :: l) ++ [x]))
        with (y ++ "/" ++ join_slash ((z :: l) ++ [x]))%string.
      rewrite IH. now rewrite !append_assoc.
Qed.

(** ** Paths and their text *)

Lemma take_drop (i : nat) (s : string) : (take i s ++ drop i s)%string = s.
Proof.
  unfold take. revert s. induction i as [|i IH]; intros [|c s]; simpl;
    try reflexivity. now rewrite IH.
Qed.

Lemma has_slash_take (n : nat) (s : string) :
  has_slash s = false -> has_slash (take n s) = false.
Proof.
  unfold take. revert n. induction s as [|c s IH]; intros [|n] H; simpl;
    try reflexivity.
  simpl in H. apply orb_false_iff in H. destruct H as [Hc Hs].
  now rewrite Hc, (IH n Hs).
Qed.

Lemma has_slash_app (a b : string) :
  has_slash (a ++ b) = has_slash a || has_slash b.
Proof.
  induction a as [|c a IH]; simpl; [reflexivity|].
  now rewrite IH, orb_assoc.
Qed.

(** The name of a path that has a suffix is its stem followed by the
    suffix. *)
Lemma stem_suffix (name : string) :
  (take (String.length name - String.length (name_suffix name)) name
     ++ name_suffix name)%string = name.
Proof.
  unfold name_suffix. destruct (rfind_dot name) as [i|].
  - destruct ((0 <? i) && (i <? String.length name - 1))%nat eqn:E.
    + apply andb_true_iff in E. destruct E as [_ E].
      apply Nat.ltb_lt in E. rewrite length_drop.
      replace (String.length name - (String.length name - i)) with i by lia.
      apply take_drop.
    + cbn [String.length]. rewrite Nat.sub_0_r.
      rewrite <- (take_drop (String.length name) name) at 3.
      f_equal. symmetry.
      assert (H : String.length (drop (String.length name) name) = 0)
        by (rewrite length_drop; lia).
      now destruct (drop (String.length name) name).
  - cbn [String.length]. rewrite Nat.sub_0_r.
    rewrite <- (take_drop (String.length name) name) at 3.
    f_equal. symmetry.
    assert (H : String.length (drop (String.length name) name) = 0)
      by (rewrite length_drop; lia).
    now destruct (drop (String.length name) name).
Qed.

(** Replacing the suffix by itself changes nothing. *)
Lemma with_suffix_same (p : PurePath) (ext : string) :
  is_extension ext -> path_suffix p = ext -> with_suffix p ext = Some p.
Proof.
  intros (e & -> & He & Hd & Hs) Hp. unfold with_suffix.
  cbn [has_slash is_slash]. replace (is_slash "."%char) with false by reflexivity.
  cbn [orb]. rewrite Hs.
  cbn [String.eqb starts_with_dot negb andb orb].
  replace (is_dot "."%char) with true by reflexivity.
  replace (Ascii.eqb "."%char "."%char) with true by reflexivity.
  cbn [negb andb orb].
  assert (Hn : path_name p <> EmptyString).
  { intros E. unfold path_suffix in Hp. rewrite E in Hp. discriminate Hp. }
  destruct (String.eqb_spec (path_name p) EmptyString) as [E|_];
    [contradiction|].
  destruct (String.eqb_spec e EmptyString) as [E|_]; [contradiction|].
  rewrite <- Hp. unfold path_suffix. rewrite stem_suffix.
  f_equal. destruct p as [r l]. cbn [root parts path_name] in *.
  f_equal. symmetry. apply app_removelast_last.
  cbn [parts]. intros ->. apply Hn. reflexivity.
Qed.

Lemma split_slash_plain (s : string) :
  has_slash s = false -> split_slash s = [s].
Proof.
  induction s as [|c s IH]; [reflexivity|].
  cbn [has_slash split_slash]. intros H. apply orb_false_iff in H.
  destruct H as [Hc Hs]. rewrite Hc, (IH Hs). reflexivity.
Qed.

(** The pieces [split] cuts have no slash. *)
Lemma split_slash_no_slash (s : string) :
  Forall (fun x => has_slash x = false) (split_slash s).
Proof.
  induction s as [|c s IH]; [repeat constructor|].
  cbn [split_slash]. destruct (is_slash c) eqn:Hc.
  - constructor; [reflexivity|exact IH].
  - destruct (split_slash s) as [|h t]; [repeat constructor; simpl; now rewrite Hc|].
    inversion IH as [|? ? Hh Ht]; subst.
    constructor; [simpl; now rewrite Hc, Hh|exact Ht].
Qed.

Lemma Path_well_formed (s : string) : well_formed_path (Path s).
Proof.
  split.
  - unfold Path. cbn [root].
    destruct (_ =? 0)%nat; [now left|].
    destruct (_ =? 2)%nat; [right; now right|right; now left].
  - unfold Path. cbn [parts]. apply Forall_forall. intros x Hx.
    apply filter_In in Hx. destruct Hx as [Hin Hk]. split; [|exact Hk].
    pose proof (split_slash_no_slash s) as H.
    rewrite Forall_forall in H. now apply H.
Qed.

Lemma split_slash_nonempty (s : string) : split_slash s <> [].
Proof.
  destruct s as [|c s]; [discriminate|]. cbn [split_slash].
  destruct (is_slash c); [discriminate|].
  destruct (split_slash s); discriminate.
Qed.

Lemma split_slash_component (x rest : string) :
  has_slash x = false ->
  split_slash (x ++ "/" ++ rest) = x :: split_slash rest.
Proof.
  induction x as [|c x IH]; intros H; [reflexivity|].
  simpl in H. apply orb_false_iff in H. destruct H as [Hc Hx].
  change ((String c x ++ "/" ++ rest)%string)
    with (String c (x ++ "/" ++ rest)).
  cbn [split_slash]. rewrite Hc, (IH Hx). reflexivity.
Qed.

Lemma split_join (l : list string) :
  l <> [] -> Forall (fun x => has_slash x = false) l ->
  split_slash (join_slash l) = l.
Proof.
  intros Hne H. induction H as [|x l Hx Hl IH]; [congruence|].
  destruct l as [|y l].
  - cbn [join_slash]. now apply split_slash_plain.
  - change (join_slash (x :: y :: l))
      with (x ++ "/" ++ join_slash (y :: l))%string.
    rewrite (split_slash_component _ _ Hx). f_equal.
    apply IH. discriminate.
Qed.

Lemma filter_all {X : Type} (f : X -> bool) (l : list X) :
  Forall (fun x => f x = true) l -> filter f l = l.
Proof.
  induction 1 as [|x l Hx Hl IH]; [reflexivity|].
  cbn [filter]. now rewrite Hx, IH.
Qed.

Lemma kept_component_nonempty (x : string) :
  kept_component x = true -> x <> EmptyString.
Proof. intros H ->. discriminate H. Qed.

(** The text of a list of components does not start with a slash. *)
Lemma leading_slashes_join (l : list string) :
  Forall (fun x => has_slash x = false /\ kept_component x = true) l ->
  leading_slashes (join_slash l) = 0.
Proof.
  intros H. destruct H as [|x l [Hs Hk] Hl]; [reflexivity|].
  apply kept_component_nonempty in Hk.
  destruct x as [|c x]; [congruence|].
  simpl in Hs. apply orb_false_iff in Hs. destruct Hs as [Hc _].
  destruct l; cbn [join_slash append leading_slashes]; now rewrite Hc.
Qed.

Lemma join_slash_nonempty (l : list string) :
  l <> [] ->
  Forall (fun x => has_slash x = false /\ kept_component x = true) l ->
  join_slash l <> EmptyString.
Proof.
  intros Hne H. destruct H as [|x l [_ Hk] Hl]; [congruence|].
  apply kept_component_nonempty in Hk.
  destruct x as [|c x]; [congruence|].
  destruct l; cbn [join_slash append]; discriminate.
Qed.

(** Parsing the text of a path gives the path back. *)
Lemma Path_path_str (p : PurePath) :
  well_formed_path p -> Path (path_str p) = p.
Proof.
  destruct p as [r l]. intros [Hr Hl]. cbn [root parts] in Hr, Hl.
  destruct l as [|x l'].
  - destruct Hr as [->|[->| ->]]; reflexivity.
  - set (l := x :: l') in *.
    assert (Hne : l <> []) by discriminate.
    pose proof (join_slash_nonempty l Hne Hl) as Hj.
    pose proof (leading_slashes_join l Hl) as Hlead.
    assert (Hsplit : split_slash (join_slash l) = l).
    { apply split_join; [exact Hne|].
      eapply Forall_impl; [|exact Hl]. tauto. }
    assert (Hkept : filter kept_component l = l).
    { apply filter_all. eapply Forall_impl; [|exact Hl]. tauto. }
    unfold path_str. cbn [root parts].
    destruct Hr as [->|[->| ->]].
    + cbn [append].
      replace (str_or (join_slash l) ".") with (join_slash l)
        by (destruct (join_slash l); [congruence|reflexivity]).
      unfold Path. now rewrite Hlead, Hsplit, Hkept.
    + cbn [append str_or]. unfold Path.
      cbn [leading_slashes split_slash].
      replace (is_slash "/"%char) with true by reflexivity.
      rewrite Hlead, Hsplit. cbn [Nat.eqb filter].
      replace (kept_component EmptyString) with false by reflexivity.
      now rewrite Hkept.
    + cbn [append str_or]. unfold Path.
      cbn [leading_slashes split_slash].
      replace (is_slash "/"%char) with true by reflexivity.
      rewrite Hlead, Hsplit. cbn [Nat.eqb filter].
      replace (kept_component EmptyString) with false by reflexivity.
      now rewrite Hkept.
Qed.

(** What [with_suffix] returns when it returns. *)
Lemma with_suffix_Some (p p' : PurePath) (ext : string) :
  with_suffix p ext = Some p' ->
  path_name p <> EmptyString /\
  p' = {| root := root p;
          parts := removelast (parts p)
                     ++ [(take (String.length (path_name p)
                                - String.length (path_suffix p))
                               (path_name p) ++ ext)%string] |}.
Proof.
  unfold with_suffix.
  destruct (has_slash ext); [discriminate|].
  destruct (_ || _); [discriminate|].
  destruct (String.eqb_spec (path_name p) EmptyString) as [|Hn];
    [discriminate|].
  intros H. injection H as <-. now split.
Qed.

(** [with_suffix] keeps a path well formed. *)
Lemma with_suffix_well_formed (p p' : PurePath) (ext : string) :
  well_formed_path p -> is_extension ext -> with_suffix p ext = Some p' ->
  well_formed_path p'.
Proof.
  intros [Hr Hl] (e & -> & He & Hd & Hs) H.
  apply with_suffix_Some in H. destruct H as [Hn ->].
  split; [exact Hr|]. cbn [parts].
  assert (Hparts : parts p = removelast (parts p)
                             ++ [last (parts p) EmptyString]).
  { apply app_removelast_last. intros E. apply Hn. unfold path_name.
    now rewrite E. }
  rewrite Hparts in Hl. apply Forall_app in Hl. destruct Hl as [Hl1 Hl2].
  inversion Hl2 as [|? ? [Hlast _] _]; subst. fold (path_name p) in Hlast.
  apply Forall_app. split; [exact Hl1|].
  constructor; [|constructor]. split.
  - rewrite has_slash_app, (has_slash_take _ _ Hlast).
    cbn [has_slash orb]. replace (is_slash "."%char) with false by reflexivity.
    exact Hs.
  - pose proof (stem_nonempty (path_name p) Hn) as Hstem.
    fold (path_suffix p) in Hstem.
    unfold kept_component. apply andb_true_iff.
    split; apply negb_true_iff, String.eqb_neq; intros E;
      apply (f_equal String.length) in E; rewrite length_append in E;
      destruct (take _ (path_name p)); try congruence;
      destruct e; try congruence; simpl in E; lia.
Qed.

End Paths.

(* ================================================================== *)
(** * The extension of the written file *)
(* ================================================================== *)

Section WrittenFile.
Variable lib : PyLib.
Variable w : World.

(** Whatever [main] writes are bytes returned by [generate_image], under
    the destination whose suffix was replaced by the extension that
    belongs to the MIME type sniffed from these bytes. *)
Lemma main_write (args : Args) (path : PurePath) (data : bytes) :
  In (WriteFile path data) (trace (main lib w args)) ->
  with_suffix (destination w args)
              (get_extension (fst (detect_image_format data))) = Some path.
Proof.
  intros Hin.
  destruct (dict_item_cases MODELS (model args)) as [[model_id Hm]|Hm].
  - rewrite (main_eq lib w args model_id Hm) in Hin. cbv zeta in Hin.
    cbn [trace fst] in Hin.
    set (g := generate_image lib w (prompt args) (aspect args) (size args)
                (reference_images args) model_id (key args)) in *.
    apply in_app_or in Hin. destruct Hin as [Hin|Hin].
    { pose proof (announce_stderr args model_id) as Ha.
      rewrite Forall_forall in Ha. destruct (Ha _ Hin). }
    apply in_app_or in Hin. destruct Hin as [Hin|Hin].
    { pose proof (generate_image_events lib w (prompt args) (aspect args)
                    (size args) (reference_images args) model_id (key args))
        as Hg.
      rewrite Forall_forall in Hg. destruct (Hg _ Hin) as [[]|[]]. }
    destruct (final g) as [[image_bytes mime_type]|s|e] eqn:Hf;
      try contradiction.
    apply save_image_write in Hin. destruct Hin as [-> Hw].
    apply generate_image_sniffed in Hf. now rewrite <- Hf.
  - rewrite (main_bad_model lib w args Hm) in Hin. destruct Hin.
Qed.

Lemma path_str_with_suffix (p p' : PurePath) (ext : string) :
  is_extension ext -> with_suffix p ext = Some p' ->
  exists pre, path_str p' = (pre ++ ext)%string.
Proof.
  intros (e & -> & _) H. unfold with_suffix in H.
  destruct (has_slash _); [discriminate|].
  destruct (_ || _); [discriminate|].
  destruct (String.eqb _ _); [discriminate|].
  injection H as <-. unfold path_str. cbn [root parts].
  destruct (join_slash_last (removelast (parts p))
              (take (String.length (path_name p)
                     - String.length (path_suffix p)) (path_name p)
                 ++ String "."%char e)) as [pre ->].
  exists (root p ++ pre
            ++ take (String.length (path_name p)
                     - String.length (path_suffix p)) (path_name p))%string.
  rewrite <- !append_assoc.
  destruct ((((root p ++ pre) ++ _) ++ _)%string) eqn:E; [|reflexivity].
  exfalso. apply (f_equal String.length) in E.
  rewrite !length_append in E. simpl in E. lia.
Qed.

(** C1. For every file the script writes, the extension of the written
    path is the one that belongs to the format sniffed from the written
    bytes by [detect_image_format]: the suffix of the path and the end of
    its text are that extension.  Neither the MIME type the API reported
    nor the extension of the path the caller asked for has a say: when
    either stands for another extension, the written path does not carry
    it. *)
Theorem written_extension_is_sniffed (args : Args) (path : PurePath)
    (data : bytes) :
  In (WriteFile path data) (trace (main lib w args)) ->
  let sniffed := get_extension (fst (detect_image_format data)) in
  path_suffix path = sniffed /\
  (exists pre, path_str path = (pre ++ sniffed)%string) /\
  (forall reported_mime,
      get_extension reported_mime <> sniffed ->
      path_suffix path <> get_extension reported_mime) /\
  (forall o,
      output args = Some o -> path_suffix (Path o) <> sniffed ->
      path_suffix path <> path_suffix (Path o)).
Proof.
  intros Hin sniffed. apply main_write in Hin. fold sniffed in Hin.
  assert (Hs : path_suffix path = sniffed).
  { eapply with_suffix_suffix; [|exact Hin]. apply get_extension_is_extension. }
  split; [exact Hs|]. split.
  - eapply path_str_with_suffix; [|exact Hin]. apply get_extension_is_extension.
  - split; intros; congruence.
Qed.

End WrittenFile.

(** C10. The two format tables agree: for every buffer, the extension
    [get_extension] gives for the sniffed MIME type is the extension the
    sniffer gives itself; [get_extension] gives [.png] for every MIME
    type outside the four supported ones; hence the extension of every
    written path is the one the sniffer associates with the written
    bytes. *)
Theorem format_tables_consistent :
  (forall b mime ext,
      detect_image_format b = (mime, ext) -> get_extension mime = ext) /\
  (forall m, ~ supported_mime m -> get_extension m = ".png") /\
  (forall lib w args path data,
      In (WriteFile path data) (trace (main lib w args)) ->
      path_suffix path = snd (detect_image_format data)).
Proof.
  split; [|split].
  - intros b mime ext H. pose proof (get_extension_detect b) as E.
    rewrite H in E. exact E.
  - exact get_extension_default.
  - intros lib w args path data Hin. apply main_write in Hin.
    rewrite <- get_extension_detect.
    eapply with_suffix_suffix; [|exact Hin]. apply get_extension_is_extension.
Qed.

(** Membership in a list that is known in full. *)
Ltac in_list := repeat (try (left; reflexivity); right).

Lemma detect_image_format_spec_witness :
  detect_image_format png_bytes = ("image/png", ".png") /\
  detect_image_format [xff; xd8; xff; xe0] = ("image/jpeg", ".jpg") /\
  detect_image_format (b_lit "RIFF$000WEBPVP8 ") = ("image/webp", ".webp") /\
  detect_image_format gif_bytes = ("image/gif", ".gif") /\
  detect_image_format (b_lit "BM6") = ("image/png", ".png") /\
  detect_image_format [xff] = ("image/png", ".png").
Proof.
  split; [|split; [|split; [|split; [|split]]]].
  - apply (proj1 (detect_image_format_spec png_bytes)).
    exists [x00; x00; x00; x0d]. reflexivity.
  - apply (proj1 (proj2 (detect_image_format_spec [xff; xd8; xff; xe0]))).
    exists [xff; xe0]. reflexivity.
  - apply (proj1 (proj2 (proj2
             (detect_image_format_spec (b_lit "RIFF$000WEBPVP8 "))))).
    + exists (b_lit "$000WEBPVP8 "). reflexivity.
    + exists (b_lit "RIFF$000"), (b_lit "VP8 "). split; reflexivity.
  - apply (proj1 (proj2 (proj2 (proj2 (detect_image_format_spec gif_bytes))))).
    right. exists [x01; x00; x01; x00]. reflexivity.
  - apply (proj1 (proj2 (proj2 (proj2 (proj2
             (detect_image_format_spec (b_lit "BM6"))))))).
    + intros [rest H]. discriminate H.
    + intros [rest H]. discriminate H.
    + intros [[rest H] _]. discriminate H.
    + intros [[rest H]|[rest H]]; discriminate H.
  - apply (proj1 (proj2 (proj2 (proj2 (proj2 (proj2
             (detect_image_format_spec [xff]))))))).
    + simpl. lia.
    + intros [rest H]. discriminate H.
Defined.

Lemma written_extension_is_sniffed_witness :
  In (WriteFile (mkPath EmptyString ["robot.gif"]) gif_bytes)
     (trace (main sample_lib sample_world sample_args)) /\
  path_suffix (mkPath EmptyString ["robot.gif"]) = ".gif" /\
  path_suffix (mkPath EmptyString ["robot.gif"]) <> get_extension "image/png" /\
  path_suffix (mkPath EmptyString ["robot.gif"]) <> path_suffix (Path "./robot.png").
Proof.
  assert (Hin : In (WriteFile (mkPath EmptyString ["robot.gif"]) gif_bytes)
                   (trace (main sample_lib sample_world sample_args)))
    by (vm_compute; in_list).
  destruct (written_extension_is_sniffed sample_lib sample_world sample_args
              _ _ Hin) as (H1 & _ & H3 & H4).
  split; [exact Hin|]. split; [exact H1|]. split.
  - apply H3. vm_compute. discriminate.
  - apply (H4 "./robot.png"); [reflexivity|]. vm_compute. discriminate.
Defined.

Lemma format_tables_consistent_witness :
  get_extension "image/gif" = ".gif" /\
  get_extension "image/bmp" = ".png" /\
  path_suffix (mkPath EmptyString ["robot.gif"]) = snd (detect_image_format gif_bytes).
Proof.
  destruct format_tables_consistent as (H1 & H2 & H3).
  split; [|split].
  - apply (H1 gif_bytes). reflexivity.
  - apply H2. unfold supported_mime. intros [H|[H|[H|H]]]; discriminate H.
  - apply (H3 sample_lib sample_world sample_args). vm_compute. in_list.
Defined.

(* ================================================================== *)
(** * The request *)
(* ================================================================== *)

Section Request.
Variable lib : PyLib.
Variable w : World.

(** C4. For every list of reference image paths passed to
    [generate_image] (with a key configured and the images that are used
    loadable): the images used are the first 14 of the list, which is the
    whole list when it has at most 14 entries; the warning is printed
    exactly when the list has more than 14; one line is printed per image
    used; and the request that is sent carries, under [contents], the text
    prompt followed by one [inlineData] part per image used, in the order
    of the list, each with the MIME type sniffed from the file and the
    base64 text of its bytes. *)
Theorem reference_images_truncated (prompt aspect_ratio image_size : string)
    (reference_images : option (list string)) (model_id : string)
    (api_key : option string) :
  let k := resolved_key api_key (environ_GEMINI_API_KEY w) in
  let l := requested reference_images in
  let used := firstn 14 l in
  let image_part := fun image_path =>
    JObj [("inlineData",
           JObj [("mimeType",
                  JStr (fst (detect_image_format (file_bytes w image_path))));
                 ("data", JStr (b64encode lib (file_bytes w image_path)))])] in
  k <> YOUR_GEMINI_API_KEY_HERE ->
  Forall (loadable w) used ->
  (length l <= 14 -> used = l) /\
  (14 < length l -> length used = 14 /\ exists dropped, l = used ++ dropped) /\
  exists req rest,
    Forall is_stderr rest /\
    trace (generate_image lib w prompt aspect_ratio image_size
                          reference_images model_id api_key)
    = (if (14 <? length l)%nat then [truncation_warning] else [])
        ++ map added_line used
        ++ HttpPost req :: rest /\
    req = build_request model_id k
            (text_part prompt :: map (reference_part lib w) used)
            aspect_ratio image_size /\
    req_payload req
    = JObj [("contents",
             JArr [JObj [("parts",
                          JArr (JObj [("text", JStr prompt)]
                                  :: map image_part used))]]);
            ("generationConfig",
             JObj [("responseModalities", JArr [JStr "TEXT"; JStr "IMAGE"]);
                   ("imageConfig",
                    JObj [("aspectRatio", JStr aspect_ratio);
                          ("imageSize", JStr image_size)])])].
Proof.
  intros k l used image_part Hk Hload.
  split; [intros H; now apply firstn_all2|].
  split.
  { intros H. split; [apply firstn_length_le; lia|].
    exists (skipn 14 l). symmetry. apply firstn_skipn. }
  pose proof (request_parts_loadable lib w prompt reference_images Hload) as R.
  fold l in R. fold used in R.
  destruct (generate_image_cases lib w prompt aspect_ratio image_size
              reference_images model_id api_key)
    as [[E _]|[(_ & S & _)|(_ & parts & Hp & E)]]; cbv zeta in *.
  - contradiction.
  - exfalso. rewrite R in S. destruct S as [S|[e S]]; discriminate S.
  - rewrite R in Hp, E. cbn [final snd] in Hp. injection Hp as <-.
    fold k in E. rewrite E. cbn [trace fst].
    exists (build_request model_id k
              (text_part prompt :: map (reference_part lib w) used)
              aspect_ratio image_size).
    eexists. split; [apply after_post_stderr|].
    split; [now rewrite <- app_assoc|]. split; reflexivity.
Qed.

(** Without a key the script ends with status 1 and posts nothing. *)
Lemma script_without_key (args : Args) :
  resolved_key (key args) (environ_GEMINI_API_KEY w)
    = YOUR_GEMINI_API_KEY_HERE ->
  snd (script lib w args) <> 0%Z /\
  Forall (fun ev => ~ is_post ev) (fst (script lib w args)).
Proof.
  intros Hk. unfold script.
  destruct (dict_item_cases MODELS (model args)) as [[model_id Hm]|Hm].
  - rewrite (main_eq lib w args model_id Hm). cbv zeta.
    destruct (generate_image_cases lib w (prompt args) (aspect args)
                (size args) (reference_images args) model_id (key args))
      as [[_ E]|[(E & _)|(E & _)]]; [|contradiction|contradiction].
    cbv zeta in E. rewrite E. unfold run. cbn [final trace fst snd].
    split; [discriminate|].
    apply Forall_app. split.
    + eapply Forall_impl; [|apply announce_stderr].
      intros [] H; simpl in *; tauto.
    + rewrite app_nil_r. repeat constructor; simpl; tauto.
  - rewrite (main_bad_model lib w args Hm). unfold run. cbn.
    split; [discriminate|]. repeat constructor. simpl. tauto.
Qed.

(** C5. The API key is resolved in this order: a non-empty explicit
    argument; otherwise a non-empty [GEMINI_API_KEY]; otherwise the
    placeholder.  When the key so obtained is the placeholder it counts as
    absent: the four lines of the configuration error are all that is
    printed by [generate_image], which exits with status 1, and the script
    ends with a non-zero status without any POST.  Otherwise every request
    that is sent carries the resolved key in its URL, and a request is
    sent unless a reference image cannot be loaded. *)
Theorem api_key_resolution (args : Args) (model_id : string) :
  let env := environ_GEMINI_API_KEY w in
  let k := resolved_key (key args) env in
  let g := generate_image lib w (prompt args) (aspect args) (size args)
                          (reference_images args) model_id (key args) in
  (forall e, key args = Some e -> e <> EmptyString -> k = e) /\
  (given (key args) = false -> forall e, env = Some e -> e <> EmptyString -> k = e) /\
  (given (key args) = false -> given env = false ->
     k = YOUR_GEMINI_API_KEY_HERE) /\
  k <> EmptyString /\
  (k = YOUR_GEMINI_API_KEY_HERE ->
     g = (configuration_error, Exit 1%Z) /\
     snd (script lib w args) <> 0%Z /\
     Forall (fun ev => ~ is_post ev) (fst (script lib w args))) /\
  (k <> YOUR_GEMINI_API_KEY_HERE ->
     (forall req, In (HttpPost req) (trace g) ->
        req_url req
        = (API_BASE ++ "/" ++ model_id ++ ":generateContent?key=" ++ k)%string) /\
     (stops (request_parts lib w (prompt args) (reference_images args)) \/
      exists req, In (HttpPost req) (trace g))).
Proof.
  intros env k g.
  assert (Hne : forall e, e <> EmptyString -> nonempty e = true).
  { intros e He. unfold nonempty. apply negb_true_iff.
    now apply String.eqb_neq. }
  split; [|split; [|split; [|split; [|split]]]].
  - intros e He Hn. unfold k, resolved_key. rewrite He.
    now rewrite (Hne e Hn).
  - intros Hk e He Hn. unfold k, resolved_key. rewrite He.
    destruct (key args) as [x|]; [cbn [given] in Hk; rewrite Hk|];
      now rewrite (Hne e Hn).
  - intros Hk He. unfold k, resolved_key.
    destruct (key args) as [x|]; [cbn [given] in Hk; rewrite Hk|];
      (destruct env as [e|]; [cbn [given] in He; rewrite He|]); reflexivity.
  - intros E. pose proof (nonempty_resolved_key (key args) env) as H.
    fold k in H. rewrite E in H. discriminate H.
  - intros Hk. split; [|apply script_without_key; exact Hk].
    destruct (generate_image_cases lib w (prompt args) (aspect args)
                (size args) (reference_images args) model_id (key args))
      as [[_ E]|[(E & _)|(E & _)]]; [exact E|contradiction|contradiction].
  - intros Hk. split.
    + intros req Hin. apply generate_image_posted in Hin.
      destruct Hin as (_ & parts & _ & -> & _). reflexivity.
    + destruct (generate_image_cases lib w (prompt args) (aspect args)
                  (size args) (reference_images args) model_id (key args))
        as [[E _]|[(_ & S & _)|(_ & parts & _ & E)]]; cbv zeta in *.
      * contradiction.
      * now left.
      * right. eexists. fold g in E. rewrite E. cbn [trace fst].
        apply in_or_app. right. left. reflexivity.
Qed.

(** When the loop over the reference images exits, the error line was
    printed. *)
Lemma add_reference_images_exit (l : list string) (parts : list json)
    (status : Z) :
  final (add_reference_images lib w l parts) = Exit status ->
  Exists is_error_report (trace (add_reference_images lib w l parts)).
Proof.
  revert parts. induction l as [|p l IH]; intros parts;
    cbn [add_reference_images]; [discriminate|].
  unfold load_image_as_base64.
  destruct (path_exists w (path_str (Path p))); cbn [negb].
  - destruct (read_bytes w (path_str (Path p))) as [b|e].
    + proc. intros H. apply Exists_cons_tl. now apply IH.
    + proc. discriminate.
  - proc. intros _. apply Exists_cons_hd. reflexivity.
Qed.

Lemma request_parts_exit (prompt : string)
    (reference_images : option (list string)) (status : Z) :
  final (request_parts lib w prompt reference_images) = Exit status ->
  Exists is_error_report (trace (request_parts lib w prompt reference_images)).
Proof.
  unfold request_parts.
  destruct reference_images as [[|p l]|]; try discriminate.
  rewrite limit_reference_images_eq. proc. intros H.
  apply Exists_app. right. now apply (add_reference_images_exit _ _ status).
Qed.

(** C6, as amended.  For every invocation in which one of the first 14
    requested reference image paths does not exist, the script ends with
    a non-zero status, an error report is on the error stream, and no
    HTTP POST was issued. *)
Theorem missing_reference_stops_before_post (args : Args) :
  (exists p, In p (firstn 14 (requested (reference_images args)))
             /\ missing w p) ->
  snd (script lib w args) <> 0%Z /\
  Exists is_error_report (fst (script lib w args)) /\
  Forall (fun ev => ~ is_post ev) (fst (script lib w args)).
Proof.
  intros Hmiss. unfold script.
  destruct (dict_item_cases MODELS (model args)) as [[model_id Hm]|Hm].
  - rewrite (main_eq lib w args model_id Hm). cbv zeta.
    pose proof (announce_stderr args model_id) as Ha.
    assert (Ha' : Forall (fun ev => ~ is_post ev)
                         (trace (announce args model_id))).
    { eapply Forall_impl; [|exact Ha]. intros [] H; simpl in *; tauto. }
    pose proof (request_parts_missing lib w (prompt args)
                  (reference_images args) Hmiss) as S.
    pose proof (request_parts_stderr lib w (prompt args)
                  (reference_images args)) as Hrp.
    destruct (generate_image_cases lib w (prompt args) (aspect args)
                (size args) (reference_images args) model_id (key args))
      as [[_ E]|[(_ & _ & Et & Ef)|(_ & parts & Hp & _)]]; cbv zeta in *.
    + rewrite E. unfold run. cbn [final trace fst snd].
      split; [discriminate|]. split.
      * apply Exists_app. right. apply Exists_cons_hd. reflexivity.
      * apply Forall_app. split; [exact Ha'|].
        repeat constructor; simpl; tauto.
    + rewrite Et.
      assert (Hrp' : Forall (fun ev => ~ is_post ev)
                       (trace (request_parts lib w (prompt args)
                                 (reference_images args)))).
      { eapply Forall_impl; [|exact Hrp]. intros [] H; simpl in *; tauto. }
      destruct Ef as [[Er Eg]|[e [Er Eg]]]; rewrite Eg; unfold run;
        cbn [final trace fst snd]; rewrite ?app_nil_r.
      * split; [discriminate|]. split.
        -- apply Exists_app. right. now apply (request_parts_exit _ _ 1%Z).
        -- apply Forall_app. now split.
      * split; [discriminate|]. split.
        -- apply Exists_app. right. apply Exists_cons_hd. exact I.
        -- rewrite !Forall_app. split; [split; assumption|].
           constructor; [simpl; tauto|constructor].
    + exfalso. unfold stops in S. rewrite Hp in S.
      destruct S as [S|[e S]]; discriminate S.
  - rewrite (main_bad_model lib w args Hm). unfold run. cbn.
    split; [discriminate|]. split.
    + apply Exists_cons_hd. exact I.
    + repeat constructor. simpl. tauto.
Qed.

End Request.

(** C6 as stated fails: with fifteen reference images of which only the
    last does not exist, the list is cut to its first 14 entries, the
    missing file is never looked at, the POST is issued and the script
    ends with status 0. *)
Lemma missing_reference_beyond_limit :
  let args := with_references fifteen_references sample_args in
  (exists p, In p (requested (reference_images args))
             /\ missing sample_world p) /\
  snd (script sample_lib sample_world args) = 0%Z /\
  In (HttpPost
        (build_request "gemini-3-pro-image-preview" "secret"
           (text_part "A cute robot!"
              :: map (reference_part sample_lib sample_world)
                     (firstn 14 fifteen_references))
           "1:1" "2K"))
     (fst (script sample_lib sample_world args)).
Proof.
  split; [|split].
  - exists "missing.png". split; [vm_compute; in_list|reflexivity].
  - vm_compute. reflexivity.
  - vm_compute. in_list.
Qed.

Lemma missing_reference_stops_before_post_witness :
  let args := with_references ["ref1.png"; "missing.png"] sample_args in
  snd (script sample_lib sample_world args) <> 0%Z /\
  Exists is_error_report (fst (script sample_lib sample_world args)) /\
  Forall (fun ev => ~ is_post ev) (fst (script sample_lib sample_world args)).
Proof.
  apply (missing_reference_stops_before_post sample_lib sample_world
           (with_references ["ref1.png"; "missing.png"] sample_args)).
  exists "missing.png". split; [vm_compute; in_list|reflexivity].
Defined.

Lemma reference_images_truncated_witness :
  let used := firstn 14 fifteen_references in
  length used = 14 /\
  (exists dropped, fifteen_references = used ++ dropped) /\
  exists req rest,
    trace (generate_image sample_lib sample_world "A cute robot!" "1:1" "2K"
             (Some fifteen_references) "gemini-3-pro-image-preview" None)
    = [truncation_warning] ++ map added_line used
        ++ HttpPost req :: rest /\
    req_payload req
    = JObj [("contents",
             JArr [JObj [("parts",
                          JArr (JObj [("text", JStr "A cute robot!")]
                                  :: map (fun _ =>
                                       JObj [("inlineData",
                                              JObj [("mimeType", JStr "image/png");
                                                    ("data",
                                                     JStr "iVBORw0KGgoAAAAN")])])
                                       used))]]);
            ("generationConfig",
             JObj [("responseModalities", JArr [JStr "TEXT"; JStr "IMAGE"]);
                   ("imageConfig",
                    JObj [("aspectRatio", JStr "1:1");
                          ("imageSize", JStr "2K")])])].
Proof.
  assert (Hk : resolved_key None (environ_GEMINI_API_KEY sample_world)
               <> YOUR_GEMINI_API_KEY_HERE) by (vm_compute; discriminate).
  assert (Hl : Forall (loadable sample_world)
                      (firstn 14 (requested (Some fifteen_references)))).
  { apply Forall_forall. intros p Hp. split.
    - vm_compute in Hp.
      repeat (destruct Hp as [<-|Hp]; [reflexivity|]). destruct Hp.
    - exists png_bytes. reflexivity. }
  destruct (reference_images_truncated sample_lib sample_world
              "A cute robot!" "1:1" "2K" (Some fifteen_references)
              "gemini-3-pro-image-preview" None Hk Hl)
    as (_ & H2 & req & rest & _ & H3 & _ & H5).
  destruct H2 as [H2a H2b]; [vm_compute; lia|].
  split; [exact H2a|]. split; [exact H2b|].
  exists req, rest. split; [exact H3|exact H5].
Defined.

Lemma api_key_resolution_witness :
  resolved_key (Some "explicit") (Some "secret") = "explicit" /\
  resolved_key None (Some "secret") = "secret" /\
  resolved_key (Some EmptyString) None = YOUR_GEMINI_API_KEY_HERE /\
  generate_image sample_lib keyless_world "A cute robot!" "1:1" "2K" None
                 "gemini-3-pro-image-preview" None
    = (configuration_error, Exit 1%Z) /\
  snd (script sample_lib keyless_world sample_args) <> 0%Z /\
  (forall req,
      In (HttpPost req)
         (trace (generate_image sample_lib sample_world "A cute robot!" "1:1"
                   "2K" None "gemini-3-pro-image-preview" None)) ->
      req_url req
      = (API_BASE ++ "/gemini-3-pro-image-preview:generateContent?key=secret")%string).
Proof.
  pose (explicit := with_output None
          {| prompt := "A cute robot!"; output := None; aspect := "1:1";
             size := "2K"; model := "pro"; key := Some "explicit";
             reference_images := None |}).
  pose (blank := {| prompt := "A cute robot!"; output := None; aspect := "1:1";
                    size := "2K"; model := "pro"; key := Some EmptyString;
                    reference_images := None |}).
  destruct (api_key_resolution sample_lib sample_world explicit
              "gemini-3-pro-image-preview") as (H1 & _).
  destruct (api_key_resolution sample_lib sample_world sample_args
              "gemini-3-pro-image-preview") as (_ & H2 & _ & _ & _ & H6).
  destruct (api_key_resolution sample_lib keyless_world blank
              "gemini-3-pro-image-preview") as (_ & _ & H3 & _).
  destruct (api_key_resolution sample_lib keyless_world sample_args
              "gemini-3-pro-image-preview") as (_ & _ & _ & _ & H5 & _).
  split; [apply (H1 "explicit"); [reflexivity|discriminate]|].
  split; [apply (H2 eq_refl "secret"); [reflexivity|discriminate]|].
  split; [apply (H3 eq_refl eq_refl)|].
  destruct (H5 eq_refl) as (H5a & H5b & _).
  split; [exact H5a|]. split; [exact H5b|].
  apply H6. vm_compute. discriminate.
Defined.

(* ================================================================== *)
(** * The response *)
(* ================================================================== *)

Section Response.
Variable lib : PyLib.
Variable w : World.

(** The first loop stops at the first part that carries inline data. *)
Lemma find_image_first (pre post : list json)
    (part inline_data : list (string * json)) (data : string)
    (image_bytes : bytes) :
  Forall (fun x => py_in "inlineData" x = Ok false) pre ->
  dict_get part "inlineData" = Some (JObj inline_data) ->
  dict_get inline_data "data" = Some (JStr data) ->
  b64decode lib data = Ok image_bytes ->
  let actual_mime := fst (detect_image_format image_bytes) in
  let reported_mime :=
    dict_get_default inline_data "mimeType" (JStr "image/png") in
  find_image lib (pre ++ JObj part :: post) =
  ((if str_ne actual_mime reported_mime
    then [mime_note lib reported_mime actual_mime] else []),
   Done (Some (image_bytes, actual_mime))).
Proof.
  intros Hpre Hp Hd Hb actual_mime reported_mime.
  induction Hpre as [|x pre Hx Hpre IH]; cbn [app find_image].
  - unfold py_in, py_getitem. rewrite Hp. proc.
    unfold py_getitem. rewrite Hd. proc.
    unfold py_b64decode. rewrite Hb. proc.
    unfold py_get. proc. fold actual_mime reported_mime.
    destruct (str_ne actual_mime reported_mime); proc; reflexivity.
  - rewrite Hx. proc. rewrite <- surjective_M. exact IH.
Qed.

(** C7. When the result is extracted, the parts of the response are
    walked in order and the first part that carries inline image data
    decides: its base64 data, decoded, is what [generate_image] returns,
    together with the MIME type sniffed from the decoded bytes; after the
    POST the only line printed is the note, and it is printed exactly when
    the sniffed MIME type differs from the one reported in that part (by
    default [image/png]); the value returned is the sniffed one in both
    cases. *)
Theorem first_inline_part_decides (prompt aspect_ratio image_size : string)
    (reference_images : option (list string)) (model_id : string)
    (api_key : option string) (req : request)
    (result candidate content part inline_data : list (string * json))
    (others pre post : list json) (data : string) (image_bytes : bytes) :
  let g := generate_image lib w prompt aspect_ratio image_size
                          reference_images model_id api_key in
  In (HttpPost req) (trace g) ->
  urlopen w req = HttpResponse (JObj result) ->
  dict_get result "candidates" = Some (JArr (JObj candidate :: others)) ->
  dict_get candidate "content" = Some (JObj content) ->
  dict_get content "parts" = Some (JArr (pre ++ JObj part :: post)) ->
  Forall (fun x => py_in "inlineData" x = Ok false) pre ->
  dict_get part "inlineData" = Some (JObj inline_data) ->
  dict_get inline_data "data" = Some (JStr data) ->
  b64decode lib data = Ok image_bytes ->
  let actual_mime := fst (detect_image_format image_bytes) in
  let reported_mime :=
    dict_get_default inline_data "mimeType" (JStr "image/png") in
  final g = Done (image_bytes, actual_mime) /\
  exists before,
    Forall is_stderr before /\
    trace g = before ++ HttpPost req
                :: (if str_ne actual_mime reported_mime
                    then [mime_note lib reported_mime actual_mime] else []).
Proof.
  intros g Hin Hresp Hc Hct Hparts Hpre Hp Hd Hb actual_mime reported_mime.
  apply generate_image_posted in Hin.
  destruct Hin as (_ & parts & _ & _ & E). fold g in E.
  assert (A : after_post lib w req =
              ((if str_ne actual_mime reported_mime
                then [mime_note lib reported_mime actual_mime] else []),
               Done (image_bytes, actual_mime))).
  { unfold after_post. rewrite Hresp. unfold receive. proc.
    unfold extract_image, py_get, dict_get_default. rewrite Hc. proc.
    cbn [truthy negb py_first]. proc.
    unfold dict_get_default. rewrite Hct. proc.
    unfold dict_get_default. rewrite Hparts. proc.
    cbn [py_iter]. proc.
    rewrite (find_image_first pre post part inline_data data image_bytes
               Hpre Hp Hd Hb).
    proc. fold actual_mime reported_mime. now rewrite app_nil_r. }
  rewrite A in E. rewrite E. cbn [trace final fst snd].
  split; [reflexivity|].
  eexists. split; [apply request_parts_stderr|reflexivity].
Qed.

Lemma save_image_no_post (args : Args) (image_bytes : bytes)
    (mime_type : string) :
  Forall (fun ev => ~ is_post ev)
         (trace (save_image w args image_bytes mime_type)).
Proof.
  unfold save_image.
  destruct (with_suffix (destination w args) (get_extension mime_type))
    as [p|]; [|constructor].
  proc.
  destruct (differs _ _); destruct (mkdir_error w _);
    destruct (write_error w _); proc;
    repeat (constructor; [simpl; tauto|]); constructor.
Qed.

(** A POST seen in a run of [main] is the one of [generate_image]. *)
Lemma main_posted (args : Args) (req : request) :
  In (HttpPost req) (trace (main lib w args)) ->
  exists model_id,
    dict_item MODELS (model args) = Ok model_id /\
    In (HttpPost req)
       (trace (generate_image lib w (prompt args) (aspect args) (size args)
                 (reference_images args) model_id (key args))).
Proof.
  intros Hin.
  destruct (dict_item_cases MODELS (model args)) as [[model_id Hm]|Hm].
  - exists model_id. split; [exact Hm|].
    rewrite (main_eq lib w args model_id Hm) in Hin. cbv zeta in Hin.
    cbn [trace fst] in Hin.
    apply in_app_or in Hin. destruct Hin as [Hin|Hin].
    { pose proof (announce_stderr args model_id) as Ha.
      rewrite Forall_forall in Ha. destruct (Ha _ Hin). }
    apply in_app_or in Hin. destruct Hin as [Hin|Hin]; [exact Hin|].
    exfalso. destruct (final _) as [[b m]|s|e]; try contradiction.
    pose proof (save_image_no_post args b m) as Hs.
    rewrite Forall_forall in Hs. exact (Hs _ Hin I).
  - rewrite (main_bad_model lib w args Hm) in Hin. destruct Hin.
Qed.

(** Whatever Python counts as false in place of the candidates has the
    same effect as their absence. *)
Lemma extract_image_no_candidates (result : list (string * json)) :
  truthy (dict_get_default result "candidates" (JArr [])) = false ->
  extract_image lib (JObj result)
  = (no_candidates_error lib (JObj result), Exit 1%Z).
Proof.
  intros H. unfold extract_image, py_get. proc. rewrite H. proc. reflexivity.
Qed.

(** A response that is not an object has no [get]: the exception is not
    caught and nothing is printed by the script itself. *)
Lemma extract_image_not_object (result : json) :
  (forall fields, result <> JObj fields) ->
  extract_image lib result = ([], Raise AttributeError).
Proof.
  intros H. unfold extract_image.
  destruct result; try reflexivity. now destruct (H fields).
Qed.

(** C8, as amended.  For every parsed API response that is a JSON object
    whose candidates entry is missing or an empty list: the script prints
    the error and then the full response on the error stream and ends
    with status 1; these two lines are the last thing it does, everything
    before the POST went to the error stream, so no file is written and
    nothing is printed on standard output. *)
Theorem no_candidates_is_fatal (args : Args) (req : request)
    (result : list (string * json)) :
  In (HttpPost req) (trace (main lib w args)) ->
  urlopen w req = HttpResponse (JObj result) ->
  dict_get result "candidates" = None \/
  dict_get result "candidates" = Some (JArr []) ->
  snd (script lib w args) = 1%Z /\
  (exists before,
      Forall is_stderr before /\
      fst (script lib w args)
      = before ++ HttpPost req :: no_candidates_error lib (JObj result)) /\
  Forall (fun ev => ~ is_write ev /\ ~ is_stdout ev) (fst (script lib w args)).
Proof.
  intros Hin Hresp Hc.
  apply main_posted in Hin. destruct Hin as (model_id & Hm & Hin).
  apply generate_image_posted in Hin.
  destruct Hin as (_ & parts & _ & _ & E).
  assert (A : after_post lib w req =
              (no_candidates_error lib (JObj result), Exit 1%Z)).
  { unfold after_post. rewrite Hresp. unfold receive. proc.
    unfold extract_image, py_get, dict_get_default.
    destruct Hc as [-> | ->]; proc; reflexivity. }
  rewrite A in E. cbn [trace final fst snd] in E.
  unfold script. rewrite (main_eq lib w args model_id Hm). cbv zeta.
  rewrite E. unfold run. cbn [trace final fst snd]. rewrite app_nil_r.
  pose proof (announce_stderr args model_id) as Ha.
  pose proof (request_parts_stderr lib w (prompt args) (reference_images args))
    as Hrp.
  split; [reflexivity|]. split.
  - exists (trace (announce args model_id)
            ++ trace (request_parts lib w (prompt args) (reference_images args))).
    split; [apply Forall_app; now split|].
    now rewrite <- app_assoc.
  - apply Forall_app. split; [|apply Forall_app; split].
    + eapply Forall_impl; [|exact Ha]. intros [] H; simpl in *; tauto.
    + eapply Forall_impl; [|exact Hrp]. intros [] H; simpl in *; tauto.
    + repeat (constructor; [simpl; tauto|]). constructor.
Qed.

End Response.

(** C8 as stated fails.  A parsed response need not be a JSON object: the
    body [[]] parses to a list, which has no candidates and no [get]
    either.  Line 176 raises [AttributeError], which nothing catches: the
    run ends with the traceback right after the POST, and neither the
    error line nor the response is printed. *)
Lemma response_without_get :
  let w := answering (HttpResponse (JArr [])) in
  let run := script sample_lib w sample_args in
  urlopen w sample_request = HttpResponse (JArr []) /\
  py_get (JArr []) "candidates" (JArr []) = Err AttributeError /\
  run = ([ Stderr "Generating image with gemini-3-pro-image-preview...";
           Stderr "Prompt: A cute robot!";
           Stderr "Aspect: 1:1, Size: 2K, Model: pro";
           HttpPost sample_request;
           Traceback AttributeError ], 1%Z) /\
  ~ In (Stderr "Error: No candidates in response") (fst run) /\
  ~ In (Stderr ("Response: " ++ json_dumps_indent sample_lib (JArr [])))
       (fst run).
Proof.
  cbv zeta. split; [reflexivity|]. split; [reflexivity|].
  split; [vm_compute; reflexivity|].
  split; vm_compute; intros H;
    repeat (destruct H as [H|H]; [discriminate H|]); exact H.
Qed.

Lemma first_inline_part_decides_witness :
  let g := generate_image sample_lib sample_world "A cute robot!" "1:1" "2K"
                          None "gemini-3-pro-image-preview" None in
  let req := build_request "gemini-3-pro-image-preview" "secret"
                           [text_part "A cute robot!"] "1:1" "2K" in
  final g = Done (gif_bytes, "image/gif") /\
  exists before,
    Forall is_stderr before /\
    trace g = before ++ [HttpPost req;
                         mime_note sample_lib (JStr "image/png") "image/gif"].
Proof.
  intros g req.
  apply (first_inline_part_decides sample_lib sample_world
           "A cute robot!" "1:1" "2K" None "gemini-3-pro-image-preview" None
           req
           [("candidates",
             JArr [JObj [("content",
                          JObj [("parts",
                                 JArr [text_part "Here it is";
                                       inline_part "image/png"
                                         (sample_b64encode gif_bytes)])])]])]
           [("content",
             JObj [("parts",
                    JArr [text_part "Here it is";
                          inline_part "image/png"
                            (sample_b64encode gif_bytes)])])]
           [("parts",
             JArr [text_part "Here it is";
                   inline_part "image/png" (sample_b64encode gif_bytes)])]
           [("inlineData",
             JObj [("mimeType", JStr "image/png");
                   ("data", JStr (sample_b64encode gif_bytes))])]
           [("mimeType", JStr "image/png");
            ("data", JStr (sample_b64encode gif_bytes))]
           [] [text_part "Here it is"] []
           (sample_b64encode gif_bytes) gif_bytes).
  - vm_compute. in_list.
  - reflexivity.
  - reflexivity.
  - reflexivity.
  - reflexivity.
  - constructor; [reflexivity|constructor].
  - reflexivity.
  - reflexivity.
  - vm_compute. reflexivity.
Defined.

Lemma no_candidates_is_fatal_witness :
  let req := build_request "gemini-3-pro-image-preview" "secret"
                           [text_part "A cute robot!"] "1:1" "2K" in
  snd (script sample_lib empty_world sample_args) = 1%Z /\
  (exists before,
      Forall is_stderr before /\
      fst (script sample_lib empty_world sample_args)
      = before ++ HttpPost req
          :: no_candidates_error sample_lib
               (JObj [("promptFeedback", JObj [])])) /\
  Forall (fun ev => ~ is_write ev /\ ~ is_stdout ev)
         (fst (script sample_lib empty_world sample_args)).
Proof.
  intros req.
  apply (no_candidates_is_fatal sample_lib empty_world sample_args req
           [("promptFeedback", JObj [])]).
  - vm_compute. in_list.
  - reflexivity.
  - left. reflexivity.
Defined.

(* ================================================================== *)
(** * The note about the extension *)
(* ================================================================== *)

Section Note.
Variable lib : PyLib.
Variable w : World.

(** When the suffix had to be replaced, the text of the final path differs
    from the text that was asked for. *)
Lemma differs_when_suffix_replaced (o ext : string) (p' : PurePath) :
  is_extension ext -> with_suffix (Path o) ext = Some p' ->
  path_suffix (Path o) <> ext ->
  differs (Some o) (path_str p') = true.
Proof.
  intros Hext Hw Hne. unfold differs.
  destruct (String.eqb_spec o (path_str p')) as [E|_]; [|reflexivity].
  exfalso. apply Hne.
  assert (Hp : Path o = p').
  { rewrite E at 1. apply Path_path_str.
    exact (with_suffix_well_formed _ _ _ (Path_well_formed o) Hext Hw). }
  rewrite Hp. exact (with_suffix_suffix _ _ _ Hext Hw).
Qed.

(** When the path asked for is written the way [pathlib] prints it and
    already has the suffix, the final path has the same text. *)
Lemma same_when_suffix_kept (o ext : string) :
  is_extension ext -> path_str (Path o) = o -> path_suffix (Path o) = ext ->
  with_suffix (Path o) ext = Some (Path o) /\
  differs (Some o) (path_str (Path o)) = false.
Proof.
  intros Hext Hn Hs. split; [now apply with_suffix_same|].
  unfold differs. rewrite Hn. now rewrite String.eqb_refl.
Qed.

(** What [save_image] does, step by step. *)
Lemma save_image_trace (args : Args) (image_bytes : bytes)
    (mime_type : string) (p : PurePath) :
  with_suffix (destination w args) (get_extension mime_type) = Some p ->
  exists rest,
    trace (save_image w args image_bytes mime_type)
    = (if differs (output args) (path_str p)
       then [extension_note (get_extension mime_type) mime_type] else [])
        ++ Mkdir (path_str (path_parent p)) :: rest /\
    (rest = [] \/
     exists rest', rest = WriteFile p image_bytes :: rest' /\
       (rest' = [] \/
        rest' = [Stderr ("Image saved: " ++ path_str p);
                 Stdout (path_str p)])).
Proof.
  intros Hp. unfold save_image. rewrite Hp. proc.
  destruct (differs _ _); destruct (mkdir_error w _);
    destruct (write_error w _); proc; eexists; (split; [reflexivity|]);
    try (now left); right; eexists; (split; [reflexivity|]);
    try (now left); now right.
Qed.

Lemma save_image_note (args : Args) (image_bytes : bytes)
    (mime_type : string) (p : PurePath) :
  with_suffix (destination w args) (get_extension mime_type) = Some p ->
  In (extension_note (get_extension mime_type) mime_type)
     (trace (save_image w args image_bytes mime_type))
  <-> differs (output args) (path_str p) = true.
Proof.
  intros Hp.
  destruct (save_image_trace args image_bytes mime_type p Hp)
    as (rest & -> & Hrest).
  destruct (differs _ _); split; intros H; try reflexivity.
  - now left.
  - exfalso. cbn [app] in H. destruct H as [H|H]; [discriminate H|].
    destruct Hrest as [->|(rest' & -> & [->| ->])]; cbn [In] in H;
      unfold extension_note in H;
      repeat (destruct H as [H|H]; [discriminate H|]); exact H.
  - discriminate H.
Qed.

Lemma extension_note_not_diagnostic (t : list event) (ext mime : string) :
  Forall is_diagnostic t -> ~ In (extension_note ext mime) t.
Proof.
  intros Ht Hin. rewrite Forall_forall in Ht. apply Ht in Hin.
  unfold extension_note, is_diagnostic in Hin. simpl in Hin.
  destruct (ext ++ _)%string in Hin; discriminate Hin.
Qed.

(** In a run of [main] that writes a file, the note about the extension
    is printed exactly when the text of the final path differs from the
    text that was asked for. *)
Lemma main_note (args : Args) (path : PurePath) (data : bytes) :
  In (WriteFile path data) (trace (main lib w args)) ->
  let mime_type := fst (detect_image_format data) in
  In (extension_note (get_extension mime_type) mime_type)
     (trace (main lib w args))
  <-> differs (output args) (path_str path) = true.
Proof.
  intros Hin mime_type. pose proof (main_write lib w args path data Hin) as Hw.
  fold mime_type in Hw.
  destruct (dict_item_cases MODELS (model args)) as [[model_id Hm]|Hm];
    [|rewrite (main_bad_model lib w args Hm) in Hin; destruct Hin].
  rewrite (main_eq lib w args model_id Hm) in *. cbv zeta in *.
  cbn [trace fst] in *.
  set (g := generate_image lib w (prompt args) (aspect args) (size args)
              (reference_images args) model_id (key args)) in *.
  pose proof (announce_diagnostic args model_id) as Ha.
  assert (Hg : forall ext mime, ~ In (extension_note ext mime) (trace g)).
  { intros ext mime Hi.
    pose proof (generate_image_events lib w (prompt args) (aspect args)
                  (size args) (reference_images args) model_id (key args))
      as He.
    fold g in He. rewrite Forall_forall in He.
    destruct (He _ Hi) as [Hd|[]].
    apply (extension_note_not_diagnostic [extension_note ext mime] ext mime);
      [now constructor|now left]. }
  assert (Hgw : ~ In (WriteFile path data) (trace g)).
  { intros Hi.
    pose proof (generate_image_events lib w (prompt args) (aspect args)
                  (size args) (reference_images args) model_id (key args))
      as He.
    fold g in He. rewrite Forall_forall in He.
    destruct (He _ Hi) as [[]|[]]. }
  assert (Haw : ~ In (WriteFile path data) (trace (announce args model_id))).
  { intros Hi. rewrite Forall_forall in Ha. exact (Ha _ Hi). }
  apply in_app_or in Hin. destruct Hin as [Hin|Hin]; [contradiction|].
  apply in_app_or in Hin. destruct Hin as [Hin|Hin]; [contradiction|].
  destruct (final g) as [[image_bytes m]|st|e] eqn:Hf; try contradiction.
  pose proof (save_image_write w args image_bytes m path data Hin) as [-> _].
  apply generate_image_sniffed in Hf. fold mime_type in Hf. subst m.
  rewrite <- (save_image_note args image_bytes mime_type path Hw).
  split.
  - intros H. apply in_app_or in H. destruct H as [H|H];
      [exfalso; exact (extension_note_not_diagnostic _ _ _ Ha H)|].
    apply in_app_or in H. destruct H as [H|H]; [exfalso; exact (Hg _ _ H)|].
    exact H.
  - intros H. apply in_or_app. right. apply in_or_app. now right.
Qed.

(** The sentence of the specification: when the extension of the path
    asked for had to be changed, the note is printed. *)
Lemma note_if_extension_changed (args : Args) (path : PurePath)
    (data : bytes) (o : string) :
  In (WriteFile path data) (trace (main lib w args)) ->
  output args = Some o -> nonempty o = true ->
  path_suffix (Path o) <> path_suffix path ->
  let mime_type := fst (detect_image_format data) in
  In (extension_note (get_extension mime_type) mime_type)
     (trace (main lib w args)).
Proof.
  intros Hin Ho Hne Hchanged mime_type.
  apply (main_note args path data Hin).
  pose proof (main_write lib w args path data Hin) as Hw.
  fold mime_type in Hw.
  assert (Hd : destination w args = Path o).
  { unfold destination. now rewrite Ho, Hne. }
  rewrite Hd in Hw. rewrite Ho.
  pose proof (get_extension_is_extension mime_type) as Hext.
  apply (differs_when_suffix_replaced o _ path Hext Hw).
  now rewrite <- (with_suffix_suffix _ _ _ Hext Hw).
Qed.

(** For a path asked for in the form [pathlib] prints it, the note is
    printed only if the extension had to be changed. *)
Lemma no_note_if_extension_kept (args : Args) (path : PurePath)
    (data : bytes) (o : string) :
  In (WriteFile path data) (trace (main lib w args)) ->
  output args = Some o -> nonempty o = true ->
  path_str (Path o) = o ->
  path_suffix (Path o) = path_suffix path ->
  let mime_type := fst (detect_image_format data) in
  ~ In (extension_note (get_extension mime_type) mime_type)
       (trace (main lib w args)).
Proof.
  intros Hin Ho Hne Hnorm Hkept mime_type Hnote.
  apply (main_note args path data Hin) in Hnote.
  pose proof (main_write lib w args path data Hin) as Hw.
  fold mime_type in Hw.
  assert (Hd : destination w args = Path o).
  { unfold destination. now rewrite Ho, Hne. }
  rewrite Hd in Hw.
  pose proof (get_extension_is_extension mime_type) as Hext.
  rewrite (with_suffix_suffix _ _ _ Hext Hw) in Hkept.
  destruct (same_when_suffix_kept o _ Hext Hnorm Hkept) as [Hsame Hdiff].
  rewrite Hsame in Hw. injection Hw as <-.
  rewrite Ho, Hdiff in Hnote. discriminate Hnote.
Qed.

(** Without a path asked for, the note is always printed. *)
Lemma note_if_no_output (args : Args) (path : PurePath) (data : bytes) :
  In (WriteFile path data) (trace (main lib w args)) ->
  output args = None ->
  let mime_type := fst (detect_image_format data) in
  In (extension_note (get_extension mime_type) mime_type)
     (trace (main lib w args)).
Proof.
  intros Hin Ho mime_type. apply (main_note args path data Hin).
  now rewrite Ho.
Qed.

(** C9, as amended.  In a run that writes a file to a path the caller
    asked for: whenever the extension of the final path was changed from
    the one asked for, the note is emitted on the error stream; and when
    the path asked for is written in the form [pathlib] prints it, the
    note is emitted if and only if the extension was changed, so that no
    note is emitted when that path already carries the sniffed
    extension. *)
Theorem extension_note_emitted (args : Args) (path : PurePath) (data : bytes)
    (o : string) :
  In (WriteFile path data) (trace (main lib w args)) ->
  output args = Some o -> nonempty o = true ->
  let mime_type := fst (detect_image_format data) in
  let note := extension_note (get_extension mime_type) mime_type in
  (path_suffix (Path o) <> path_suffix path ->
     In note (trace (main lib w args))) /\
  (path_str (Path o) = o ->
     (In note (trace (main lib w args))
      <-> path_suffix (Path o) <> path_suffix path)).
Proof.
  intros Hin Ho Hne mime_type note. split.
  - intros Hchanged.
    exact (note_if_extension_changed args path data o Hin Ho Hne Hchanged).
  - intros Hnorm. split.
    + intros Hnote Hkept.
      exact (no_note_if_extension_kept args path data o Hin Ho Hne Hnorm
               Hkept Hnote).
    + intros Hchanged.
      exact (note_if_extension_changed args path data o Hin Ho Hne Hchanged).
Qed.

End Note.

(** C9 as stated fails.  The caller asks for [./robot.png] and the image
    is a PNG: the path asked for already carries the sniffed extension
    and the file is written under that extension, yet the note about the
    extension is printed, because line 305 compares the text the caller
    typed with the text of the final path as [pathlib] prints it,
    [robot.png]. *)
Lemma note_printed_for_unchanged_extension :
  let requested_path := Path "./robot.png" in
  let run := script sample_lib png_world sample_args in
  get_extension (fst (detect_image_format png_bytes)) = ".png" /\
  path_suffix requested_path = ".png" /\
  In (WriteFile (mkPath EmptyString ["robot.png"]) png_bytes) (fst run) /\
  path_suffix (mkPath EmptyString ["robot.png"]) = path_suffix requested_path /\
  path_str (mkPath EmptyString ["robot.png"]) = "robot.png" /\
  In (Stderr "Note: Using .png extension (actual format: image/png)")
     (fst run) /\
  snd run = 0%Z.
Proof.
  cbv zeta. repeat apply conj; try reflexivity; vm_compute; in_list.
Qed.

Lemma no_note_for_plain_path :
  let run := script sample_lib png_world
                    (with_output (Some "robot.png") sample_args) in
  In (WriteFile (mkPath EmptyString ["robot.png"]) png_bytes) (fst run) /\
  ~ In (Stderr "Note: Using .png extension (actual format: image/png)")
       (fst run).
Proof.
  split.
  - vm_compute. in_list.
  - vm_compute. intros H.
    repeat (destruct H as [H|H]; [discriminate H|]). exact H.
Qed.

Lemma extension_note_emitted_witness :
  let changed := with_output (Some "robot.png") sample_args in
  In (extension_note ".gif" "image/gif")
     (trace (main sample_lib sample_world changed)) /\
  ~ In (extension_note ".png" "image/png")
       (trace (main sample_lib png_world changed)).
Proof.
  intros changed.
  assert (Hgif : In (WriteFile (mkPath EmptyString ["robot.gif"]) gif_bytes)
                    (trace (main sample_lib sample_world changed)))
    by (vm_compute; in_list).
  assert (Hpng : In (WriteFile (mkPath EmptyString ["robot.png"]) png_bytes)
                    (trace (main sample_lib png_world changed)))
    by (vm_compute; in_list).
  destruct (extension_note_emitted sample_lib sample_world changed _ _
              "robot.png" Hgif eq_refl eq_refl) as [H1 _].
  destruct (extension_note_emitted sample_lib png_world changed _ _
              "robot.png" Hpng eq_refl eq_refl) as [_ H2].
  split.
  - apply H1. vm_compute. discriminate.
  - intros Hnote. apply (proj1 (H2 eq_refl)) in Hnote. apply Hnote.
    reflexivity.
Defined.

(* ================================================================== *)
(** * The slug *)
(* ================================================================== *)

Section Slug.

Local Abbreviation chars_of := list_ascii_of_string.

(** A statement about every character, checked on all 256 of them. *)
Ltac all_chars c :=
  destruct c as [b0 b1 b2 b3 b4 b5 b6 b7];
  destruct b0, b1, b2, b3, b4, b5, b6, b7; vm_compute; reflexivity.

Lemma isspace_lower (c : ascii) : isspace (lower_char c) = isspace c.
Proof. all_chars c. Qed.

Lemma keep_char_lower (c : ascii) : keep_char (lower_char c) = keep_char c.
Proof. all_chars c. Qed.

Lemma hyphen_or_space_lower (c : ascii) :
  hyphen_or_space (lower_char c) = hyphen_or_space c.
Proof. all_chars c. Qed.



Lemma is_hyphen_eq (c : ascii) : is_hyphen c = true -> c = "-"%char.
Proof.
  destruct c as [b0 b1 b2 b3 b4 b5 b6 b7];
    destruct b0, b1, b2, b3, b4, b5, b6, b7; vm_compute;
    intros H; try discriminate H; reflexivity.
Qed.

Lemma is_slash_keep (c : ascii) : keep_char c = true -> is_slash c = false.
Proof.
  destruct c as [b0 b1 b2 b3 b4 b5 b6 b7];
    destruct b0, b1, b2, b3, b4, b5, b6, b7; vm_compute;
    intros H; try discriminate H; reflexivity.
Qed.

Lemma is_dot_keep (c : ascii) : keep_char c = true -> is_dot c = false.
Proof.
  destruct c as [b0 b1 b2 b3 b4 b5 b6 b7];
    destruct b0, b1, b2, b3, b4, b5, b6, b7; vm_compute;
    intros H; try discriminate H; reflexivity.
Qed.

(** ** Each step of the script, on the list of characters *)

Lemma chars_of_lower (s : string) :
  chars_of (lower s) = map lower_char (chars_of s).
Proof. induction s as [|c s IH]; simpl; [reflexivity|now rewrite IH]. Qed.

Lemma chars_of_re_sub_class (s : string) :
  chars_of (re_sub_class not_word_space_hyphen EmptyString s)
  = filter keep_char (chars_of s).
Proof.
  induction s as [|c s IH]; [reflexivity|].
  cbn [re_sub_class list_ascii_of_string filter].
  unfold not_word_space_hyphen at 1. fold (keep_char c).
  destruct (keep_char c); cbn [negb]; simpl; now rewrite IH.
Qed.

Lemma chars_of_lstrip (s : string) :
  chars_of (lstrip s) = drop_spaces (chars_of s).
Proof.
  induction s as [|c s IH]; [reflexivity|].
  cbn [lstrip list_ascii_of_string drop_spaces].
  destruct (isspace c); [exact IH|reflexivity].
Qed.

Lemma drop_spaces_app (a b : list ascii) :
  drop_spaces (a ++ b)
  = match drop_spaces a with
    | [] => drop_spaces b
    | r => r ++ b
    end.
Proof.
  induction a as [|c a IH]; [reflexivity|].
  cbn [app drop_spaces]. destruct (isspace c); [exact IH|reflexivity].
Qed.

Lemma chars_of_rstrip (s : string) :
  chars_of (rstrip s) = rev (drop_spaces (rev (chars_of s))).
Proof.
  induction s as [|c s IH]; [reflexivity|].
  cbn [rstrip list_ascii_of_string rev].
  rewrite drop_spaces_app.
  destruct (rstrip s) as [|x r] eqn:E.
  - cbn [list_ascii_of_string] in IH.
    destruct (drop_spaces (rev (chars_of s))) as [|y t] eqn:D.
    + cbn [drop_spaces]. destruct (isspace c); reflexivity.
    + exfalso. cbn [rev] in IH. symmetry in IH.
      apply app_eq_nil in IH. destruct IH as [_ IH]. discriminate IH.
  - destruct (drop_spaces (rev (chars_of s))) as [|y t] eqn:D.
    + discriminate IH.
    + rewrite rev_app_distr. cbn [rev app list_ascii_of_string].
      cbn [rev list_ascii_of_string] in IH. now rewrite IH.
Qed.

Lemma chars_of_strip (s : string) : chars_of (strip s) = trim (chars_of s).
Proof. unfold strip, trim. now rewrite chars_of_rstrip, chars_of_lstrip. Qed.

Lemma chars_of_re_sub_runs_from (s : string) (prev : option ascii) :
  chars_of (re_sub_runs_from hyphen_or_space "-" (in_run_after prev) s)
  = collapse prev (chars_of s).
Proof.
  revert prev. induction s as [|c s IH]; intros prev; [reflexivity|].
  cbn [re_sub_runs_from list_ascii_of_string collapse].
  destruct (hyphen_or_space c) eqn:Hc.
  - assert (E : in_run_after (Some c) = true) by exact Hc.
    rewrite <- (IH (Some c)), E.
    destruct prev as [p|]; cbn [in_run_after];
      [destruct (hyphen_or_space p)|]; reflexivity.
  - assert (E : in_run_after (Some c) = false) by exact Hc.
    rewrite <- (IH (Some c)), E. reflexivity.
Qed.

Lemma chars_of_take (n : nat) (s : string) :
  chars_of (take n s) = firstn n (chars_of s).
Proof.
  unfold take. revert n. induction s as [|c s IH]; intros [|n]; simpl;
    try reflexivity. now rewrite IH.
Qed.

(** ** Lowercasing commutes with the steps that look at classes *)

Lemma filter_keep_lower (l : list ascii) :
  filter keep_char (map lower_char l) = map lower_char (filter keep_char l).
Proof.
  induction l as [|c l IH]; [reflexivity|].
  cbn [map filter]. rewrite keep_char_lower.
  destruct (keep_char c); cbn [map]; now rewrite IH.
Qed.

Lemma drop_spaces_lower (l : list ascii) :
  drop_spaces (map lower_char l) = map lower_char (drop_spaces l).
Proof.
  induction l as [|c l IH]; [reflexivity|].
  cbn [map drop_spaces]. rewrite isspace_lower.
  destruct (isspace c); [exact IH|reflexivity].
Qed.

Lemma trim_lower (l : list ascii) :
  trim (map lower_char l) = map lower_char (trim l).
Proof.
  unfold trim.
  now rewrite drop_spaces_lower, <- map_rev, drop_spaces_lower, map_rev.
Qed.

(** The slug of the script is the slug of the description. *)
Lemma slug_of_prompt_described (prompt : string) :
  slug_of_prompt prompt = slug_described prompt.
Proof.
  unfold slug_of_prompt, slug_described. cbv zeta.
  rewrite filter_keep_lower, trim_lower.
  rewrite <- chars_of_re_sub_class, <- chars_of_strip, <- chars_of_lower.
  change (re_sub_runs hyphen_or_space "-" ?s)
    with (re_sub_runs_from hyphen_or_space "-" (in_run_after None) s).
  rewrite <- chars_of_re_sub_runs_from, <- chars_of_take.
  destruct (take 50 _) as [|c t]; [reflexivity|].
  cbn [str_or]. symmetry. apply string_of_list_ascii_of_string.
Qed.

(** ** The characters of a slug *)

Lemma Forall_firstn {X : Type} (P : X -> Prop) (n : nat) (l : list X) :
  Forall P l -> Forall P (firstn n l).
Proof.
  intros H. revert n. induction H as [|x l Hx Hl IH]; intros [|n]; simpl;
    constructor; auto.
Qed.

Lemma Forall_drop_spaces (P : ascii -> Prop) (l : list ascii) :
  Forall P l -> Forall P (drop_spaces l).
Proof.
  induction 1 as [|c l Hc Hl IH]; cbn [drop_spaces]; [constructor|].
  destruct (isspace c); [exact IH|now constructor].
Qed.

Lemma Forall_trim (P : ascii -> Prop) (l : list ascii) :
  Forall P l -> Forall P (trim l).
Proof.
  intros H. unfold trim.
  apply Forall_rev, Forall_drop_spaces, Forall_rev, Forall_drop_spaces, H.
Qed.

Lemma Forall_collapse (P : ascii -> Prop) (l : list ascii) :
  P "-"%char -> Forall P l -> forall prev, Forall P (collapse prev l).
Proof.
  intros Hh. induction 1 as [|c l Hc Hl IH]; intros prev;
    cbn [collapse]; [constructor|].
  destruct (hyphen_or_space c).
  - destruct prev as [p|]; [destruct (hyphen_or_space p)|];
      try constructor; auto.
  - constructor; auto.
Qed.

(** Every character of the collapsed list was kept by the filter. *)
Lemma slug_chars_kept (prompt : string) :
  Forall (fun c => keep_char c = true)
    (firstn 50 (collapse None
       (trim (filter keep_char (map lower_char (chars_of prompt)))))).
Proof.
  apply Forall_firstn, Forall_collapse; [reflexivity|].
  apply Forall_trim. apply Forall_forall. intros c Hc.
  apply filter_In in Hc. tauto.
Qed.

Lemma has_slash_chars (s : string) :
  has_slash s = existsb is_slash (chars_of s).
Proof. induction s as [|c s IH]; simpl; [reflexivity|now rewrite IH]. Qed.

Lemma existsb_false_Forall (P : ascii -> bool) (l : list ascii) :
  Forall (fun c => P c = false) l -> existsb P l = false.
Proof. induction 1 as [|c l Hc Hl IH]; simpl; [reflexivity|now rewrite Hc]. Qed.

Lemma slug_no_slash (prompt : string) :
  has_slash (slug_of_prompt prompt) = false.
Proof.
  rewrite slug_of_prompt_described. unfold slug_described. cbv zeta.
  pose proof (slug_chars_kept prompt) as H.
  destruct (firstn 50 _) as [|c l]; [reflexivity|].
  rewrite has_slash_chars, list_ascii_of_string_of_list_ascii.
  apply existsb_false_Forall.
  eapply Forall_impl; [|exact H]. intros a. apply is_slash_keep.
Qed.

Lemma slug_nonempty (prompt : string) : slug_of_prompt prompt <> EmptyString.
Proof.
  unfold slug_of_prompt. cbv zeta. destruct (take 50 _); discriminate.
Qed.

Lemma slug_length (prompt : string) :
  String.length (slug_of_prompt prompt) <= 50.
Proof.
  unfold slug_of_prompt. cbv zeta.
  destruct (take 50 _) as [|c t] eqn:E; [simpl; lia|].
  cbn [str_or]. rewrite <- E, length_take. apply Nat.le_min_l.
Qed.



(** ** The file name and the destination *)

Lemma uint_no_slash (d : Decimal.uint) :
  has_slash (DecimalString.NilEmpty.string_of_uint d) = false.
Proof. induction d; simpl; auto. Qed.

Lemma str_of_int_no_slash (n : Z) : has_slash (str_of_int n) = false.
Proof.
  unfold str_of_int, DecimalString.NilZero.string_of_int,
    DecimalString.NilZero.string_of_uint.
  destruct (Z.to_int n) as [d|d]; cbn [has_slash is_slash]; cbn [orb];
    (destruct d; [reflexivity|apply (uint_no_slash (_ d))..]).
Qed.

Lemma leading_slashes_plain (s : string) :
  has_slash s = false -> leading_slashes s = 0.
Proof.
  destruct s as [|c s]; [reflexivity|].
  cbn [has_slash leading_slashes]. intros H. apply orb_false_iff in H.
  destruct H as [Hc _]. now rewrite Hc.
Qed.

(** A plain name of two characters or more is a path of one component. *)
Lemma Path_plain (s : string) :
  has_slash s = false -> 2 <= String.length s -> Path s = mkPath EmptyString [s].
Proof.
  intros Hs Hl. unfold Path.
  rewrite (leading_slashes_plain s Hs), (split_slash_plain s Hs).
  cbn [Nat.eqb filter].
  replace (kept_component s) with true; [reflexivity|].
  symmetry. unfold kept_component. apply andb_true_iff.
  split; apply negb_true_iff, String.eqb_neq; intros ->; simpl in Hl; lia.
Qed.

Lemma auto_filename_plain (prompt : string) (timestamp : Z) :
  has_slash (auto_filename prompt timestamp) = false /\
  2 <= String.length (auto_filename prompt timestamp).
Proof.
  unfold auto_filename. split.
  - rewrite !has_slash_app, slug_no_slash, str_of_int_no_slash.
    reflexivity.
  - rewrite !length_append.
    pose proof (slug_nonempty prompt) as H.
    destruct (slug_of_prompt prompt); [congruence|]. simpl. lia.
Qed.

Lemma auto_destination (prompt : string) (timestamp : Z) :
  path_div (Path "generated") (auto_filename prompt timestamp)
  = mkPath EmptyString ["generated"; auto_filename prompt timestamp].
Proof.
  destruct (auto_filename_plain prompt timestamp) as [Hs Hl].
  unfold path_div. rewrite (Path_plain _ Hs Hl). reflexivity.
Qed.

End Slug.




(* ================================================================== *)
(** * Further properties of the sniffer *)
(* ================================================================== *)

Section SnifferMore.

Ltac clash H1 H2 :=
  exfalso; pose proof (starts_with_head _ _ _ _ _ H1 H2) as E; discriminate E.

Lemma slice_firstn (i j n : nat) (b : bytes) :
  j <= n -> slice i j (firstn n b) = slice i j b.
Proof.
  intros H. unfold slice. rewrite skipn_firstn_comm, firstn_firstn.
  f_equal. lia.
Qed.

(** The sniffer looks at the first twelve bytes and at nothing else: two
    buffers that agree there are classified alike, whatever follows. *)
Theorem detect_image_format_first_twelve (b b' : bytes) :
  firstn 12 b = firstn 12 b' ->
  detect_image_format b = detect_image_format b'.
Proof.
  intros H.
  assert (E : forall i j, j <= 12 -> slice i j b = slice i j b').
  { intros i j Hj.
    rewrite <- (slice_firstn i j 12 b Hj), <- (slice_firstn i j 12 b' Hj).
    now rewrite H. }
  unfold detect_image_format.
  rewrite (E 0 8), (E 0 2), (E 0 4), (E 8 12), (E 0 6) by lia.
  reflexivity.
Qed.

Lemma detect_image_format_first_twelve_witness :
  detect_image_format (png_bytes ++ [x49; x48])
  = detect_image_format (png_bytes ++ [xff; xd8; xff]).
Proof.
  apply detect_image_format_first_twelve. reflexivity.
Defined.

(** The sniffer is exact: a format other than the default is reported
    only for a buffer that carries its signature, and the PNG pair is
    reported only for a PNG signature or for a buffer that carries none
    of the other three. *)
Theorem detect_image_format_exact (b : bytes) :
  (detect_image_format b = ("image/jpeg", ".jpg")
   <-> starts_with JPEG_SIGNATURE b) /\
  (detect_image_format b = ("image/webp", ".webp")
   <-> starts_with (b_lit "RIFF") b /\ has_at 8 (b_lit "WEBP") b) /\
  (detect_image_format b = ("image/gif", ".gif")
   <-> starts_with (b_lit "GIF87a") b \/ starts_with (b_lit "GIF89a") b) /\
  (detect_image_format b = ("image/png", ".png")
   <-> starts_with PNG_SIGNATURE b \/
       (~ starts_with JPEG_SIGNATURE b /\
        ~ (starts_with (b_lit "RIFF") b /\ has_at 8 (b_lit "WEBP") b) /\
        ~ (starts_with (b_lit "GIF87a") b \/ starts_with (b_lit "GIF89a") b))).
Proof.
  pose proof (prefix_test 8 PNG_SIGNATURE b eq_refl) as Tpng.
  pose proof (prefix_test 2 JPEG_SIGNATURE b eq_refl) as Tjpg.
  pose proof (prefix_test 4 (b_lit "RIFF") b eq_refl) as Triff.
  pose proof (webp_test b) as Twebp.
  pose proof (prefix_test 6 (b_lit "GIF87a") b eq_refl) as Tg87.
  pose proof (prefix_test 6 (b_lit "GIF89a") b eq_refl) as Tg89.
  assert (Xpj : starts_with PNG_SIGNATURE b -> starts_with JPEG_SIGNATURE b
                -> False) by (intros H1 H2; clash H1 H2).
  assert (Xpr : starts_with PNG_SIGNATURE b -> starts_with (b_lit "RIFF") b
                -> False) by (intros H1 H2; clash H1 H2).
  assert (Xp7 : starts_with PNG_SIGNATURE b -> starts_with (b_lit "GIF87a") b
                -> False) by (intros H1 H2; clash H1 H2).
  assert (Xp9 : starts_with PNG_SIGNATURE b -> starts_with (b_lit "GIF89a") b
                -> False) by (intros H1 H2; clash H1 H2).
  assert (Xjr : starts_with JPEG_SIGNATURE b -> starts_with (b_lit "RIFF") b
                -> False) by (intros H1 H2; clash H1 H2).
  assert (Xj7 : starts_with JPEG_SIGNATURE b -> starts_with (b_lit "GIF87a") b
                -> False) by (intros H1 H2; clash H1 H2).
  assert (Xj9 : starts_with JPEG_SIGNATURE b -> starts_with (b_lit "GIF89a") b
                -> False) by (intros H1 H2; clash H1 H2).
  assert (Xr7 : starts_with (b_lit "RIFF") b -> starts_with (b_lit "GIF87a") b
                -> False) by (intros H1 H2; clash H1 H2).
  assert (Xr9 : starts_with (b_lit "RIFF") b -> starts_with (b_lit "GIF89a") b
                -> False) by (intros H1 H2; clash H1 H2).
  unfold detect_image_format. cbn [existsb].
  destruct (bytes_eqb (slice 0 8 b) PNG_SIGNATURE);
    destruct (bytes_eqb (slice 0 2 b) JPEG_SIGNATURE);
    destruct (bytes_eqb (slice 0 4 b) (b_lit "RIFF"));
    destruct (bytes_eqb (slice 8 12 b) (b_lit "WEBP"));
    destruct (bytes_eqb (slice 0 6 b) (b_lit "GIF87a"));
    destruct (bytes_eqb (slice 0 6 b) (b_lit "GIF89a"));
    cbn [andb orb];
    repeat split; intros; try discriminate; try tauto;
    intuition (try discriminate; try congruence).
Qed.

End SnifferMore.

Lemma detect_image_format_exact_witness :
  starts_with JPEG_SIGNATURE [xff; xd8; xff; xe0] /\
  detect_image_format gif_bytes = ("image/gif", ".gif") /\
  ~ starts_with (b_lit "GIF87a") (b_lit "BM6").
Proof.
  split; [|split].
  - apply (proj1 (proj1 (detect_image_format_exact [xff; xd8; xff; xe0]))).
    reflexivity.
  - apply (proj2 (proj1 (proj2 (proj2 (detect_image_format_exact gif_bytes))))).
    right. exists [x01; x00; x01; x00]. reflexivity.
  - intros H.
    assert (G : detect_image_format (b_lit "BM6") = ("image/gif", ".gif")).
    { apply (proj2 (proj1 (proj2 (proj2
               (detect_image_format_exact (b_lit "BM6")))))).
      now left. }
    discriminate G.
Defined.

(* ================================================================== *)
(** * The shape of a run *)
(* ================================================================== *)

Section RunShape.
Variable lib : PyLib.
Variable w : World.

(** ** Computations that return or stop *)

Lemma returns_or_stops_bind {A B : Type} (m : M A) (f : A -> M B) :
  returns_or_stops m ->
  (forall a, final m = Done a -> returns_or_stops (f a)) ->
  returns_or_stops (bind m f).
Proof.
  unfold returns_or_stops, stops. rewrite final_bind.
  intros [[a Ha]|[Hs|[e He]]] Hf.
  - rewrite Ha. now apply Hf.
  - rewrite Hs. right. now left.
  - rewrite He. right. right. now exists e.
Qed.

Lemma returns_or_stops_eval {A : Type} (r : result A) :
  returns_or_stops (eval r).
Proof.
  destruct r as [a|e]; [left; now exists a|right; right; now exists e].
Qed.

Lemma returns_or_stops_ret {A : Type} (a : A) : returns_or_stops (ret a).
Proof. left. now exists a. Qed.

Lemma returns_or_stops_emit (ev : event) : returns_or_stops (emit ev).
Proof. left. now exists tt. Qed.

Lemma returns_or_stops_exit {A : Type} : returns_or_stops (@sys_exit A 1).
Proof. right. now left. Qed.

Lemma returns_or_stops_raise {A : Type} (e : exception) :
  returns_or_stops (@raise A e).
Proof. right. right. now exists e. Qed.

(** Goals [returns_or_stops m] for a process built from the primitives. *)
Ltac ends_well :=
  repeat first
    [ apply returns_or_stops_ret
    | apply returns_or_stops_eval
    | apply returns_or_stops_exit
    | apply returns_or_stops_raise
    | apply returns_or_stops_emit
    | unfold print_err, print_out; apply returns_or_stops_emit
    | apply returns_or_stops_bind; [|intros ? ?]
    | match goal with
      | |- returns_or_stops (if ?c then _ else _) => destruct c
      | |- returns_or_stops (match ?x with _ => _ end) => destruct x
      end ].

Lemma find_image_final (parts : list json) :
  returns_or_stops (find_image lib parts).
Proof.
  induction parts as [|part rest IH]; cbn [find_image]; [ends_well|].
  apply returns_or_stops_bind; [ends_well|]. intros [|] _; [ends_well|exact IH].
Qed.

Lemma report_text_final (parts : list json) :
  returns_or_stops (report_text lib parts).
Proof.
  induction parts as [|part rest IH]; cbn [report_text]; [ends_well|].
  apply returns_or_stops_bind; [ends_well|]. intros has _.
  apply returns_or_stops_bind; [destruct has; ends_well|]. intros _ _. exact IH.
Qed.

Lemma extract_image_final (result : json) :
  returns_or_stops (extract_image lib result).
Proof.
  unfold extract_image.
  do 6 (apply returns_or_stops_bind; [ends_well|intros ? _]).
  apply returns_or_stops_bind; [apply find_image_final|]. intros [image|] _.
  - ends_well.
  - apply returns_or_stops_bind; [apply report_text_final|]. intros _ _.
    ends_well.
Qed.

Lemma after_post_final (req : request) :
  returns_or_stops (after_post lib w req).
Proof.
  unfold after_post. apply returns_or_stops_bind.
  - unfold receive. destruct (urlopen w req); ends_well.
  - intros result _. apply extract_image_final.
Qed.

(** ** [save_image], case by case *)

Lemma save_image_cases (args : Args) (image_bytes : bytes)
    (mime_type : string) :
  match with_suffix (destination w args) (get_extension mime_type) with
  | None => save_image w args image_bytes mime_type = ([], Raise ValueError)
  | Some p =>
      let note := if differs (output args) (path_str p)
                  then [extension_note (get_extension mime_type) mime_type]
                  else [] in
      let parent := path_str (path_parent p) in
      save_image w args image_bytes mime_type =
      match mkdir_error w parent with
      | Some e => (note ++ [Mkdir parent], Raise e)
      | None =>
          match write_error w (path_str p) with
          | Some e => (note ++ [Mkdir parent; WriteFile p image_bytes], Raise e)
          | None =>
              (note ++ [Mkdir parent; WriteFile p image_bytes] ++ saved_lines p,
               Done tt)
          end
      end
  end.
Proof.
  unfold save_image.
  destruct (with_suffix (destination w args) (get_extension mime_type))
    as [p|]; [|reflexivity].
  proc.
  destruct (differs _ _); destruct (mkdir_error w _);
    destruct (write_error w _); proc; reflexivity.
Qed.

(** ** [main], from the POST on *)

Lemma main_from_post (args : Args) (req : request) :
  In (HttpPost req) (trace (main lib w args)) ->
  exists before,
    Forall is_diagnostic before /\
    main lib w args =
    (before ++ HttpPost req
       :: trace (after_post lib w req)
       ++ match final (after_post lib w req) with
          | Done (image_bytes, mime_type) =>
              trace (save_image w args image_bytes mime_type)
          | _ => []
          end,
     match final (after_post lib w req) with
     | Done (image_bytes, mime_type) =>
         final (save_image w args image_bytes mime_type)
     | Exit status => Exit status
     | Raise e => Raise e
     end).
Proof.
  intros Hin. apply main_posted in Hin. destruct Hin as (model_id & Hm & Hin).
  apply generate_image_posted in Hin.
  destruct Hin as (_ & parts & _ & _ & E).
  rewrite (main_eq lib w args model_id Hm). cbv zeta. rewrite E.
  cbn [trace final fst snd].
  exists (trace (announce args model_id)
          ++ trace (request_parts lib w (prompt args) (reference_images args))).
  split.
  - apply Forall_app. split;
      [apply announce_diagnostic|apply request_parts_diagnostic].
  - f_equal. rewrite <- !app_assoc. reflexivity.
Qed.

(** ** [main], in general *)

Lemma main_shape (args : Args) :
  (exists t, before_saving t /\
     (main lib w args = (t, Exit 1%Z) \/
      exists e, main lib w args = (t, Raise e)))
  \/
  (exists t image_bytes mime_type,
     before_saving t /\
     mime_type = fst (detect_image_format image_bytes) /\
     main lib w args =
     (t ++ trace (save_image w args image_bytes mime_type),
      final (save_image w args image_bytes mime_type))).
Proof.
  destruct (dict_item_cases MODELS (model args)) as [[model_id Hm]|Hm].
  2:{ left. exists []. split; [apply bs_quiet; constructor|].
      right. exists KeyError. now apply main_bad_model. }
  rewrite (main_eq lib w args model_id Hm). cbv zeta.
  pose proof (announce_diagnostic args model_id) as Ha.
  pose proof (request_parts_diagnostic lib w (prompt args)
                (reference_images args)) as Hrp.
  pose proof (generate_image_sniffed lib w (prompt args) (aspect args)
                (size args) (reference_images args) model_id (key args))
    as Hsn.
  destruct (generate_image_cases lib w (prompt args) (aspect args)
              (size args) (reference_images args) model_id (key args))
    as [[_ E]|[(_ & _ & Et & Ef)|(_ & parts & _ & E)]]; cbv zeta in *.
  - left. rewrite E. cbn [trace final fst snd].
    exists (trace (announce args model_id) ++ configuration_error). split.
    + apply bs_quiet. apply Forall_app. split; [exact Ha|].
      repeat (constructor; [reflexivity|]). constructor.
    + left. now rewrite app_nil_r.
  - left. exists (trace (announce args model_id)
                  ++ trace (request_parts lib w (prompt args)
                              (reference_images args))).
    split; [apply bs_quiet, Forall_app; now split|].
    rewrite Et. destruct Ef as [[_ Eg]|[e [_ Eg]]]; rewrite Eg;
      rewrite app_nil_r; [now left|right; now exists e].
  - set (req := build_request model_id _ parts _ _) in *.
    assert (Hb : before_saving
                   ((trace (announce args model_id)
                     ++ trace (request_parts lib w (prompt args)
                                 (reference_images args)))
                      ++ HttpPost req :: trace (after_post lib w req))).
    { apply bs_posted; [apply Forall_app; now split|].
      apply after_post_diagnostic. }
    rewrite E in Hsn |- *. cbn [trace final fst snd] in *.
    destruct (after_post_final req) as [[[b m] Hd]|[Hs|[e He]]].
    + right. exists ((trace (announce args model_id)
                      ++ trace (request_parts lib w (prompt args)
                                  (reference_images args)))
                       ++ HttpPost req :: trace (after_post lib w req)),
        b, m.
      split; [exact Hb|]. split; [now apply Hsn|].
      rewrite Hd. f_equal. now rewrite <- !app_assoc.
    + left. eexists. split; [exact Hb|]. left. rewrite Hs.
      f_equal. now rewrite app_nil_r, <- !app_assoc.
    + left. eexists. split; [exact Hb|]. right. exists e. rewrite He.
      f_equal. now rewrite app_nil_r, <- !app_assoc.
Qed.

Lemma before_saving_events (t : list event) :
  before_saving t -> Forall (fun ev => is_stderr ev \/ is_post ev) t.
Proof.
  intros [t0 H|t0 t1 req H0 H1].
  - eapply Forall_impl; [|exact (diagnostic_is_stderr _ H)]. tauto.
  - apply Forall_app. split.
    + eapply Forall_impl; [|exact (diagnostic_is_stderr _ H0)]. tauto.
    + constructor; [right; exact I|].
      eapply Forall_impl; [|exact (diagnostic_is_stderr _ H1)]. tauto.
Qed.

(** The five ways a run of the script can go. *)
Lemma script_cases (args : Args) :
  exists t,
    before_saving t /\
    (script lib w args = (t, 1%Z)
     \/ (exists e, script lib w args = (t ++ [Traceback e], 1%Z))
     \/ (exists image_bytes p note,
           with_suffix (destination w args)
             (get_extension (fst (detect_image_format image_bytes))) = Some p /\
           (note = [] \/
            note = [extension_note
                      (get_extension (fst (detect_image_format image_bytes)))
                      (fst (detect_image_format image_bytes))]) /\
           ((exists e,
                mkdir_error w (path_str (path_parent p)) = Some e /\
                script lib w args =
                (t ++ note ++ [Mkdir (path_str (path_parent p)); Traceback e],
                 1%Z))
            \/ (exists e,
                  mkdir_error w (path_str (path_parent p)) = None /\
                  write_error w (path_str p) = Some e /\
                  script lib w args =
                  (t ++ note ++ [Mkdir (path_str (path_parent p));
                                 WriteFile p image_bytes; Traceback e],
                   1%Z))
            \/ (mkdir_error w (path_str (path_parent p)) = None /\
                write_error w (path_str p) = None /\
                script lib w args =
                (t ++ note ++ [Mkdir (path_str (path_parent p));
                               WriteFile p image_bytes] ++ saved_lines p,
                 0%Z))))).
Proof.
  unfold script.
  destruct (main_shape args)
    as [(t & Hb & [E|[e E]])|(t & b & m & Hb & -> & E)];
    rewrite E; clear E; unfold run; cbn [final trace fst snd].
  - exists t. split; [exact Hb|]. now left.
  - exists t. split; [exact Hb|]. right. left. now exists e.
  - exists t. split; [exact Hb|].
    pose proof (save_image_cases args b (fst (detect_image_format b))) as C.
    destruct (with_suffix (destination w args)
                (get_extension (fst (detect_image_format b)))) as [p|] eqn:Hp.
    + cbv zeta in C. right. right.
      exists b, p,
        (if differs (output args) (path_str p)
         then [extension_note
                 (get_extension (fst (detect_image_format b)))
                 (fst (detect_image_format b))]
         else []).
      split; [exact Hp|].
      split; [destruct (differs _ _); [now right|now left]|].
      rewrite C. clear C.
      destruct (mkdir_error w (path_str (path_parent p))) as [e|] eqn:Hmk;
        [|destruct (write_error w (path_str p)) as [e|] eqn:Hwr];
        cbn [final trace fst snd].
      * left. exists e. split; [reflexivity|].
        f_equal. now rewrite <- !app_assoc.
      * right. left. exists e. split; [reflexivity|]. split; [reflexivity|].
        f_equal. now rewrite <- !app_assoc.
      * right. right. split; [reflexivity|]. split; [reflexivity|].
        reflexivity.
    + rewrite C. cbn [final trace fst snd]. right. left.
      exists ValueError. now rewrite app_nil_r.
Qed.

End RunShape.

(* ================================================================== *)
(** * Further properties of a run *)
(* ================================================================== *)

Section RunMore.
Variable lib : PyLib.
Variable w : World.

(** A list of events given in full has a property of kinds of events. *)
Ltac kinds :=
  repeat (apply Forall_cons; [cbn; try unfold extension_note; cbn; tauto|]);
  apply Forall_nil.

Lemma saving_no_post (args : Args) :
  exists t tail,
    before_saving t /\
    fst (script lib w args) = t ++ tail /\
    Forall (fun ev => ~ is_post ev) tail.
Proof.
  destruct (script_cases lib w args)
    as (t & Hb & [E|[[e E]|(b & p & note & _ & Hn & C)]]).
  - exists t, []. rewrite E. cbn [fst]. rewrite app_nil_r.
    split; [exact Hb|]. split; [reflexivity|constructor].
  - exists t, [Traceback e]. rewrite E.
    split; [exact Hb|]. split; [reflexivity|kinds].
  - destruct C as [(e & _ & E)|[(e & _ & _ & E)|(_ & _ & E)]];
      rewrite E; cbn [fst]; eexists t, _; (split; [exact Hb|]);
      (split; [reflexivity|]);
      destruct Hn as [->| ->]; cbn [app saved_lines]; kinds.
Qed.

(** The script posts at most once, and whatever it does before the POST is
    printing on the error stream: nothing is written, created or printed
    on standard output before the request, and no second request
    follows. *)
Theorem at_most_one_post (args : Args) :
  let t := fst (script lib w args) in
  Forall (fun ev => ~ is_post ev) t \/
  exists before req rest,
    t = before ++ HttpPost req :: rest /\
    Forall is_stderr before /\
    Forall (fun ev => ~ is_post ev) rest.
Proof.
  cbv zeta. destruct (saving_no_post args) as (t & tail & Hb & -> & Ht).
  destruct Hb as [t0 H|t0 t1 req H0 H1].
  - left. apply Forall_app. split; [|exact Ht].
    eapply Forall_impl; [|exact H]. intros [] Hd; simpl in *; tauto.
  - right. exists t0, req, (t1 ++ tail). split; [now rewrite <- app_assoc|].
    split; [now apply diagnostic_is_stderr|].
    apply Forall_app. split; [|exact Ht].
    eapply Forall_impl; [|exact H1]. intros [] Hd; simpl in *; tauto.
Qed.

Lemma before_saving_quiet (t : list event) :
  before_saving t ->
  Forall (fun ev => ~ is_stdout ev /\ ~ is_write ev) t.
Proof.
  intros H. apply before_saving_events in H.
  eapply Forall_impl; [|exact H]. intros [] Hd; simpl in *; tauto.
Qed.

(** Once [parse_args] has returned (a command line it refuses, or
    [--help], ends the process before and is not meant here): the exit
    status is 0 or 1, and standard output is used exactly by the runs that
    end with status 0: such a run ends by creating the parent directory,
    writing the file, and printing the path of the file, once on each
    stream; before that it has written no file and printed nothing on
    standard output. *)
Theorem stdout_only_on_success (args : Args) :
  parsed args ->
  let s := script lib w args in
  (snd s = 0%Z \/ snd s = 1%Z) /\
  (Exists is_stdout (fst s) <-> snd s = 0%Z) /\
  (snd s = 0%Z ->
   exists before p data,
     fst s = before ++ Mkdir (path_str (path_parent p))
               :: WriteFile p data :: saved_lines p /\
     Forall (fun ev => ~ is_stdout ev /\ ~ is_write ev) before).
Proof.
  intros _. cbv zeta.
  assert (Hno : forall t, Forall (fun ev => ~ is_stdout ev /\ ~ is_write ev) t
                          -> ~ Exists is_stdout t).
  { intros t Ht He. apply Exists_exists in He. destruct He as (ev & Hi & Hs).
    rewrite Forall_forall in Ht. destruct (Ht ev Hi) as [H _]. exact (H Hs). }
  destruct (script_cases lib w args)
    as (t & Hb & [E|[[e E]|(b & p & note & _ & Hn & C)]]).
  - rewrite E. cbn [fst snd]. split; [now right|]. split; [|discriminate].
    split; [|discriminate]. intros H. exfalso.
    exact (Hno _ (before_saving_quiet t Hb) H).
  - rewrite E. cbn [fst snd]. split; [now right|]. split; [|discriminate].
    split; [|discriminate]. intros H. exfalso. revert H. apply Hno.
    apply Forall_app. split; [now apply before_saving_quiet|kinds].
  - assert (Hq : Forall (fun ev => ~ is_stdout ev /\ ~ is_write ev)
                        (t ++ note)).
    { apply Forall_app. split; [now apply before_saving_quiet|].
      destruct Hn as [->| ->]; kinds. }
    destruct C as [(e & _ & E)|[(e & _ & _ & E)|(_ & _ & E)]];
      rewrite E; cbn [fst snd].
    + split; [now right|]. split; [|discriminate].
      split; [|discriminate]. intros H. exfalso. revert H. apply Hno.
      rewrite app_assoc. apply Forall_app. split; [exact Hq|kinds].
    + split; [now right|]. split; [|discriminate].
      split; [|discriminate]. intros H. exfalso.
      rewrite app_assoc in H. apply Exists_app in H.
      destruct H as [H|H]; [exact (Hno _ Hq H)|].
      repeat (apply Exists_cons in H; destruct H as [H|H]; [exact H|]).
      now apply Exists_nil in H.
    + split; [now left|]. split.
      * split; [reflexivity|]. intros _.
        rewrite app_assoc. apply Exists_app. right.
        do 3 apply Exists_cons_tl. apply Exists_cons_hd. exact I.
      * intros _. exists (t ++ note), p, b.
        split; [now rewrite <- app_assoc|exact Hq].
Qed.

(** A file is written only after the directory it goes to was created
    without error, it is the only file the run writes, and the path
    created is the parent of the path written. *)
Theorem write_follows_mkdir (args : Args) (p : PurePath) (data : bytes) :
  In (WriteFile p data) (fst (script lib w args)) ->
  mkdir_error w (path_str (path_parent p)) = None /\
  exists before rest,
    fst (script lib w args)
    = before ++ Mkdir (path_str (path_parent p)) :: WriteFile p data :: rest /\
    Forall (fun ev => ~ is_write ev) before /\
    Forall (fun ev => ~ is_write ev) rest.
Proof.
  intros Hin.
  assert (Hno : forall t, Forall (fun ev => ~ is_stdout ev /\ ~ is_write ev) t
                          -> ~ In (WriteFile p data) t).
  { intros t Ht Hi. rewrite Forall_forall in Ht.
    destruct (Ht _ Hi) as [_ H]. now apply H. }
  assert (Hw : forall t, Forall (fun ev => ~ is_stdout ev /\ ~ is_write ev) t
                         -> Forall (fun ev => ~ is_write ev) t).
  { intros t. apply Forall_impl. tauto. }
  destruct (script_cases lib w args)
    as (t & Hb & [E|[[e E]|(b & q & note & _ & Hn & C)]]).
  - exfalso. rewrite E in Hin. exact (Hno _ (before_saving_quiet t Hb) Hin).
  - exfalso. rewrite E in Hin. cbn [fst] in Hin. apply in_app_or in Hin.
    destruct Hin as [Hin|[Hin|[]]];
      [exact (Hno _ (before_saving_quiet t Hb) Hin)|discriminate Hin].
  - assert (Hq : Forall (fun ev => ~ is_stdout ev /\ ~ is_write ev)
                        (t ++ note)).
    { apply Forall_app. split; [now apply before_saving_quiet|].
      destruct Hn as [->| ->]; kinds. }
    destruct C as [(e & _ & E)|[(e & Hmk & _ & E)|(Hmk & _ & E)]];
      rewrite E in *; cbn [fst] in *; rewrite app_assoc in Hin;
      apply in_app_or in Hin; destruct Hin as [Hin|Hin];
      try (exfalso; exact (Hno _ Hq Hin)); cbn [In saved_lines app] in Hin.
    + exfalso. destruct Hin as [Hin|[Hin|[]]]; discriminate Hin.
    + destruct Hin as [Hin|[Hin|[Hin|[]]]]; try discriminate Hin.
      injection Hin as <- <-. split; [exact Hmk|].
      exists (t ++ note), [Traceback e].
      split; [now rewrite <- app_assoc|]. split; [now apply Hw|kinds].
    + destruct Hin as [Hin|[Hin|[Hin|[Hin|[]]]]]; try discriminate Hin.
      injection Hin as <- <-. split; [exact Hmk|].
      exists (t ++ note), (saved_lines q).
      split; [now rewrite <- app_assoc|]. split; [now apply Hw|].
      unfold saved_lines. kinds.
Qed.

End RunMore.

Lemma write_follows_mkdir_witness :
  mkdir_error sample_world
    (path_str (path_parent (mkPath EmptyString ["robot.gif"]))) = None /\
  exists before rest,
    fst (script sample_lib sample_world sample_args)
    = before ++ Mkdir "." :: WriteFile (mkPath EmptyString ["robot.gif"])
                               gif_bytes :: rest /\
    Forall (fun ev => ~ is_write ev) before /\
    Forall (fun ev => ~ is_write ev) rest.
Proof.
  apply (write_follows_mkdir sample_lib sample_world sample_args
           (mkPath EmptyString ["robot.gif"]) gif_bytes).
  vm_compute. in_list.
Defined.

Lemma stdout_only_on_success_witness :
  parsed sample_args /\
  snd (script sample_lib sample_world sample_args) = 0%Z /\
  Exists is_stdout (fst (script sample_lib sample_world sample_args)) /\
  snd (script sample_lib empty_world sample_args) = 1%Z /\
  ~ Exists is_stdout (fst (script sample_lib empty_world sample_args)).
Proof.
  assert (Hp : parsed sample_args) by (unfold parsed; cbn; tauto).
  destruct (stdout_only_on_success sample_lib sample_world sample_args Hp)
    as (_ & H1 & _).
  destruct (stdout_only_on_success sample_lib empty_world sample_args Hp)
    as (_ & H2 & _).
  split; [exact Hp|]. split; [reflexivity|]. split; [|split; [reflexivity|]].
  - apply H1. vm_compute. reflexivity.
  - intros H. apply H2 in H. vm_compute in H. discriminate H.
Defined.

(* ================================================================== *)
(** * Further properties of the exchange with the API *)
(* ================================================================== *)

Section ExchangeMore.
Variable lib : PyLib.
Variable w : World.

(** A run that has posted, whose exchange ends without an image. *)
Lemma script_after_failed_post (args : Args) (req : request)
    (t : list event) :
  In (HttpPost req) (trace (main lib w args)) ->
  (after_post lib w req = (t, Exit 1%Z) ->
   exists before,
     Forall is_stderr before /\
     script lib w args = (before ++ HttpPost req :: t, 1%Z)) /\
  (forall e,
      after_post lib w req = (t, Raise e) ->
      exists before,
        Forall is_stderr before /\
        script lib w args = (before ++ HttpPost req :: t ++ [Traceback e], 1%Z)).
Proof.
  intros Hin. apply main_from_post in Hin.
  destruct Hin as (before & Hb & E).
  split; [intros A|intros e A]; exists before;
    (split; [now apply diagnostic_is_stderr|]);
    unfold script; rewrite E, A; unfold run; cbn [trace final fst snd];
    rewrite ?app_nil_r; [reflexivity|].
  f_equal. rewrite <- app_assoc. reflexivity.
Qed.

(** A request that fails is fatal, each kind of failure in its own way:
    an HTTP error status prints the status and the body of the answer, a
    failure to reach the server prints its reason, and any other exception
    (a timeout while reading, an answer that is not JSON) is not caught.
    In each case nothing follows: the status is 1, nothing was written or
    printed on standard output. *)
Theorem failed_request_is_fatal (args : Args) (req : request) :
  In (HttpPost req) (trace (main lib w args)) ->
  (forall code error_body,
      urlopen w req = HTTPError code error_body ->
      exists before,
        Forall is_stderr before /\
        script lib w args
        = (before ++ [HttpPost req;
                      Stderr ("API Error (" ++ str_of_int code ++ "): "
                              ++ error_body)], 1%Z)) /\
  (forall reason,
      urlopen w req = URLError reason ->
      exists before,
        Forall is_stderr before /\
        script lib w args
        = (before ++ [HttpPost req; Stderr ("Network Error: " ++ reason)],
           1%Z)) /\
  (forall e,
      urlopen w req = HttpRaises e ->
      exists before,
        Forall is_stderr before /\
        script lib w args = (before ++ [HttpPost req; Traceback e], 1%Z)).
Proof.
  intros Hin. split; [|split].
  - intros code body H.
    apply (proj1 (script_after_failed_post args req _ Hin)).
    unfold after_post. rewrite H. reflexivity.
  - intros reason H.
    apply (proj1 (script_after_failed_post args req _ Hin)).
    unfold after_post. rewrite H. reflexivity.
  - intros e H.
    apply (proj2 (script_after_failed_post args req [] Hin) e).
    unfold after_post. rewrite H. reflexivity.
Qed.

(** ** Responses without an image *)

Lemma plain_part_no_inline (part : json) :
  plain_part part -> py_in "inlineData" part = Ok false.
Proof. intros (fields & -> & H). cbn [py_in]. now rewrite H. Qed.

Lemma find_image_none (parts : list json) :
  Forall (fun x => py_in "inlineData" x = Ok false) parts ->
  find_image lib parts = ([], Done None).
Proof.
  induction 1 as [|part rest Hp Hrest IH]; cbn [find_image]; [reflexivity|].
  rewrite Hp. proc. rewrite <- surjective_M. exact IH.
Qed.

Lemma report_text_objects (parts : list json) :
  Forall plain_part parts ->
  report_text lib parts = (text_reports lib parts, Done tt).
Proof.
  induction 1 as [|part rest (fields & -> & _) Hrest IH];
    cbn [report_text]; [reflexivity|].
  unfold text_reports. cbn [flat_map text_report py_in py_getitem].
  fold (text_reports lib rest).
  destruct (dict_get fields "text") as [text|]; proc; rewrite IH; reflexivity.
Qed.

(** The image taken out of a response of the documented shape. *)
Lemma extract_image_parts (result candidate content : list (string * json))
    (others parts : list json) :
  dict_get result "candidates" = Some (JArr (JObj candidate :: others)) ->
  dict_get candidate "content" = Some (JObj content) ->
  dict_get content "parts" = Some (JArr parts) ->
  extract_image lib (JObj result) =
  bind (find_image lib parts)
       (fun found =>
          match found with
          | Some image => ret image
          | None =>
              bind (report_text lib parts)
                   (fun _ =>
                      bind (print_err "Error: No image data in response")
                           (fun _ => sys_exit 1))
          end).
Proof.
  intros Hc Hct Hp.
  unfold extract_image, py_get, dict_get_default. rewrite Hc. proc.
  cbn [truthy negb py_first]. proc. rewrite Hct. proc. rewrite Hp. proc.
  rewrite <- surjective_M. cbn [py_iter]. proc. now rewrite <- surjective_M.
Qed.

(** When no part of the response carries inline data, the text of every
    text part is reported, in the order of the parts, then the error; the
    run ends with status 1 and nothing was written. *)
Theorem no_image_is_fatal (args : Args) (req : request)
    (result candidate content : list (string * json))
    (others parts : list json) :
  In (HttpPost req) (trace (main lib w args)) ->
  urlopen w req = HttpResponse (JObj result) ->
  dict_get result "candidates" = Some (JArr (JObj candidate :: others)) ->
  dict_get candidate "content" = Some (JObj content) ->
  dict_get content "parts" = Some (JArr parts) ->
  Forall plain_part parts ->
  exists before,
    Forall is_stderr before /\
    script lib w args
    = (before ++ HttpPost req
         :: text_reports lib parts
         ++ [Stderr "Error: No image data in response"], 1%Z).
Proof.
  intros Hin Hresp Hc Hct Hp Hplain.
  apply (proj1 (script_after_failed_post args req _ Hin)).
  unfold after_post. rewrite Hresp. cbn [receive]. rewrite bind_ret.
  rewrite (extract_image_parts _ _ _ _ _ Hc Hct Hp).
  rewrite find_image_none
    by (eapply Forall_impl; [|exact Hplain]; apply plain_part_no_inline).
  rewrite bind_Done. cbn [trace final fst snd app].
  rewrite (report_text_objects parts Hplain). proc. reflexivity.
Qed.

(** The first part that carries inline data is the only one tried: when
    its data cannot be decoded the exception ends the run, with status 1
    and nothing written, whatever the parts after it hold. *)
Theorem undecodable_image_is_fatal (args : Args) (req : request)
    (result candidate content part inline_data : list (string * json))
    (others pre post : list json) (data : json) (e : exception) :
  In (HttpPost req) (trace (main lib w args)) ->
  urlopen w req = HttpResponse (JObj result) ->
  dict_get result "candidates" = Some (JArr (JObj candidate :: others)) ->
  dict_get candidate "content" = Some (JObj content) ->
  dict_get content "parts" = Some (JArr (pre ++ JObj part :: post)) ->
  Forall (fun x => py_in "inlineData" x = Ok false) pre ->
  dict_get part "inlineData" = Some (JObj inline_data) ->
  dict_get inline_data "data" = Some data ->
  py_b64decode lib data = Err e ->
  exists before,
    Forall is_stderr before /\
    script lib w args = (before ++ [HttpPost req; Traceback e], 1%Z).
Proof.
  intros Hin Hresp Hc Hct Hp Hpre Hi Hd Hb.
  apply (proj2 (script_after_failed_post args req [] Hin) e).
  unfold after_post. rewrite Hresp. cbn [receive]. rewrite bind_ret.
  rewrite (extract_image_parts _ _ _ _ _ Hc Hct Hp).
  assert (F : find_image lib (pre ++ JObj part :: post) = ([], Raise e)).
  { clear Hp. induction Hpre as [|x pre Hx Hpre IH]; cbn [app find_image].
    - unfold py_in, py_getitem. rewrite Hi. proc.
      unfold py_getitem. rewrite Hd. proc. rewrite Hb. reflexivity.
    - rewrite Hx. proc. rewrite <- surjective_M. exact IH. }
  rewrite F. reflexivity.
Qed.

End ExchangeMore.

Lemma failed_request_is_fatal_witness :
  (exists before,
      Forall is_stderr before /\
      script sample_lib (answering (HTTPError 429 "quota exceeded")) sample_args
      = (before ++ [HttpPost sample_request;
                    Stderr "API Error (429): quota exceeded"], 1%Z)) /\
  (exists before,
      Forall is_stderr before /\
      script sample_lib (answering (URLError "timed out")) sample_args
      = (before ++ [HttpPost sample_request;
                    Stderr "Network Error: timed out"], 1%Z)) /\
  (exists before,
      Forall is_stderr before /\
      script sample_lib (answering (HttpRaises (OtherError "TimeoutError")))
             sample_args
      = (before ++ [HttpPost sample_request;
                    Traceback (OtherError "TimeoutError")], 1%Z)).
Proof.
  split; [|split].
  - apply (proj1 (failed_request_is_fatal sample_lib
                    (answering (HTTPError 429 "quota exceeded")) sample_args
                    sample_request ltac:(vm_compute; in_list))
             429%Z "quota exceeded" eq_refl).
  - apply (proj1 (proj2 (failed_request_is_fatal sample_lib
                           (answering (URLError "timed out")) sample_args
                           sample_request ltac:(vm_compute; in_list)))
             "timed out" eq_refl).
  - apply (proj2 (proj2 (failed_request_is_fatal sample_lib
                           (answering (HttpRaises (OtherError "TimeoutError")))
                           sample_args sample_request
                           ltac:(vm_compute; in_list)))
             (OtherError "TimeoutError") eq_refl).
Defined.

Lemma no_image_is_fatal_witness :
  exists before,
    Forall is_stderr before /\
    script sample_lib
      (answering (HttpResponse
                    (response_with [text_part "I cannot draw that";
                                    JObj [("thought", JBool true)];
                                    text_part "Try another prompt"])))
      sample_args
    = (before ++ [HttpPost sample_request;
                  Stderr "Model response (no image): I cannot draw that";
                  Stderr "Model response (no image): Try another prompt";
                  Stderr "Error: No image data in response"], 1%Z).
Proof.
  apply (no_image_is_fatal sample_lib
           (answering (HttpResponse
                         (response_with [text_part "I cannot draw that";
                                         JObj [("thought", JBool true)];
                                         text_part "Try another prompt"])))
           sample_args sample_request
           [("candidates",
             JArr [JObj [("content",
                          JObj [("parts",
                                 JArr [text_part "I cannot draw that";
                                       JObj [("thought", JBool true)];
                                       text_part "Try another prompt"])])]])]
           [("content",
             JObj [("parts",
                    JArr [text_part "I cannot draw that";
                          JObj [("thought", JBool true)];
                          text_part "Try another prompt"])])]
           [("parts",
             JArr [text_part "I cannot draw that";
                   JObj [("thought", JBool true)];
                   text_part "Try another prompt"])]
           []
           [text_part "I cannot draw that";
            JObj [("thought", JBool true)];
            text_part "Try another prompt"]).
  - vm_compute. in_list.
  - reflexivity.
  - reflexivity.
  - reflexivity.
  - reflexivity.
  - repeat (constructor; [eexists; split; reflexivity|]). constructor.
Defined.

Lemma undecodable_image_is_fatal_witness :
  exists before,
    Forall is_stderr before /\
    script sample_lib
      (answering (HttpResponse
                    (response_with
                       [inline_part "image/png" "not base64!";
                        inline_part "image/png" (sample_b64encode png_bytes)])))
      sample_args
    = (before ++ [HttpPost sample_request; Traceback binascii_Error], 1%Z).
Proof.
  apply (undecodable_image_is_fatal sample_lib
           (answering (HttpResponse
                         (response_with
                            [inline_part "image/png" "not base64!";
                             inline_part "image/png"
                               (sample_b64encode png_bytes)])))
           sample_args sample_request
           [("candidates",
             JArr [JObj [("content",
                          JObj [("parts",
                                 JArr [inline_part "image/png" "not base64!";
                                       inline_part "image/png"
                                         (sample_b64encode png_bytes)])])]])]
           [("content",
             JObj [("parts",
                    JArr [inline_part "image/png" "not base64!";
                          inline_part "image/png"
                            (sample_b64encode png_bytes)])])]
           [("parts",
             JArr [inline_part "image/png" "not base64!";
                   inline_part "image/png" (sample_b64encode png_bytes)])]
           [("inlineData",
             JObj [("mimeType", JStr "image/png");
                   ("data", JStr "not base64!")])]
           [("mimeType", JStr "image/png"); ("data", JStr "not base64!")]
           [] []
           [inline_part "image/png" (sample_b64encode png_bytes)]
           (JStr "not base64!") binascii_Error).
  - vm_compute. in_list.
  - reflexivity.
  - reflexivity.
  - reflexivity.
  - reflexivity.
  - constructor.
  - reflexivity.
  - reflexivity.
  - vm_compute. reflexivity.
Defined.

(* ================================================================== *)
(** * Further properties of the request *)
(* ================================================================== *)

Section RequestMore.
Variable lib : PyLib.
Variable w : World.

(** When the loop over the reference images returns, every image was
    loaded and the parts grew by one entry per image, in order. *)
Lemma add_reference_images_Done (l : list string) :
  forall parts parts',
    final (add_reference_images lib w l parts) = Done parts' ->
    Forall (loadable w) l /\
    parts' = parts ++ map (reference_part lib w) l.
Proof.
  induction l as [|p l IH]; intros parts parts'; cbn [add_reference_images].
  - intros H. injection H as <-. split; [constructor|].
    now rewrite app_nil_r.
  - unfold load_image_as_base64.
    destruct (path_exists w (path_str (Path p))) eqn:He; cbn [negb];
      [|proc; discriminate].
    destruct (read_bytes w (path_str (Path p))) as [b|e] eqn:Hr;
      [|proc; discriminate].
    proc. intros H. apply IH in H. destruct H as [Hl ->]. split.
    + constructor; [|exact Hl]. split; [exact He|]. now exists b.
    + cbn [map]. unfold reference_part at 2, file_bytes. rewrite Hr.
      now rewrite <- app_assoc.
Qed.

Lemma request_parts_Done (prompt : string)
    (reference_images : option (list string)) (parts : list json) :
  final (request_parts lib w prompt reference_images) = Done parts ->
  Forall (loadable w) (firstn 14 (requested reference_images)) /\
  parts = text_part prompt
            :: map (reference_part lib w)
                   (firstn 14 (requested reference_images)).
Proof.
  unfold request_parts.
  destruct reference_images as [[|p l]|]; cbn [requested].
  - intros H. injection H as <-. split; [constructor|reflexivity].
  - rewrite limit_reference_images_eq. proc. intros H.
    apply add_reference_images_Done in H. exact H.
  - intros H. injection H as <-. split; [constructor|reflexivity].
Qed.

(** Whenever a request is sent, what it carries is known.  Its URL names
    the model and the resolved key; it is a POST of JSON with a timeout of
    180 seconds; its body holds, under [contents], the text prompt first,
    then one [inlineData] part per reference image among the first 14
    asked for, in their order, each with the base64 text of the file and
    the MIME type sniffed from its bytes (one of the four supported types,
    whatever the file is called), and under [generationConfig] the aspect
    ratio and the size asked for.  All of these images were found and
    read, and the body never has more than 15 parts. *)
Theorem request_sent_is_well_formed (prompt aspect_ratio image_size : string)
    (reference_images : option (list string)) (model_id : string)
    (api_key : option string) (req : request) :
  In (HttpPost req)
     (trace (generate_image lib w prompt aspect_ratio image_size
                            reference_images model_id api_key)) ->
  let used := firstn 14 (requested reference_images) in
  let image_part := fun image_path =>
    JObj [("inlineData",
           JObj [("mimeType",
                  JStr (fst (detect_image_format (file_bytes w image_path))));
                 ("data", JStr (b64encode lib (file_bytes w image_path)))])] in
  let parts := JObj [("text", JStr prompt)] :: map image_part used in
  req = {| req_url :=
             "https://generativelanguage.googleapis.com/v1beta/models/"
               ++ model_id ++ ":generateContent?key="
               ++ resolved_key api_key (environ_GEMINI_API_KEY w);
           req_method := "POST";
           req_headers := [("Content-Type", "application/json")];
           req_payload :=
             JObj [("contents", JArr [JObj [("parts", JArr parts)]]);
                   ("generationConfig",
                    JObj [("responseModalities",
                           JArr [JStr "TEXT"; JStr "IMAGE"]);
                          ("imageConfig",
                           JObj [("aspectRatio", JStr aspect_ratio);
                                 ("imageSize", JStr image_size)])])];
           req_timeout := 180 |} /\
  length parts <= 15 /\
  Forall (loadable w) used /\
  Forall (fun p => supported_mime
                     (fst (detect_image_format (file_bytes w p)))) used.
Proof.
  intros Hin used image_part parts. apply generate_image_posted in Hin.
  destruct Hin as (_ & parts0 & Hp & -> & _).
  apply request_parts_Done in Hp. destruct Hp as [Hl ->].
  split; [reflexivity|]. split; [|split; [exact Hl|]].
  - unfold parts. cbn [length]. rewrite length_map. unfold used.
    pose proof (firstn_le_length 14 (requested reference_images)).
    rewrite length_firstn. lia.
  - apply Forall_forall. intros p _.
    pose proof (detect_image_format_range (file_bytes w p)) as H.
    unfold supported_mime. simpl in H.
    repeat destruct H as [H|H]; try contradiction; rewrite <- H; simpl; auto.
Qed.

(** ** The first missing reference image *)



End RequestMore.

Lemma request_sent_is_well_formed_witness :
  let used := firstn 14 fifteen_references in
  exists req,
    In (HttpPost req)
       (trace (generate_image sample_lib sample_world "A cute robot!" "1:1"
                 "2K" (Some fifteen_references) "gemini-3-pro-image-preview"
                 None)) /\
    req_url req
    = "https://generativelanguage.googleapis.com/v1beta/models/gemini-3-pro-image-preview:generateContent?key=secret" /\
    req_payload req
    = JObj [("contents",
             JArr [JObj [("parts",
                          JArr (JObj [("text", JStr "A cute robot!")]
                                  :: map (fun _ =>
                                       JObj [("inlineData",
                                              JObj [("mimeType", JStr "image/png");
                                                    ("data",
                                                     JStr "iVBORw0KGgoAAAAN")])])
                                       used))]]);
            ("generationConfig",
             JObj [("responseModalities", JArr [JStr "TEXT"; JStr "IMAGE"]);
                   ("imageConfig",
                    JObj [("aspectRatio", JStr "1:1");
                          ("imageSize", JStr "2K")])])] /\
    Forall (loadable sample_world) used.
Proof.
  intros used.
  pose (req := build_request "gemini-3-pro-image-preview" "secret"
                 (text_part "A cute robot!"
                    :: map (reference_part sample_lib sample_world) used)
                 "1:1" "2K").
  assert (Hin : In (HttpPost req)
                   (trace (generate_image sample_lib sample_world
                             "A cute robot!" "1:1" "2K"
                             (Some fifteen_references)
                             "gemini-3-pro-image-preview" None)))
    by (vm_compute; in_list).
  destruct (request_sent_is_well_formed sample_lib sample_world
              "A cute robot!" "1:1" "2K" (Some fifteen_references)
              "gemini-3-pro-image-preview" None req Hin)
    as (H1 & _ & H3 & _).
  exists req. split; [exact Hin|].
  split; [exact (f_equal req_url H1)|].
  split; [exact (f_equal req_payload H1)|exact H3].
Defined.


(* ================================================================== *)
(** * Further properties of the slug *)
(* ================================================================== *)

Section SlugMore.

Local Abbreviation chars_of := list_ascii_of_string.

Ltac each_char c :=
  destruct c as [b0 b1 b2 b3 b4 b5 b6 b7];
  destruct b0, b1, b2, b3, b4, b5, b6, b7; vm_compute;
  intros; try discriminate; try reflexivity; auto.

Lemma slug_char_of_kept (c : ascii) :
  keep_char (lower_char c) = true ->
  hyphen_or_space (lower_char c) = false ->
  slug_char (lower_char c) = true.
Proof. each_char c. Qed.

Lemma slug_char_hyphen : slug_char "-"%char = true.
Proof. reflexivity. Qed.

Lemma slug_char_lower (c : ascii) : slug_char c = true -> lower_char c = c.
Proof. each_char c. Qed.

Lemma slug_char_keep (c : ascii) : slug_char c = true -> keep_char c = true.
Proof. each_char c. Qed.

Lemma slug_char_no_space (c : ascii) : slug_char c = true -> isspace c = false.
Proof. each_char c. Qed.

Lemma slug_char_run (c : ascii) :
  slug_char c = true -> hyphen_or_space c = true -> c = "-"%char.
Proof. each_char c. Qed.

Lemma slug_char_plain (c : ascii) :
  slug_char c = true -> is_slash c = false /\ is_dot c = false.
Proof. each_char c. Qed.

(** What [collapse] lets through is a hyphen or a character of its input
    that is neither a hyphen nor white space. *)
Lemma collapse_elements (Q : ascii -> Prop) (l : list ascii) :
  Forall Q l ->
  forall prev,
    Forall (fun c => c = "-"%char \/ (Q c /\ hyphen_or_space c = false))
           (collapse prev l).
Proof.
  induction 1 as [|c l Hc Hl IH]; intros prev; cbn [collapse];
    [constructor|].
  destruct (hyphen_or_space c) eqn:E.
  - destruct prev as [q|]; [destruct (hyphen_or_space q)|];
      try (constructor; [now left|]); apply IH.
  - constructor; [right; now split|apply IH].
Qed.

Lemma collapse_runs (l : list ascii) (prev : option ascii) :
  runs_collapsed (in_run_after prev) (collapse prev l) = true.
Proof.
  revert prev. induction l as [|c l IH]; intros prev; [reflexivity|].
  cbn [collapse]. destruct (hyphen_or_space c) eqn:E.
  - pose proof (IH (Some c)) as H. cbn [in_run_after] in H. rewrite E in H.
    destruct prev as [q|]; cbn [in_run_after].
    + destruct (hyphen_or_space q) eqn:Eq; [exact H|].
      cbn [runs_collapsed]. now rewrite H.
    + cbn [runs_collapsed]. now rewrite H.
  - cbn [runs_collapsed]. rewrite E.
    pose proof (IH (Some c)) as H. cbn [in_run_after] in H.
    now rewrite E in H.
Qed.

Lemma runs_collapsed_firstn (n : nat) (l : list ascii) (after_run : bool) :
  runs_collapsed after_run l = true ->
  runs_collapsed after_run (firstn n l) = true.
Proof.
  revert n after_run. induction l as [|c l IH]; intros [|n] b H;
    try reflexivity.
  cbn [firstn runs_collapsed] in *.
  destruct (hyphen_or_space c).
  - apply andb_true_iff in H. destruct H as [H1 H2].
    now rewrite H1, (IH n true H2).
  - now apply IH.
Qed.

(** The characters of the slug before the fallback. *)
Lemma slug_list_chars (prompt : string) :
  let l := firstn 50 (collapse None
             (trim (filter keep_char (map lower_char (chars_of prompt))))) in
  Forall (fun c => slug_char c = true) l /\ runs_collapsed false l = true.
Proof.
  cbv zeta. split.
  - apply Forall_firstn.
    eapply Forall_impl;
      [|apply (collapse_elements
                 (fun c => exists c0, c = lower_char c0 /\ keep_char c = true))].
    + intros c [->|[(c0 & -> & Hk) Hh]];
        [reflexivity|now apply slug_char_of_kept].
    + apply Forall_trim. apply Forall_forall. intros c Hc.
      apply filter_In in Hc. destruct Hc as [Hin Hk].
      apply in_map_iff in Hin. destruct Hin as (c0 & <- & _).
      now exists c0.
  - apply runs_collapsed_firstn. apply (collapse_runs _ None).
Qed.

Lemma chars_of_slug (prompt : string) :
  let l := firstn 50 (collapse None
             (trim (filter keep_char (map lower_char (chars_of prompt))))) in
  chars_of (slug_of_prompt prompt)
  = match l with [] => chars_of "untitled" | _ => l end.
Proof.
  cbv zeta. rewrite slug_of_prompt_described. unfold slug_described.
  cbv zeta. destruct (firstn 50 _) as [|c l] eqn:E; [reflexivity|].
  apply list_ascii_of_string_of_list_ascii.
Qed.

(** The slug of a prompt whose characters lie between U+0000 and U+00FF
    is safe as a file name and tidy: it is made of hyphens and of word
    characters that lowercasing leaves alone, so it holds no white space,
    no slash and no dot; and no two hyphens stand side by side. *)
Theorem slug_is_tidy (prompt : string) :
  let l := chars_of (slug_of_prompt prompt) in
  Forall (fun c => slug_char c = true) l /\
  runs_collapsed false l = true /\
  Forall (fun c => isspace c = false /\ is_slash c = false
                   /\ is_dot c = false) l.
Proof.
  cbv zeta.
  assert (H : Forall (fun c => slug_char c = true)
                     (chars_of (slug_of_prompt prompt))
              /\ runs_collapsed false (chars_of (slug_of_prompt prompt))
                 = true).
  { rewrite chars_of_slug. cbv zeta.
    pose proof (slug_list_chars prompt) as [H1 H2]. cbv zeta in H1, H2.
    destruct (firstn 50 _) as [|c l].
    - split; [repeat constructor|reflexivity].
    - now split. }
  destruct H as [H1 H2]. split; [exact H1|]. split; [exact H2|].
  eapply Forall_impl; [|exact H1]. intros c Hc.
  split; [now apply slug_char_no_space|now apply slug_char_plain].
Qed.

(** ** Making a slug of a slug *)

Lemma map_id_Forall {X : Type} (f : X -> X) (l : list X) :
  Forall (fun x => f x = x) l -> map f l = l.
Proof. induction 1 as [|x l Hx Hl IH]; cbn; [reflexivity|now rewrite Hx, IH]. Qed.

Lemma drop_spaces_none (l : list ascii) :
  Forall (fun c => isspace c = false) l -> drop_spaces l = l.
Proof. intros [|c l' Hc Hl]; cbn [drop_spaces]; [reflexivity|now rewrite Hc]. Qed.

Lemma trim_none (l : list ascii) :
  Forall (fun c => isspace c = false) l -> trim l = l.
Proof.
  intros H. unfold trim. rewrite (drop_spaces_none l H).
  rewrite (drop_spaces_none (rev l)) by now apply Forall_rev.
  apply rev_involutive.
Qed.

Lemma collapse_collapsed (l : list ascii) :
  Forall (fun c => hyphen_or_space c = true -> c = "-"%char) l ->
  forall prev,
    runs_collapsed (in_run_after prev) l = true -> collapse prev l = l.
Proof.
  induction 1 as [|c l Hc Hl IH]; intros prev H; [reflexivity|].
  cbn [collapse runs_collapsed] in *.
  destruct (hyphen_or_space c) eqn:E.
  - apply andb_true_iff in H. destruct H as [Hp H].
    apply negb_true_iff in Hp.
    assert (R : collapse (Some c) l = l).
    { apply IH. cbn [in_run_after]. now rewrite E. }
    rewrite R, (Hc eq_refl).
    destruct prev as [q|]; cbn [in_run_after] in Hp; [rewrite Hp|];
      reflexivity.
  - f_equal. apply IH. cbn [in_run_after]. now rewrite E.
Qed.

Lemma length_chars_of (s : string) : length (chars_of s) = String.length s.
Proof. induction s as [|c s IH]; cbn; [reflexivity|now rewrite IH]. Qed.

(** For a prompt whose characters lie between U+0000 and U+00FF, making
    a slug of its slug changes nothing. *)
Theorem slug_of_slug (prompt : string) :
  slug_of_prompt (slug_of_prompt prompt) = slug_of_prompt prompt.
Proof.
  pose proof (slug_is_tidy prompt) as (Hc & Hr & _). cbv zeta in Hc, Hr.
  pose proof (slug_length prompt) as Hlen.
  pose proof (slug_nonempty prompt) as Hne.
  set (s := slug_of_prompt prompt) in *.
  rewrite (slug_of_prompt_described s). unfold slug_described. cbv zeta.
  rewrite (map_id_Forall lower_char)
    by (eapply Forall_impl; [|exact Hc]; apply slug_char_lower).
  rewrite (filter_all keep_char)
    by (eapply Forall_impl; [|exact Hc]; apply slug_char_keep).
  rewrite trim_none
    by (eapply Forall_impl; [|exact Hc]; apply slug_char_no_space).
  assert (Hrun : Forall (fun c => hyphen_or_space c = true -> c = "-"%char)
                        (chars_of s))
    by (eapply Forall_impl; [|exact Hc]; apply slug_char_run).
  rewrite (collapse_collapsed (chars_of s) Hrun None Hr).
  rewrite firstn_all2 by (rewrite length_chars_of; exact Hlen).
  destruct (chars_of s) as [|c l] eqn:E.
  - exfalso. apply Hne. now destruct s.
  - rewrite <- E. apply string_of_list_ascii_of_string.
Qed.

End SlugMore.

(* ================================================================== *)
(** * Further properties of the destination *)
(* ================================================================== *)

Section DestinationMore.
Variable lib : PyLib.
Variable w : World.

Lemma rfind_dot_none (s : string) :
  Forall (fun c => is_dot c = false) (list_ascii_of_string s) ->
  rfind_dot s = None.
Proof.
  induction s as [|c s IH]; [reflexivity|]. cbn [list_ascii_of_string].
  intros H. inversion H as [|? ? Hc Hs]; subst.
  cbn [rfind_dot]. now rewrite (IH Hs), Hc.
Qed.

Lemma rfind_dot_app_none (a b : string) :
  rfind_dot a = None -> rfind_dot b = None -> rfind_dot (a ++ b) = None.
Proof.
  intros Ha Hb. induction a as [|c a IH]; [exact Hb|].
  cbn [append rfind_dot] in *.
  destruct (rfind_dot a); [discriminate Ha|].
  rewrite (IH eq_refl). exact Ha.
Qed.

Lemma take_all (s : string) : take (String.length s) s = s.
Proof.
  unfold take. induction s as [|c s IH]; cbn; [reflexivity|now rewrite IH].
Qed.

Lemma uint_no_dot (d : Decimal.uint) :
  rfind_dot (DecimalString.NilEmpty.string_of_uint d) = None.
Proof. induction d; cbn; try reflexivity; now rewrite IHd. Qed.

Lemma str_of_int_no_dot (n : Z) : rfind_dot (str_of_int n) = None.
Proof.
  unfold str_of_int, DecimalString.NilZero.string_of_int,
    DecimalString.NilZero.string_of_uint.
  destruct (Z.to_int n) as [d|d].
  - destruct d; [reflexivity|apply (uint_no_dot (_ d))..].
  - cbn [rfind_dot].
    replace (rfind_dot match d with Decimal.Nil => "0" | _ =>
               DecimalString.NilEmpty.string_of_uint d end) with (@None nat)
      by (destruct d; [reflexivity|symmetry; apply (uint_no_dot (_ d))..]).
    reflexivity.
Qed.

(** The file name made for a prompt has no dot: its suffix is empty. *)
Lemma auto_filename_no_suffix (prompt : string) (timestamp : Z) :
  name_suffix (auto_filename prompt timestamp) = EmptyString.
Proof.
  unfold name_suffix, auto_filename.
  rewrite rfind_dot_app_none; [reflexivity| |].
  - apply rfind_dot_none.
    rewrite chars_of_slug. cbv zeta.
    pose proof (slug_list_chars prompt) as [H _]. cbv zeta in H.
    destruct (firstn 50 _) as [|c l]; [repeat constructor|].
    eapply Forall_impl; [|exact H].
    intros a Ha. now apply slug_char_plain.
  - apply rfind_dot_app_none; [reflexivity|apply str_of_int_no_dot].
Qed.

(** [with_suffix] refuses a path for one reason only when it is given one
    of the script's extensions: the path has no name. *)
Lemma with_suffix_extension (p : PurePath) (mime_type : string) :
  with_suffix p (get_extension mime_type) =
  if String.eqb (path_name p) EmptyString then None
  else Some {| root := root p;
               parts := removelast (parts p)
                          ++ [(take (String.length (path_name p)
                                     - String.length (path_suffix p))
                                    (path_name p)
                                 ++ get_extension mime_type)%string] |}.
Proof.
  pose proof (get_extension_range mime_type) as H. simpl in H.
  unfold with_suffix.
  repeat destruct H as [H|H]; try contradiction; rewrite <- H; reflexivity.
Qed.

(** When no output path is given, saving cannot fail on the path: the
    file goes to the directory [generated], under the slug, a hyphen, the
    time stamp and the extension of the sniffed format, and this is the
    path printed; nothing of the prompt can reach another directory or
    pass for an extension.  Such a run always prints the note on the
    extension, an empty output path counting as none. *)
Theorem auto_generated_path_is_written (args : Args) (p : PurePath)
    (data : bytes) :
  given (output args) = false ->
  In (WriteFile p data) (trace (main lib w args)) ->
  path_str p
  = ("generated/" ++ slug_of_prompt (prompt args) ++ "-"
       ++ str_of_int (time_now w)
       ++ snd (detect_image_format data))%string /\
  path_str (path_parent p) = "generated" /\
  (forall mime_type,
      with_suffix (destination w args) (get_extension mime_type) <> None) /\
  In (extension_note (snd (detect_image_format data))
                     (fst (detect_image_format data)))
     (trace (main lib w args)).
Proof.
  intros Ho Hin.
  assert (E : destination w args
              = mkPath EmptyString
                  ["generated"; auto_filename (prompt args) (time_now w)]).
  { unfold destination. destruct (output args) as [o|];
      [cbn [given] in Ho; rewrite Ho|]; apply auto_destination. }
  assert (Hname : path_name (destination w args)
                  = auto_filename (prompt args) (time_now w))
    by (now rewrite E).
  assert (Hne : String.eqb (auto_filename (prompt args) (time_now w))
                           EmptyString = false).
  { apply String.eqb_neq. intros H.
    destruct (auto_filename_plain (prompt args) (time_now w)) as [_ Hl].
    rewrite H in Hl. simpl in Hl. lia. }
  assert (W : forall mime_type,
             with_suffix (destination w args) (get_extension mime_type)
             = Some (mkPath EmptyString
                       ["generated";
                        (auto_filename (prompt args) (time_now w)
                           ++ get_extension mime_type)%string])).
  { intros m. rewrite with_suffix_extension, Hname, Hne.
    unfold path_suffix. rewrite Hname, auto_filename_no_suffix.
    cbn [String.length]. rewrite Nat.sub_0_r.
    rewrite E. cbn [root parts removelast app]. do 3 f_equal.
    now rewrite take_all. }
  assert (Hp : p = mkPath EmptyString
                     ["generated";
                      (auto_filename (prompt args) (time_now w)
                         ++ get_extension (fst (detect_image_format data)))
                        %string]).
  { pose proof (main_write lib w args p data Hin) as Hw. rewrite W in Hw.
    now injection Hw as <-. }
  split; [|split; [|split]].
  - rewrite Hp.
    rewrite get_extension_detect. unfold path_str. cbn [root parts join_slash].
    unfold auto_filename. cbn [append str_or].
    now rewrite !append_assoc.
  - rewrite Hp. reflexivity.
  - intros m. rewrite W. discriminate.
  - rewrite <- (get_extension_detect data).
    apply (main_note lib w args p data Hin).
    destruct (output args) as [o|]; [|reflexivity].
    cbn [given] in Ho. destruct o as [|c o]; [|discriminate Ho].
    rewrite Hp. reflexivity.
Qed.

(** An output path without a name, such as [/] or [.], can never be
    saved to: [with_suffix] raises [ValueError], and it does so only after
    the image was requested.  Such a run writes no file, prints nothing
    on standard output and ends with status 1; when the request has
    brought an image back, the uncaught [ValueError] is what ends it. *)
Theorem nameless_output_is_fatal (args : Args) (o : string) :
  output args = Some o -> nonempty o = true ->
  path_name (Path o) = EmptyString ->
  snd (script lib w args) = 1%Z /\
  Forall (fun ev => ~ is_write ev /\ ~ is_stdout ev) (fst (script lib w args)) /\
  (forall req image,
      In (HttpPost req) (trace (main lib w args)) ->
      final (after_post lib w req) = Done image ->
      exists before,
        Forall is_stderr before /\
        script lib w args
        = (before ++ HttpPost req :: trace (after_post lib w req)
             ++ [Traceback ValueError], 1%Z)).
Proof.
  intros Ho Hne Hname.
  assert (Hd : destination w args = Path o)
    by (unfold destination; now rewrite Ho, Hne).
  assert (W : forall m, with_suffix (destination w args) (get_extension m)
                        = None).
  { intros m. rewrite with_suffix_extension, Hd, Hname. reflexivity. }
  assert (Hq : forall t, before_saving t ->
                 Forall (fun ev => ~ is_write ev /\ ~ is_stdout ev) t).
  { intros t Ht. apply before_saving_quiet in Ht.
    eapply Forall_impl; [|exact Ht]. intros ev [H1 H2]. now split. }
  split; [|split].
  - destruct (script_cases lib w args)
      as (t & Hb & [E|[[e E]|(b & p & note & Hp & _)]]);
      [now rewrite E|now rewrite E|].
    rewrite W in Hp. discriminate Hp.
  - destruct (script_cases lib w args)
      as (t & Hb & [E|[[e E]|(b & p & note & Hp & _)]]).
    + rewrite E. now apply Hq.
    + rewrite E. cbn [fst]. apply Forall_app. split; [now apply Hq|].
      constructor; [cbn; tauto|constructor].
    + rewrite W in Hp. discriminate Hp.
  - intros req [b m] Hin Hf. apply main_from_post in Hin.
    destruct Hin as (before & Hb & E). exists before.
    split; [now apply diagnostic_is_stderr|].
    unfold script. rewrite E, Hf.
    pose proof (save_image_cases w args b m) as C. rewrite W in C.
    rewrite C. unfold run. cbn [trace final fst snd].
    f_equal. rewrite app_nil_r, <- app_assoc. reflexivity.
Qed.

End DestinationMore.

Lemma auto_generated_path_is_written_witness :
  let p := mkPath EmptyString ["generated"; "a-cute-robot-1730000000.gif"] in
  path_str p = "generated/a-cute-robot-1730000000.gif" /\
  path_str (path_parent p) = "generated" /\
  In (Stderr "Note: Using .gif extension (actual format: image/gif)")
     (trace (main sample_lib sample_world (with_output None sample_args))).
Proof.
  intros p.
  destruct (auto_generated_path_is_written sample_lib sample_world
              (with_output None sample_args) p gif_bytes eq_refl
              ltac:(vm_compute; in_list)) as (H1 & H2 & _ & H4).
  split; [exact H1|]. split; [exact H2|exact H4].
Defined.

Lemma nameless_output_is_fatal_witness :
  let args := with_output (Some "/") sample_args in
  snd (script sample_lib sample_world args) = 1%Z /\
  Forall (fun ev => ~ is_write ev /\ ~ is_stdout ev)
         (fst (script sample_lib sample_world args)) /\
  exists before,
    script sample_lib sample_world args
    = (before ++ HttpPost sample_request
         :: trace (after_post sample_lib sample_world sample_request)
         ++ [Traceback ValueError], 1%Z).
Proof.
  intros args.
  destruct (nameless_output_is_fatal sample_lib sample_world args "/"
              eq_refl eq_refl eq_refl) as (H1 & H2 & H3).
  split; [exact H1|]. split; [exact H2|].
  destruct (H3 sample_request (gif_bytes, "image/gif")
              ltac:(vm_compute; in_list) ltac:(vm_compute; reflexivity))
    as (before & _ & E).
  exists before. exact E.
Defined.

(* ================================================================== *)
(** * Further properties of the run before the request *)
(* ================================================================== *)

Section BeforeRequest.
Variable lib : PyLib.
Variable w : World.




Lemma announce_trace (args : Args) (model_id : string) :
  trace (announce args model_id) = announcement args model_id.
Proof.
  unfold announce, announcement. proc.
  destruct (reference_images args) as [[|p l]|]; reflexivity.
Qed.

(** The run after the model name is resolved: the announcement, then the
    rest, in which any request is the one built for that model. *)
Lemma announced_then_posted (args : Args) (model_id : string) :
  dict_item MODELS (model args) = Ok model_id ->
  exists rest,
    fst (script lib w args) = announcement args model_id ++ rest /\
    forall req,
      In (HttpPost req) rest ->
      exists parts,
        req = build_request model_id
                (resolved_key (key args) (environ_GEMINI_API_KEY w))
                parts (aspect args) (size args) /\
        length parts
        = 1 + Nat.min 14 (length (requested (reference_images args))).
Proof.
  intros Hm.
  pose proof (main_eq lib w args model_id Hm) as E. cbv zeta in E.
  set (g := generate_image lib w (prompt args) (aspect args) (size args)
              (reference_images args) model_id (key args)) in *.
  set (saved := match final g with
                | Done (image_bytes, mime_type) =>
                    trace (save_image w args image_bytes mime_type)
                | _ => []
                end) in *.
  assert (Ht : trace (main lib w args)
               = announcement args model_id ++ trace g ++ saved)
    by (rewrite E, <- announce_trace; reflexivity).
  assert (Hs : exists tb,
             fst (script lib w args) = trace (main lib w args) ++ tb /\
             Forall (fun ev => ~ is_post ev) tb).
  { unfold script, run. destruct (final (main lib w args)) as [u|st|e].
    - exists []. rewrite app_nil_r. split; [reflexivity|constructor].
    - exists []. rewrite app_nil_r. split; [reflexivity|constructor].
    - exists [Traceback e]. split; [reflexivity|].
      constructor; [cbn; tauto|constructor]. }
  destruct Hs as (tb & Hs & Htb).
  exists ((trace g ++ saved) ++ tb). split.
  - rewrite Hs, Ht. now rewrite <- !app_assoc.
  - intros req Hin.
    assert (Hmain : In (HttpPost req) (trace (main lib w args))).
    { apply in_app_or in Hin. destruct Hin as [Hin|Hin].
      - rewrite Ht. apply in_or_app. now right.
      - rewrite Forall_forall in Htb. exfalso. apply (Htb _ Hin). exact I. }
    apply main_posted in Hmain. destruct Hmain as (m' & Hm' & Hg).
    rewrite Hm in Hm'. injection Hm' as <-.
    apply generate_image_posted in Hg.
    destruct Hg as (_ & parts & Hp & Hreq & _).
    exists parts. split; [exact Hreq|].
    apply request_parts_Done in Hp. destruct Hp as [_ ->].
    cbn [length]. rewrite length_map, length_firstn. reflexivity.
Qed.

(** Once [parse_args] has returned, a run opens with the announcement,
    whatever happens next: the model id that [MODELS] gives for the model
    chosen, the prompt, the aspect ratio, size and model name, and, when
    reference images were given, their number.  That number is the number
    of paths on the command line: when more than 14 are given, the body
    of the request that follows holds the prompt and 14 images, not the
    number announced.  The request goes to the endpoint of the model
    announced, with the aspect ratio and size announced. *)
Theorem announcement_counts_all_references (args : Args) :
  parsed args ->
  let l := requested (reference_images args) in
  exists model_id rest,
    In (model args, model_id)
       [("pro", "gemini-3-pro-image-preview");
        ("flash", "gemini-2.5-flash-image")] /\
    fst (script lib w args)
    = [ Stderr ("Generating image with " ++ model_id ++ "...");
        Stderr ("Prompt: " ++ prompt args);
        Stderr ("Aspect: " ++ aspect args ++ ", Size: " ++ size args
                ++ ", Model: " ++ model args) ]
      ++ match l with
         | [] => []
         | _ => [Stderr ("Reference images: " ++ str_of_len (length l))]
         end
      ++ rest /\
    forall req,
      In (HttpPost req) rest ->
      exists parts,
        length parts = 1 + Nat.min 14 (length l) /\
        req_url req
        = ("https://generativelanguage.googleapis.com/v1beta/models/"
             ++ model_id ++ ":generateContent?key="
             ++ resolved_key (key args) (environ_GEMINI_API_KEY w))%string /\
        req_payload req
        = JObj [("contents", JArr [JObj [("parts", JArr parts)]]);
                ("generationConfig",
                 JObj [("responseModalities",
                        JArr [JStr "TEXT"; JStr "IMAGE"]);
                       ("imageConfig",
                        JObj [("aspectRatio", JStr (aspect args));
                              ("imageSize", JStr (size args))])])].
Proof.
  intros Hp l.
  assert (Hm : exists model_id,
             In (model args, model_id)
                [("pro", "gemini-3-pro-image-preview");
                 ("flash", "gemini-2.5-flash-image")] /\
             dict_item MODELS (model args) = Ok model_id).
  { destruct Hp as (_ & _ & [H|[H|[]]]); rewrite <- H.
    - exists "gemini-3-pro-image-preview". split; [now left|reflexivity].
    - exists "gemini-2.5-flash-image". split; [right; now left|reflexivity]. }
  destruct Hm as (model_id & Hin & Hm).
  destruct (announced_then_posted args model_id Hm) as (rest & E & Hreq).
  exists model_id, rest. split; [exact Hin|]. split.
  - rewrite E. unfold announcement. fold l. rewrite <- app_assoc.
    clearbody l. destruct l; reflexivity.
  - intros req Hr. destruct (Hreq req Hr) as (parts & -> & Hl).
    exists parts. split; [exact Hl|]. split; reflexivity.
Qed.

End BeforeRequest.


Lemma announcement_counts_all_references_witness :
  let args := with_references fifteen_references sample_args in
  parsed args /\
  exists rest,
    fst (script sample_lib sample_world args)
    = [ Stderr "Generating image with gemini-3-pro-image-preview...";
        Stderr "Prompt: A cute robot!";
        Stderr "Aspect: 1:1, Size: 2K, Model: pro";
        Stderr "Reference images: 15" ] ++ rest /\
    exists req parts,
      In (HttpPost req) rest /\
      length parts = 15 /\
      req_payload req
      = JObj [("contents", JArr [JObj [("parts", JArr parts)]]);
              ("generationConfig",
               JObj [("responseModalities",
                      JArr [JStr "TEXT"; JStr "IMAGE"]);
                     ("imageConfig",
                      JObj [("aspectRatio", JStr "1:1");
                            ("imageSize", JStr "2K")])])].
Proof.
  intros args.
  assert (Hp : parsed args) by (unfold parsed; cbn; tauto).
  split; [exact Hp|].
  destruct (announcement_counts_all_references sample_lib sample_world args Hp)
    as (model_id & rest & Hm & E & Hreq).
  assert (Hid : model_id = "gemini-3-pro-image-preview").
  { destruct Hm as [H|[H|[]]]; [now injection H|discriminate H]. }
  subst model_id. cbv zeta in E, Hreq.
  assert (E' : fst (script sample_lib sample_world args)
               = [ Stderr "Generating image with gemini-3-pro-image-preview...";
                   Stderr "Prompt: A cute robot!";
                   Stderr "Aspect: 1:1, Size: 2K, Model: pro";
                   Stderr "Reference images: 15" ] ++ rest) by exact E.
  clear E. exists rest. split; [exact E'|].
  pose (req := build_request "gemini-3-pro-image-preview" "secret"
                 (text_part "A cute robot!"
                    :: map (reference_part sample_lib sample_world)
                         (firstn 14 fifteen_references))
                 "1:1" "2K").
  assert (Hin : In (HttpPost req) rest).
  { assert (Hall : In (HttpPost req)
                      (fst (script sample_lib sample_world args)))
      by (vm_compute; in_list).
    rewrite E' in Hall. apply in_app_or in Hall.
    destruct Hall as [Hall|Hall]; [|exact Hall].
    exfalso. repeat (destruct Hall as [Hall|Hall]; [discriminate Hall|]).
    exact Hall. }
  destruct (Hreq req Hin) as (parts & Hl & _ & Hpay).
  exists req, parts. split; [exact Hin|]. split; [exact Hl|exact Hpay].
Defined.
